(** * browserclient: a browser-impersonating HTTP client (Go)

    A shallow embedding of package [browserclient] (client.go, fingerprint.go,
    profile.go, stream.go, types.go) and the properties of its family
    resolution, TLS template selection, header generation, redirect and retry
    policies, navigation history, stream reader and profile cache.

    Conventions.
    - Go strings are byte strings: [string] (a list of [ascii]).
    - [map[string]T] is [gmap string T]; a [range] over a map visits the
      entries in an order chosen by the runtime, modelled by [rangeOrder]
      applied to a seed taken from the [World].
    - [error] values are the inductive [error]; a nil error is [None].
    - Everything the code reads from outside (the clock, the pseudo-random
      generator, the runtime's map iteration order, the network) lives in the
      [World] record, which is threaded through the functions that use it.
    - Functions of Go's standard library whose details the repository does
      not depend on are the fields of the class [GoLib]. *)

From Stdlib Require Import ZArith QArith Lia Ascii String DecimalString.
From Stdlib Require Import Permutation.
From stdpp Require Import gmap strings list fin_maps.

Open Scope string_scope.
Open Scope Z_scope.
Open Scope list_scope.

(* ===================================================================== *)
(** * Part I: the program                                                 *)
(* ===================================================================== *)

(** ** Package strings *)

(** [strings.HasPrefix(s, prefix)]. *)
Fixpoint strings_HasPrefix (s prefix : string) : bool :=
  match prefix, s with
  | EmptyString, _ => true
  | String _ _, EmptyString => false
  | String p prefix', String c s' =>
      if Ascii.eqb c p then strings_HasPrefix s' prefix' else false
  end.

(** [strings.Contains(s, substr)]: [substr] occurs at some byte offset. *)
Fixpoint strings_Contains (s substr : string) : bool :=
  strings_HasPrefix s substr ||
  match s with
  | EmptyString => false
  | String _ s' => strings_Contains s' substr
  end.

(** [strings.Split(s, sep)] for a non-empty separator: [skip] counts the
    bytes of a separator still to be dropped, [cur] is the piece being
    collected. *)
Fixpoint split_from (sep s : string) (skip : nat) (cur : string) : list string :=
  match s with
  | EmptyString => [cur]
  | String c s' =>
      match skip with
      | S k => split_from sep s' k cur
      | O =>
          if strings_HasPrefix s sep
          then cur :: split_from sep s' (String.length sep - 1) EmptyString
          else split_from sep s' O (cur +:+ String c EmptyString)
      end
  end.

Definition strings_Split (s sep : string) : list string :=
  split_from sep s O EmptyString.

(** [strings.LastIndex(s, substr)], [-1] when absent. *)
Fixpoint last_index_from (s substr : string) (i : Z) (found : Z) : Z :=
  let found' := if strings_HasPrefix s substr then i else found in
  match s with
  | EmptyString => found'
  | String _ s' => last_index_from s' substr (i + 1) found'
  end.

Definition strings_LastIndex (s substr : string) : Z :=
  last_index_from s substr 0 (-1).

(** The slice expression [s[i:]]. *)
Fixpoint string_drop (n : nat) (s : string) : string :=
  match n, s with
  | O, _ => s
  | S n', String _ s' => string_drop n' s'
  | S _, EmptyString => EmptyString
  end.

(** [fmt.Sprintf("%d", n)]. *)
Definition itoa (n : Z) : string := NilEmpty.string_of_int (Z.to_int n).

(** ** Errors *)

(** Go's [error] values: [errors.New]/[fmt.Errorf] without [%w]
    ([errorString]), [fmt.Errorf] with one [%w] operand ([wrapError]),
    [*url.Error] as built by [http.Client], and the sentinels [io.EOF] and
    [http.ErrUseLastResponse], which the code compares by identity. *)
Inductive error : Type :=
  | errorString (msg : string)
  | wrapError (msg : string) (err : error)
  | urlError (Op URL : string) (Err : error)
  | io_EOF
  | http_ErrUseLastResponse.

(** The byte [0x22] and [fmt.Sprintf] with a quoted operand. *)
Definition dquote : string := String (ascii_of_nat 34) EmptyString.

Definition quoted (s : string) : string := dquote +:+ s +:+ dquote.

(** [err.Error()]. *)
Fixpoint Error (e : error) : string :=
  match e with
  | errorString msg => msg
  | wrapError msg _ => msg
  | urlError op url err => op +:+ " " +:+ quoted url +:+ ": " +:+ Error err
  | io_EOF => "EOF"
  | http_ErrUseLastResponse => "net/http: use last response"
  end.

(** [errors.Unwrap(err)]. *)
Definition Unwrap (e : error) : option error :=
  match e with
  | wrapError _ err => Some err
  | urlError _ _ err => Some err
  | _ => None
  end.

(** [fmt.Errorf(prefix + "%w", err)]: with a nil operand the verb prints
    [%!w(<nil>)] and the result wraps nothing. *)
Definition Errorf_w (prefix : string) (err : option error) : error :=
  match err with
  | Some e => wrapError (prefix +:+ Error e) e
  | None => errorString (prefix +:+ "%!w(<nil>)")
  end.

Definition is_EOF (e : error) : bool :=
  match e with io_EOF => true | _ => false end.

(** ** Package math/rand and the runtime's map iteration order *)

(** A [*rand.Rand]: the stream of raw values of its source and the number of
    values drawn so far. *)
Record Rand := mkRand { src : nat → Z; drawn : nat }.

(** The grid of the draws of [Float32]: the multiples of [2^-24] in
    [[0,1)]. *)
Definition float32Grid : positive := 2 ^ 24.

Definition raw (r : Rand) : Z * Rand :=
  (src r (drawn r), mkRand (src r) (S (drawn r))).

(** [r.Float32()], idealised as a uniform draw on the grid. The generator
    of math/rand rounds a draw of 53 bits to a [float32], so its values are
    not confined to the grid; what is proved of frequencies is proved
    within a tolerance. *)
Definition Float32 (r : Rand) : Q * Rand :=
  let '(x, r') := raw r in ((x mod Z.pos float32Grid) # float32Grid, r').

(** [r.Intn(n)] for [n > 0]: a value in [[0,n)]. *)
Definition Intn (r : Rand) (n : nat) : nat * Rand :=
  let '(x, r') := raw r in (Z.to_nat (x mod Z.of_nat n), r').

(** [r.Int63()]. *)
Definition Int63 (r : Rand) : Z * Rand :=
  let '(x, r') := raw r in (x mod 2 ^ 63, r').

(** The comparison [x < c] of a draw with a constant. The constants 0.2,
    0.3, 0.4 and 0.7 are taken at their decimal value. *)
Definition Qltb (x c : Q) : bool := negb (Qle_bool c x).

(** The order in which a [range] visits the [n] entries [l] of a map: the
    runtime picks the next entry among those not yet visited. Every seed
    gives a permutation of [l] (see [rangeOrder_Permutation]). *)
Fixpoint shuffle {A} (seed : nat → nat) (n : nat) (l : list A) : list A :=
  match n with
  | O => []
  | S n' =>
      let i := (seed n' mod length l)%nat in
      match l !! i with
      | Some x => x :: shuffle seed n' (delete i l)
      | None => []
      end
  end.

Definition rangeOrder {A} (seed : nat → nat) (l : list A) : list A :=
  shuffle seed (length l) l.

(** ** types.go *)

Record ClientConfig := mkClientConfig {
  ProxyURL : string;
  DisableTLSVerify : bool;
  RandomizeTLS : bool;
  ThreadID : Z;
  Timeout : Z
}.

Record BrowserProfile := mkBrowserProfile {
  ViewportWidth : Z;
  ViewportHeight : Z;
  ColorDepth : Z;
  PixelRatio : Q;
  Language : string;
  Platform : string;
  Vendor : string;
  TimezoneOffset : Z;
  SessionID : string;
  CanvasNoise : Q;
  UserAgent : string
}.

Record StreamConfig := mkStreamConfig {
  StopOnContent : string;
  BufferSize : Z;
  MaxBytes : Z
}.

Record StreamResult := mkStreamResult {
  BytesRead : Z;
  Content : string;
  FoundContent : bool
}.

(** ** Package net/http: requests, responses and the transport *)

Record URL := mkURL { URL_String : string; Path : string }.

(** [http.Header]. *)
Abbreviation Header := (gmap string (list string)).

Record Request := mkRequest {
  Method : string;
  req_URL : URL;
  req_Header : Header
}.

(** An [io.Reader], as the successive results [(p[:n], err)] of its [Read]
    calls; once they are used up, [Read] returns [(0, io.EOF)]. *)
Record ReadResult := mkReadResult { data : string; rerr : option error }.

Abbreviation Reader := (list ReadResult).

(** A response as the client loop sees it: the status code, the headers, the
    body and, when the status and [Location] header call for a redirect, the
    method and URL of the next request ([redirectBehavior] of net/http). *)
Record Response := mkResponse {
  StatusCode : Z;
  resp_Header : Header;
  Body : Reader;
  redirect : option (string * URL)
}.

(** The outcome of one round trip. *)
Inductive RoundTrip :=
  | RoundTripError (err : error)
  | RoundTripResponse (resp : Response).

(** ** The world outside the program *)

(** - [clock k] is the [k]-th reading of [time.Now().UnixNano()];
    - [stream seed] is the sequence of raw values of [rand.NewSource(seed)];
    - [iteration k] seeds the order of the [k]-th [range] over a map;
    - [network k req] is the outcome of the [k]-th round trip, sent with
      request [req];
    - [slept] records the arguments of [time.Sleep], most recent first. *)
Record World := mkWorld {
  clock : nat → Z;
  ticks : nat;
  stream : Z → nat → Z;
  iteration : nat → nat → nat;
  ranges : nat;
  network : nat → Request → RoundTrip;
  sent : nat;
  slept : list Z
}.

(** [time.Now().UnixNano()]. *)
Definition time_Now (w : World) : Z * World :=
  (clock w (ticks w),
   mkWorld (clock w) (S (ticks w)) (stream w) (iteration w) (ranges w)
           (network w) (sent w) (slept w)).

(** [rand.New(rand.NewSource(time.Now().UnixNano()))]. *)
Definition newRand (w : World) : Rand * World :=
  let '(seed, w') := time_Now w in (mkRand (stream w' seed) O, w').

(** The entries of a map in the order of one [range] statement. *)
Definition range {A} (l : list A) (w : World) : list A * World :=
  (rangeOrder (iteration w (ranges w)) l,
   mkWorld (clock w) (ticks w) (stream w) (iteration w) (S (ranges w))
           (network w) (sent w) (slept w)).

(** [Transport.RoundTrip(req)]. *)
Definition roundTrip (req : Request) (w : World) : RoundTrip * World :=
  (network w (sent w) req,
   mkWorld (clock w) (ticks w) (stream w) (iteration w) (ranges w)
           (network w) (S (sent w)) (slept w)).

(** [time.Sleep(d)]. *)
Definition time_Sleep (d : Z) (w : World) : World :=
  mkWorld (clock w) (ticks w) (stream w) (iteration w) (ranges w)
          (network w) (sent w) (d :: slept w).

(** ** Standard-library functions taken as given *)

(** - [fmt_Sscanf_d s] is the integer stored by [fmt.Sscanf(s, "%d", &v)],
      [None] when the scan fails and [v] keeps its value;
    - [strings_ToLower] is [strings.ToLower];
    - [http_NewRequest method url] is the URL of the request made by
      [http.NewRequest(method, url, body)], or its error;
    - [gzip_NewReader] and [zlib_NewReader] are the decompressing readers of
      compress/gzip and compress/zlib, or the error of their constructor. *)
Class GoLib := {
  fmt_Sscanf_d : string → option Z;
  strings_ToLower : string → string;
  http_NewRequest : string → string → URL + error;
  gzip_NewReader : Reader → Reader + error;
  zlib_NewReader : Reader → Reader + error
}.

(** ** fingerprint.go *)

(** The [utls.ClientHelloID] values the package names. *)
Inductive ClientHelloID :=
  | HelloChrome_Auto | HelloChrome_120
  | HelloFirefox_Auto | HelloFirefox_120
  | HelloSafari_Auto | HelloSafari_16_0 | HelloIOS_Auto
  | HelloEdge_Auto
  | HelloRandomized.

Global Instance ClientHelloID_eq_dec : EqDecision ClientHelloID.
Proof. solve_decision. Defined.

Definition browserFingerprints : gmap string (list ClientHelloID) :=
  list_to_map
    [ ("Chrome", [HelloChrome_Auto; HelloChrome_120]);
      ("Firefox", [HelloFirefox_Auto; HelloFirefox_120]);
      ("Safari", [HelloSafari_Auto; HelloSafari_16_0; HelloIOS_Auto]);
      ("Edge", [HelloEdge_Auto; HelloChrome_120]) ].

(** The templates the table lists for a family. *)
Definition templatesOf (family : string) : list ClientHelloID :=
  default [] (browserFingerprints !! family).

(** The loop [for b := range browserFingerprints { if Contains(ua, b) {
    browser = b; break } }] over the keys in the order [keys]. *)
Fixpoint firstContained (userAgent : string) (keys : list string)
    (browser : string) : string :=
  match keys with
  | [] => browser
  | b :: keys' =>
      if strings_Contains userAgent b then b
      else firstContained userAgent keys' browser
  end.

Definition selectFingerprint (userAgent : string) (randomize : bool)
    (w : World) : ClientHelloID * World :=
  if randomize then (HelloRandomized, w)
  else
    let '(r, w1) := newRand w in
    let '(entries, w2) := range (map_to_list browserFingerprints) w1 in
    let browser := firstContained userAgent entries.*1 "Chrome" in
    let fingerprints := templatesOf browser in
    let '(i, _) := Intn r (length fingerprints) in
    (default HelloRandomized (fingerprints !! i), w2).

(** [getALPNProtocols], with the draw of the package-level generator passed
    in. *)
Definition getALPNProtocols (userAgent : string) (draw : Q) : list string :=
  if strings_Contains userAgent "Safari"
     && negb (strings_Contains userAgent "Chrome")
     && Qltb draw (3 # 10)
  then ["http/1.1"]
  else ["h2"; "http/1.1"].

(** ** client.go: family resolution *)

Definition detectBrowser (userAgent : string) : string :=
  if strings_Contains userAgent "Firefox" then "Firefox"
  else if strings_Contains userAgent "Safari"
          && negb (strings_Contains userAgent "Chrome") then "Safari"
  else if strings_Contains userAgent "Edg/" then "Edge"
  else "Chrome".

(** ** Package net/textproto: canonical header keys *)

Definition ascii_in (lo hi : nat) (c : ascii) : bool :=
  (lo <=? nat_of_ascii c)%nat && (nat_of_ascii c <=? hi)%nat.

Definition is_lower (c : ascii) : bool := ascii_in 97 122 c.
Definition is_upper (c : ascii) : bool := ascii_in 65 90 c.
Definition is_digit (c : ascii) : bool := ascii_in 48 57 c.

(** [validHeaderFieldByte]: the token characters of RFC 7230. *)
Definition validHeaderFieldByte (c : ascii) : bool :=
  is_lower c || is_upper c || is_digit c
  || bool_decide (nat_of_ascii c ∈
       [33; 35; 36; 37; 38; 39; 42; 43; 45; 46; 94; 95; 96; 124; 126]%nat).

Fixpoint string_forallb (p : ascii → bool) (s : string) : bool :=
  match s with
  | EmptyString => true
  | String c s' => p c && string_forallb p s'
  end.

(** First letter and letters after a dash in upper case, the others in
    lower case. *)
Fixpoint canonicalize (upper : bool) (s : string) : string :=
  match s with
  | EmptyString => EmptyString
  | String c s' =>
      let c' :=
        if upper && is_lower c then ascii_of_nat (nat_of_ascii c - 32)
        else if negb upper && is_upper c then ascii_of_nat (nat_of_ascii c + 32)
        else c in
      String c' (canonicalize (Ascii.eqb c' "-") s')
  end.

(** [textproto.CanonicalMIMEHeaderKey]: a key with a byte that is not a
    token character is returned unchanged. *)
Definition CanonicalMIMEHeaderKey (s : string) : string :=
  if string_forallb validHeaderFieldByte s then canonicalize true s else s.

(** [h.Get(key)]: the first value stored under the canonical key. *)
Definition Header_Get (h : Header) (key : string) : string :=
  match h !! CanonicalMIMEHeaderKey key with
  | Some (v :: _) => v
  | _ => ""
  end.

(** [h.Set(key, value)]. *)
Definition Header_Set (h : Header) (key value : string) : Header :=
  <[CanonicalMIMEHeaderKey key := [value]]> h.

(** ** client.go: the header engine *)

Definition headerOrder : gmap string (list string) :=
  list_to_map
    [ ("Chrome",
       [ "Host"; "Connection"; "Cache-Control"; "Sec-Ch-Ua";
         "Sec-Ch-Ua-Mobile"; "Sec-Ch-Ua-Platform";
         "Upgrade-Insecure-Requests"; "User-Agent"; "Accept";
         "Sec-Fetch-Site"; "Sec-Fetch-Mode"; "Sec-Fetch-User";
         "Sec-Fetch-Dest"; "Accept-Encoding"; "Accept-Language"; "Cookie" ]);
      ("Firefox",
       [ "Host"; "User-Agent"; "Accept"; "Accept-Language";
         "Accept-Encoding"; "Connection"; "Upgrade-Insecure-Requests";
         "Sec-Fetch-Dest"; "Sec-Fetch-Mode"; "Sec-Fetch-Site";
         "Sec-Fetch-User"; "Cache-Control"; "Cookie" ]);
      ("Safari",
       [ "Host"; "Accept-Encoding"; "Accept"; "User-Agent";
         "Accept-Language"; "Connection"; "Cookie" ]) ].

Record HeaderBuilder := mkHeaderBuilder {
  hb_profile : BrowserProfile;
  isNavigate : bool;
  referrer : string;
  origin : string
}.

Definition NewHeaderBuilder (profile : BrowserProfile) : HeaderBuilder :=
  mkHeaderBuilder profile true "" "".

Definition SetContext (hb : HeaderBuilder) (isNavigate : bool)
    (referrer origin : string) : HeaderBuilder :=
  mkHeaderBuilder (hb_profile hb) isNavigate referrer origin.

Definition getNavigationAccept (browser : string) : string :=
  if String.eqb browser "Firefox" then
    "text/html,application/xhtml+xml,application/xml;q=0.9,image/avif,image/webp,*/*;q=0.8"
  else if String.eqb browser "Safari" then
    "text/html,application/xhtml+xml,application/xml;q=0.9,*/*;q=0.8"
  else
    "text/html,application/xhtml+xml,application/xml;q=0.9,image/avif,image/webp,image/apng,*/*;q=0.8,application/signed-exchange;v=b3;q=0.7".

Definition getResourceAccept `{GoLib} (path : string) : string :=
  let ext :=
    strings_ToLower
      (string_drop (Z.to_nat (strings_LastIndex path "." + 1)) path) in
  if String.eqb ext "js" then "*/*"
  else if String.eqb ext "css" then "text/css,*/*;q=0.1"
  else if bool_decide (ext ∈ ["jpg"; "jpeg"; "png"; "gif"; "webp"]) then
    "image/avif,image/webp,image/apng,image/svg+xml,image/*,*/*;q=0.8"
  else "*/*".

Definition getAcceptEncoding (browser : string) : string :=
  if String.eqb browser "Safari" then "gzip, deflate, br"
  else "gzip, deflate, br, zstd".

Definition getSecFetchSite (hb : HeaderBuilder) : string :=
  if String.eqb (referrer hb) "" then "none"
  else if negb (String.eqb (origin hb) "")
          && strings_HasPrefix (referrer hb) (origin hb) then "same-origin"
  else "cross-site".

Definition getSecFetchMode (hb : HeaderBuilder) : string :=
  if isNavigate hb then "navigate" else "no-cors".

Definition getSecFetchDest (hb : HeaderBuilder) : string :=
  if isNavigate hb then "document" else "empty".

(** The element [l[1]] guarded by [len(l) > 1]. *)
Definition second (l : list string) : option string := l !! 1%nat.

Definition addChromeHeaders (hb : HeaderBuilder) (headers : Header)
    (r : Rand) : Header * Rand :=
  let ua := UserAgent (hb_profile hb) in
  let version :=
    match second (strings_Split ua "Chrome/") with
    | Some m =>
        match strings_Split m "." with
        | p :: _ => p
        | [] => "126"
        end
    | None => "126"
    end in
  let headers :=
    <["Sec-Ch-Ua" :=
        [quoted "Not)A;Brand" +:+ ";v=" +:+ quoted "99" +:+ ", "
         +:+ quoted "Google Chrome" +:+ ";v=" +:+ quoted version +:+ ", "
         +:+ quoted "Chromium" +:+ ";v=" +:+ quoted version]]> headers in
  let headers := <["Sec-Ch-Ua-Mobile" := ["?0"]]> headers in
  let platform :=
    if strings_Contains ua "Macintosh" then "macOS"
    else if strings_Contains ua "X11" then "Linux"
    else "Windows" in
  let headers := <["Sec-Ch-Ua-Platform" := [quoted platform]]> headers in
  let headers := <["Sec-Fetch-Site" := [getSecFetchSite hb]]> headers in
  let headers := <["Sec-Fetch-Mode" := [getSecFetchMode hb]]> headers in
  let headers := <["Sec-Fetch-Dest" := [getSecFetchDest hb]]> headers in
  let headers :=
    if isNavigate hb then
      <["Upgrade-Insecure-Requests" := ["1"]]>
        (<["Sec-Fetch-User" := ["?1"]]> headers)
    else headers in
  let '(x, r) := Float32 r in
  let headers :=
    if Qltb x (3 # 10) then
      <["Sec-Ch-Ua-Platform-Version" := [quoted "10.0.0"]]> headers
    else headers in
  (headers, r).

Definition addFirefoxHeaders `{GoLib} (hb : HeaderBuilder) (headers : Header)
    (r : Rand) : Header * Rand :=
  let ua := UserAgent (hb_profile hb) in
  let headers := <["Upgrade-Insecure-Requests" := ["1"]]> headers in
  let version :=
    match second (strings_Split ua "Firefox/") with
    | Some m =>
        match strings_Split m "." with
        | p :: _ => default 126 (fmt_Sscanf_d p)
        | [] => 126
        end
    | None => 126
    end in
  let headers :=
    if 90 <=? version then
      let headers := <["Sec-Fetch-Dest" := [getSecFetchDest hb]]> headers in
      let headers := <["Sec-Fetch-Mode" := [getSecFetchMode hb]]> headers in
      let headers := <["Sec-Fetch-Site" := [getSecFetchSite hb]]> headers in
      if isNavigate hb then <["Sec-Fetch-User" := ["?1"]]> headers
      else headers
    else headers in
  let '(x, r) := Float32 r in
  let headers :=
    if Qltb x (7 # 10) then <["TE" := ["trailers"]]> headers else headers in
  (headers, r).

Definition addSafariHeaders (hb : HeaderBuilder) (headers : Header)
    (r : Rand) : Header * Rand :=
  let headers :=
    if isNavigate hb then <["Upgrade-Insecure-Requests" := ["1"]]> headers
    else headers in
  (<["Accept-Encoding" := ["gzip, deflate, br"]]> headers, r).

(** The headers [DNT] and [Cache-Control], drawn at the end of
    [generateHeaders]; the second comparison of [Cache-Control] draws
    again. *)
Definition addRandomHeaders (headers : Header) (r : Rand) : Header * Rand :=
  let '(x, r) := Float32 r in
  let headers := if Qltb x (3 # 10) then <["DNT" := ["1"]]> headers
                 else headers in
  let '(y, r) := Float32 r in
  if Qltb y (2 # 10) then (<["Cache-Control" := ["no-cache"]]> headers, r)
  else
    let '(z, r) := Float32 r in
    if Qltb z (4 # 10) then (<["Cache-Control" := ["max-age=0"]]> headers, r)
    else (headers, r).

(** [generateHeaders] with the generator [r] it creates passed in. *)
Definition generateHeadersWith `{GoLib} (hb : HeaderBuilder) (req : Request)
    (browser : string) (r : Rand) : Header :=
  let headers : Header := ∅ in
  let headers := <["User-Agent" := [UserAgent (hb_profile hb)]]> headers in
  let headers := <["Accept-Language" := [Language (hb_profile hb)]]> headers in
  let headers := <["Connection" := ["keep-alive"]]> headers in
  let headers :=
    if isNavigate hb then <["Accept" := [getNavigationAccept browser]]> headers
    else <["Accept" := [getResourceAccept (Path (req_URL req))]]> headers in
  let headers := <["Accept-Encoding" := [getAcceptEncoding browser]]> headers in
  let '(headers, r) :=
    if String.eqb browser "Chrome" then addChromeHeaders hb headers r
    else if String.eqb browser "Firefox" then addFirefoxHeaders hb headers r
    else if String.eqb browser "Safari" then addSafariHeaders hb headers r
    else (headers, r) in
  let headers :=
    if negb (String.eqb (referrer hb) "")
    then <["Referer" := [referrer hb]]> headers else headers in
  let headers :=
    if negb (String.eqb (origin hb) "") && negb (isNavigate hb)
    then <["Origin" := [origin hb]]> headers else headers in
  fst (addRandomHeaders headers r).

Definition generateHeaders `{GoLib} (hb : HeaderBuilder) (req : Request)
    (browser : string) (w : World) : Header * World :=
  let '(r, w) := newRand w in
  (generateHeadersWith hb req browser r, w).

(** The loop over the order table: [req.Header[key] = value] for the keys
    of the table that were generated. *)
Definition applyOrdered (headers : Header) (order : list string)
    (h : Header) : Header :=
  foldl (λ h key,
           match headers !! key with
           | Some value => <[key := value]> h
           | None => h
           end) h order.

(** The loop over the generated headers, in the order [entries]. *)
Definition applyRemaining (entries : list (string * list string))
    (h : Header) : Header :=
  foldl (λ h '(key, value),
           if String.eqb (Header_Get h key) "" then <[key := value]> h
           else h) h entries.

Definition BuildHeaders `{GoLib} (hb : HeaderBuilder) (req : Request)
    (w : World) : Request * World :=
  let browser := detectBrowser (UserAgent (hb_profile hb)) in
  let '(headers, w) := generateHeaders hb req browser w in
  let order :=
    match headerOrder !! browser with
    | Some order => order
    | None => default [] (headerOrder !! "Chrome")
    end in
  let h := applyOrdered headers order ∅ in
  let '(entries, w) := range (map_to_list headers) w in
  (mkRequest (Method req) (req_URL req) (applyRemaining entries h), w).

(** No key of [h] begins with "Sec-Fetch-". *)
Definition noSecFetch (h : Header) : Prop :=
  ∀ k, is_Some (h !! k) → strings_HasPrefix k "Sec-Fetch-" = false.

(** ** Package net/http: the client loop *)

(** A Go result pair [(value, err)] in which exactly one side is set. *)
Inductive Result (A : Type) : Type :=
  | Ok (a : A)
  | Err (e : error).
Arguments Ok {A} a.
Arguments Err {A} e.

(** [urlErrorOp]: the method with only its first letter in upper case. *)
Definition urlErrorOp `{GoLib} (method : string) : string :=
  match method with
  | EmptyString => "Get"
  | String c rest => String c (strings_ToLower rest)
  end.

(** [Client.do]: send the request; on a redirect response build the next
    request, ask [CheckRedirect] with the requests made so far (oldest
    first) and loop. [St] is the state the hook may change. The header
    collection of the next request is the one of the first request; the
    identity of [http.ErrUseLastResponse] makes the loop return the last
    response. [fuel] bounds the number of round trips; [None] means it ran
    out. *)
Fixpoint Client_do `{GoLib} {St : Type}
    (CheckRedirect : Request → list Request → St → World →
                     option error * Request * St * World)
    (fuel : nat) (reqs : list Request) (req : Request) (st : St) (w : World)
    : option (Result Response * St * World) :=
  match fuel with
  | O => None
  | S fuel' =>
      let first := default req (head reqs) in
      let '(rt, w) := roundTrip req w in
      match rt with
      | RoundTripError e =>
          Some (Err (urlError (urlErrorOp (Method first))
                              (URL_String (req_URL req)) e), st, w)
      | RoundTripResponse resp =>
          match redirect resp with
          | None => Some (Ok resp, st, w)
          | Some (method, loc) =>
              let reqs := reqs ++ [req] in
              let next := mkRequest method loc (req_Header first) in
              let '(err, next, st, w) := CheckRedirect next reqs st w in
              match err with
              | Some http_ErrUseLastResponse => Some (Ok resp, st, w)
              | Some e =>
                  Some (Err (urlError (urlErrorOp (Method first))
                                      (URL_String loc) e), st, w)
              | None => Client_do CheckRedirect fuel' reqs next st w
              end
          end
      end
  end.

(** ** client.go: the request orchestrator *)

Record RequestOptions := mkRequestOptions {
  Headers : option (gmap string string);
  IsNavigate : bool;
  Referrer : string;
  Origin : string;
  FollowRedirects : bool;
  MaxRedirects : Z
}.

(** The fields of [BrowserClient] the package's own code reads and writes.
    The cookie jar and the transport's connection pool belong to the
    network. *)
Record BrowserClient := mkBrowserClient {
  profile : BrowserProfile;
  config : ClientConfig;
  headerBuilder : HeaderBuilder;
  history : list string
}.

Definition set_headerBuilder (bc : BrowserClient) (hb : HeaderBuilder)
    : BrowserClient :=
  mkBrowserClient (profile bc) (config bc) hb (history bc).

Definition set_history (bc : BrowserClient) (h : list string)
    : BrowserClient :=
  mkBrowserClient (profile bc) (config bc) (headerBuilder bc) h.

Definition checkRedirect `{GoLib} (req : Request) (via : list Request)
    (bc : BrowserClient) (w : World)
    : option error * Request * BrowserClient * World :=
  if 10 <=? Z.of_nat (length via) then
    (Some (errorString "stopped after 10 redirects"), req, bc, w)
  else
    match last via with
    | Some prevReq =>
        let hb := SetContext (headerBuilder bc) true
                             (URL_String (req_URL prevReq)) "" in
        let bc := set_headerBuilder bc hb in
        let '(req, w) := BuildHeaders hb req w in
        let h :=
          foldl (λ h header,
                   let val := Header_Get (req_Header prevReq) header in
                   if negb (String.eqb val "") then Header_Set h header val
                   else h)
                (req_Header req) ["Authorization"; "X-Requested-With"] in
        (None, mkRequest (Method req) (req_URL req) h, bc, w)
    | None => (None, req, bc, w)
    end.

Definition mergeOptions (bc : BrowserClient) (options : list RequestOptions)
    : RequestOptions :=
  let opts := mkRequestOptions (Some ∅) true "" "" true 10 in
  let opts :=
    match options with
    | opt :: _ =>
        mkRequestOptions
          (match Headers opt with Some h => Some h | None => Headers opts end)
          (IsNavigate opt)
          (if negb (String.eqb (Referrer opt) "") then Referrer opt
           else Referrer opts)
          (if negb (String.eqb (Origin opt) "") then Origin opt
           else Origin opts)
          (FollowRedirects opt)
          (if 0 <? MaxRedirects opt then MaxRedirects opt
           else MaxRedirects opts)
    | [] => opts
    end in
  match last (history bc) with
  | Some url =>
      if String.eqb (Referrer opts) "" then
        mkRequestOptions (Headers opts) (IsNavigate opts) url (Origin opts)
                         (FollowRedirects opts) (MaxRedirects opts)
      else opts
  | None => opts
  end.

Definition updateHistory (bc : BrowserClient) (url : string) : BrowserClient :=
  let h := history bc ++ [url] in
  set_history bc (if 10 <? Z.of_nat (length h) then drop 1 h else h).

(** The loop [for k, v := range opts.Headers { req.Header.Set(k, v) }]. *)
Definition applyCustom (entries : list (string * string)) (h : Header)
    : Header :=
  foldl (λ h '(k, v), Header_Set h k v) h entries.

(** The number of round trips [Client.do] is given in [Do]; with
    [checkRedirect] as the hook it never needs more (see
    [Client_do_checkRedirect_total]). *)
Definition maxRoundTrips : nat := 10.

Definition Do `{GoLib} (bc : BrowserClient) (req : Request)
    (options : list RequestOptions) (w : World)
    : Result Response * BrowserClient * World :=
  let opts := mergeOptions bc options in
  let hb := SetContext (headerBuilder bc) (IsNavigate opts) (Referrer opts)
                       (Origin opts) in
  let bc := set_headerBuilder bc hb in
  let '(req, w) := BuildHeaders hb req w in
  let '(entries, w) := range (map_to_list (default ∅ (Headers opts))) w in
  let req := mkRequest (Method req) (req_URL req)
                       (applyCustom entries (req_Header req)) in
  match Client_do checkRedirect maxRoundTrips [] req bc w with
  | Some (Err err, bc, w) => (Err err, bc, w)
  | Some (Ok resp, bc, w) =>
      (Ok resp, updateHistory bc (URL_String (req_URL req)), w)
  | None => (Err (errorString "net/http: round trip budget exhausted"), bc, w)
  end.

Definition Get `{GoLib} (bc : BrowserClient) (url : string)
    (options : list RequestOptions) (w : World)
    : Result Response * BrowserClient * World :=
  match http_NewRequest "GET" url with
  | inr err => (Err err, bc, w)
  | inl u => Do bc (mkRequest "GET" u ∅) options w
  end.

Definition second_ns : Z := 1000000000.

(** The loop of [GetWithRetry], by recursion on the number [n] of
    iterations still to run ([maxRetries + 1 - i] of them). *)
Fixpoint retryLoop `{GoLib} (url : string) (maxRetries : Z)
    (options : list RequestOptions) (n : nat) (i : Z)
    (lastErr : option error) (backoff : Z) (bc : BrowserClient) (w : World)
    : Result Response * BrowserClient * World :=
  match n with
  | O =>
      (Err (Errorf_w ("failed after " +:+ itoa maxRetries +:+ " retries: ")
                     lastErr), bc, w)
  | S n' =>
      let '(res, bc, w) := Get bc url options w in
      let retry (err : option error) :=
        let '(backoff, w) :=
          if i <? maxRetries then
            let b := backoff * 2 in
            (if 30 * second_ns <? b then 30 * second_ns else b,
             time_Sleep backoff w)
          else (backoff, w) in
        retryLoop url maxRetries options n' (i + 1) err backoff bc w in
      match res with
      | Ok resp =>
          if StatusCode resp <? 500 then (Ok resp, bc, w) else retry None
      | Err err => retry (Some err)
      end
  end.

Definition GetWithRetry `{GoLib} (bc : BrowserClient) (url : string)
    (maxRetries : Z) (options : list RequestOptions) (w : World)
    : Result Response * BrowserClient * World :=
  retryLoop url maxRetries options (Z.to_nat (maxRetries + 1)) 0 None
            (1 * second_ns) bc w.

(** ** stream.go *)

Definition newline : ascii := ascii_of_nat 10.

(** The bytes of [s] through the first newline, and the rest. *)
Fixpoint cut_line (s : string) : option (string * string) :=
  match s with
  | EmptyString => None
  | String c s' =>
      if Ascii.eqb c newline then Some (String c EmptyString, s')
      else match cut_line s' with
           | Some (l, rest) => Some (String c l, rest)
           | None => None
           end
  end.

(** A [bufio.Reader] on top of a [byteCountingReader]: the reads still to
    come, the bytes buffered and not yet handed out, the error of the last
    read if the caller has not seen it yet, and the counter [BytesRead]. *)
Record bufReader := mkBufReader {
  b_rd : Reader;
  b_buf : string;
  b_err : option error;
  countingBytesRead : Z
}.

(** [bufReader.ReadString('\n')]: hand out the buffered bytes through the
    first newline; without a newline, report a pending error together with
    what is buffered; otherwise read more. The size of the buffer bounds the
    size of each read, not the length of the line returned. *)
Fixpoint readStringFrom (rd : Reader) (buf : string)
    (pendingErr : option error) (count : Z)
    : string * option error * bufReader :=
  match cut_line buf with
  | Some (line, rest) => (line, None, mkBufReader rd rest pendingErr count)
  | None =>
      match pendingErr with
      | Some e => (buf, Some e, mkBufReader rd EmptyString None count)
      | None =>
          match rd with
          | [] => (buf, Some io_EOF, mkBufReader [] EmptyString None count)
          | r :: rd' =>
              readStringFrom rd' (buf +:+ data r) (rerr r)
                             (count + Z.of_nat (String.length (data r)))
          end
      end
  end.

Definition ReadString (b : bufReader) : string * option error * bufReader :=
  readStringFrom (b_rd b) (b_buf b) (b_err b) (countingBytesRead b).

Definition getResponseReader `{GoLib} (resp : Response) : Reader + error :=
  let contentEncoding := Header_Get (resp_Header resp) "Content-Encoding" in
  if strings_Contains contentEncoding "gzip" then gzip_NewReader (Body resp)
  else if strings_Contains contentEncoding "deflate" then
    zlib_NewReader (Body resp)
  else inl (Body resp).

(** The [for] loop of [StreamResponse]; [None] when [fuel] iterations were
    not enough. *)
Fixpoint streamLoop (config : StreamConfig) (fuel : nat) (b : bufReader)
    (content : string) : option (Result StreamResult) :=
  match fuel with
  | O => None
  | S fuel' =>
      if (0 <? MaxBytes config)
         && (MaxBytes config <=? countingBytesRead b) then
        Some (Ok (mkStreamResult (countingBytesRead b) content false))
      else
        let '(line, err, b) := ReadString b in
        let content :=
          if String.eqb line "" then content else content +:+ line in
        if negb (String.eqb line "")
           && negb (String.eqb (StopOnContent config) "")
           && strings_Contains line (StopOnContent config) then
          Some (Ok (mkStreamResult (countingBytesRead b) content true))
        else
          match err with
          | Some e =>
              if is_EOF e then
                Some (Ok (mkStreamResult (countingBytesRead b) content false))
              else Some (Err e)
          | None => streamLoop config fuel' b content
          end
  end.

(** The number of bytes a reader delivers. *)
Definition readerSize (r : Reader) : nat :=
  foldr (λ x n, (String.length (data x) + n)%nat) O r.

(** [StreamResponse]. Every iteration that continues has handed out a
    line, so [readerSize reader + 1] iterations are enough
    (see [StreamResponse_total]). *)
Definition StreamResponse `{GoLib} (resp : Response) (config : StreamConfig)
    : option (Result StreamResult) :=
  let config :=
    if BufferSize config <=? 0
    then mkStreamConfig (StopOnContent config) 8192 (MaxBytes config)
    else config in
  match getResponseReader resp with
  | inr err => Some (Err err)
  | inl reader =>
      streamLoop config (S (readerSize reader))
                 (mkBufReader reader EmptyString None 0) EmptyString
  end.

(** *** What the stream reader is expected to return *)

(** The text a reader delivers before its first error, and that error
    ([io.EOF] when the reads are used up). *)
Fixpoint pending (r : Reader) : string * error :=
  match r with
  | [] => (EmptyString, io_EOF)
  | x :: r' =>
      match rerr x with
      | Some e => (data x, e)
      | None => let '(t, e) := pending r' in (data x +:+ t, e)
      end
  end.

(** The text and the error a [bufio.Reader] has still to hand out. *)
Definition remaining (rd : Reader) (buf : string) (pendingErr : option error)
    : string * error :=
  match pendingErr with
  | Some e => (buf, e)
  | None => let '(t, e) := pending rd in (buf +:+ t, e)
  end.

(** The lines of a text, each with its newline; the last one may lack it. *)
Fixpoint lines_from (s cur : string) : list string :=
  match s with
  | EmptyString => if String.eqb cur "" then [] else [cur]
  | String c s' =>
      if Ascii.eqb c newline then
        (cur +:+ String c EmptyString) :: lines_from s' EmptyString
      else lines_from s' (cur +:+ String c EmptyString)
  end.

Definition linesOf (s : string) : list string := lines_from s EmptyString.

(** The stop condition on one line. *)
Definition hit (stop line : string) : bool :=
  negb (String.eqb stop "") && strings_Contains line stop.

(** The lines through the first one that contains the stop-substring,
    inclusive; [None] when no line contains it. *)
Fixpoint throughFirstHit (stop : string) (ls : list string) : option string :=
  match ls with
  | [] => None
  | l :: ls' =>
      if hit stop l then Some l
      else match throughFirstHit stop ls' with
           | Some c => Some (l +:+ c)
           | None => None
           end
  end.

(** The content and the flag expected of a reader that is not stopped by
    the byte ceiling, on the text [text] that ends with the error [e]. *)
Definition expected (stop text : string) (e : error) : Result (string * bool) :=
  match throughFirstHit stop (linesOf text) with
  | Some c => Ok (c, true)
  | None => if is_EOF e then Ok (text, false) else Err e
  end.

(** The content and the flag of a result of [StreamResponse]. *)
Definition outcome (r : Result StreamResult) : Result (string * bool) :=
  match r with
  | Ok x => Ok (Content x, FoundContent x)
  | Err e => Err e
  end.

(** The concatenation of a list of lines, and of its first [k] lines. *)
Definition joined (ls : list string) : string :=
  foldr String.append EmptyString ls.

Definition joinedTake (k : nat) (ls : list string) : string :=
  joined (take k ls).

(** The outcome [r] with [c] in front of its content. *)
Definition prefixed (c : string) (r : Result (string * bool))
    : Result (string * bool) :=
  match r with
  | Ok (s, f) => Ok (c +:+ s, f)
  | Err e => Err e
  end.

(** The result [r] is a stop at the byte ceiling after [k] lines of
    [text], none of which contains the stop-substring, with [content]
    accumulated before them. *)
Definition ceilingStop (config : StreamConfig) (content text : string)
    (r : Result StreamResult) : Prop :=
  0 < MaxBytes config
  ∧ ∃ k x, r = Ok x ∧ FoundContent x = false
           ∧ Content x = content +:+ joinedTake k (linesOf text)
           ∧ throughFirstHit (StopOnContent config) (take k (linesOf text)) = None
           ∧ MaxBytes config ≤ BytesRead x.

(** The string [s] has no newline in it. *)
Definition noNewline (s : string) : bool :=
  string_forallb (λ c, negb (Ascii.eqb c newline)) s.

(** The text [s] followed by a newline. *)
Definition ln (s : string) : string := s +:+ String newline EmptyString.

(** A response with the body [body] given in one read, and no
    [Content-Encoding]. *)
Definition plainBody (body : string) : Response :=
  mkResponse 200 ∅ [mkReadResult body None] None.

(** ** profile.go *)

Definition viewportSizes : list (Z * Z) :=
  [ (1920, 1080); (1366, 768); (1536, 864); (1440, 900);
    (1280, 720); (1600, 900); (1680, 1050); (2560, 1440) ].
Definition colorDepths : list Z := [24; 32].
Definition pixelRatios : list Q := [1; 5 # 4; 3 # 2; 2]%Q.
Definition languages : list string :=
  [ "pt-BR,pt;q=0.9,en;q=0.8";
    "pt-BR,pt;q=0.9";
    "en-US,en;q=0.9,pt-BR;q=0.8";
    "pt-BR,pt;q=0.9,en-US;q=0.8,en;q=0.7" ].
Definition platforms : list string := ["Win32"; "Linux x86_64"; "MacIntel"].
Definition vendors : list string := ["Google Inc."; "Apple Computer, Inc."; ""].
Definition userAgents : list string :=
  [ "Mozilla/5.0 (Windows NT 10.0; Win64; x64) AppleWebKit/537.36 (KHTML, like Gecko) Chrome/125.0.0.0 Safari/537.36";
    "Mozilla/5.0 (Windows NT 10.0; Win64; x64) AppleWebKit/537.36 (KHTML, like Gecko) Chrome/124.0.0.0 Safari/537.36";
    "Mozilla/5.0 (Windows NT 10.0; Win64; x64) AppleWebKit/537.36 (KHTML, like Gecko) Chrome/123.0.0.0 Safari/537.36";
    "Mozilla/5.0 (Macintosh; Intel Mac OS X 10_15_7) AppleWebKit/537.36 (KHTML, like Gecko) Chrome/125.0.0.0 Safari/537.36";
    "Mozilla/5.0 (X11; Linux x86_64) AppleWebKit/537.36 (KHTML, like Gecko) Chrome/125.0.0.0 Safari/537.36";
    "Mozilla/5.0 (Windows NT 10.0; Win64; x64; rv:126.0) Gecko/20100101 Firefox/126.0";
    "Mozilla/5.0 (Macintosh; Intel Mac OS X 14.5; rv:126.0) Gecko/20100101 Firefox/126.0";
    "Mozilla/5.0 (Macintosh; Intel Mac OS X 14_5) AppleWebKit/605.1.15 (KHTML, like Gecko) Version/17.4.1 Safari/605.1.15" ].

(** [table[r.Intn(len(table))]]. *)
Definition pick {A} (table : list A) (d : A) (r : Rand) : A * Rand :=
  let '(i, r) := Intn r (length table) in (default d (table !! i), r).

Definition generateBrowserProfile (w : World) : BrowserProfile * World :=
  let '(r, w) := newRand w in
  let '(viewport, r) := pick viewportSizes (0, 0) r in
  let '(colorDepth, r) := pick colorDepths 0 r in
  let '(pixelRatio, r) := pick pixelRatios 0%Q r in
  let '(language, r) := pick languages "" r in
  let '(platform, r) := pick platforms "" r in
  let '(vendor, r) := pick vendors "" r in
  let '(timezoneOffset, r) := pick [-180; -120; -60; 0; 60; 120; 180] 0 r in
  let '(now, w) := time_Now w in
  let '(n, r) := Int63 r in
  let '(canvasNoise, r) := Float32 r in
  let '(userAgent, r) := pick userAgents "" r in
  (mkBrowserProfile viewport.1 viewport.2 colorDepth pixelRatio language
     platform vendor timezoneOffset
     (itoa (now / second_ns) +:+ "-" +:+ itoa n) canvasNoise userAgent, w).

(** The process-wide state of the profile cache: the profiles allocated so
    far (a [*BrowserProfile] is an index into [heap]) and the [sync.Map]
    [threadProfiles] from thread identifiers to pointers. *)
Record Cache := mkCache {
  heap : list BrowserProfile;
  threadProfiles : gmap Z nat
}.

(** The three operations [GetThreadProfile] performs on the shared state;
    [sync.Map] makes each [Load] and each [Store] atomic, nothing more. *)
Definition Load (threadID : Z) (c : Cache) : option nat :=
  threadProfiles c !! threadID.

Definition Store (threadID : Z) (p : nat) (c : Cache) : Cache :=
  mkCache (heap c) (<[threadID := p]> (threadProfiles c)).

(** [generateBrowserProfile] returning a pointer to the new profile. *)
Definition allocProfile (c : Cache) (w : World) : nat * Cache * World :=
  let '(prof, w) := generateBrowserProfile w in
  (length (heap c), mkCache (heap c ++ [prof]) (threadProfiles c), w).

(** [GetThreadProfile] run without interruption. *)
Definition GetThreadProfile (threadID : Z) (c : Cache) (w : World)
    : nat * Cache * World :=
  match Load threadID c with
  | Some p => (p, c, w)
  | None =>
      let '(newProfile, c, w) := allocProfile c w in
      (newProfile, Store threadID newProfile c, w)
  end.

(** A goroutine inside [GetThreadProfile(threadID)]: about to [Load], past a
    failed [Load] and about to generate, holding the new profile and about
    to [Store], or returned. *)
Inductive Goroutine :=
  | AtLoad (threadID : Z)
  | AtGenerate (threadID : Z)
  | AtStore (threadID : Z) (newProfile : nat)
  | Returned (p : nat).

(** One atomic step of a goroutine on the shared state. *)
Definition stepGoroutine (g : Goroutine) (c : Cache) (w : World)
    : Goroutine * Cache * World :=
  match g with
  | AtLoad threadID =>
      match Load threadID c with
      | Some p => (Returned p, c, w)
      | None => (AtGenerate threadID, c, w)
      end
  | AtGenerate threadID =>
      let '(newProfile, c, w) := allocProfile c w in
      (AtStore threadID newProfile, c, w)
  | AtStore threadID newProfile =>
      (Returned newProfile, Store threadID newProfile c, w)
  | Returned p => (Returned p, c, w)
  end.

(** The goroutines, the cache and the world after the scheduler has run the
    goroutines named in [schedule], one step each, in that order. *)
Fixpoint runSchedule (schedule : list nat) (gs : list Goroutine) (c : Cache)
    (w : World) : list Goroutine * Cache * World :=
  match schedule with
  | [] => (gs, c, w)
  | i :: schedule' =>
      match gs !! i with
      | Some g =>
          let '(g, c, w) := stepGoroutine g c w in
          runSchedule schedule' (<[i := g]> gs) c w
      | None => runSchedule schedule' gs c w
      end
  end.

(** ** Runs of a session and example inputs *)

(** The client [NewBrowserClient] returns for a profile and a
    configuration: a fresh header builder and an empty history. *)
Definition newClient (profile : BrowserProfile) (config : ClientConfig)
    : BrowserClient :=
  mkBrowserClient profile config (NewHeaderBuilder profile) [].

(** A session: the calls [bc.Do(req, options...)] made one after the other. *)
Fixpoint DoAll `{GoLib} (bc : BrowserClient)
    (calls : list (Request * list RequestOptions)) (w : World)
    : list (Request * Result Response) * BrowserClient * World :=
  match calls with
  | [] => ([], bc, w)
  | (req, options) :: calls' =>
      let '(res, bc, w) := Do bc req options w in
      let '(rest, bc, w) := DoAll bc calls' w in
      ((req, res) :: rest, bc, w)
  end.

(** The URLs of the calls of a session that returned a response. *)
Definition succeeded (log : list (Request * Result Response)) : list string :=
  omap (λ '(req, res),
          match res with
          | Ok _ => Some (URL_String (req_URL req))
          | Err _ => None
          end) log.

(** The last [n] elements of a list. *)
Definition lastN {A} (n : nat) (l : list A) : list A :=
  drop (length l - n) l.

(** Lower case for the ASCII letters. *)
Fixpoint asciiLower (s : string) : string :=
  match s with
  | EmptyString => EmptyString
  | String c s' =>
      String (if is_upper c then ascii_of_nat (nat_of_ascii c + 32) else c)
             (asciiLower s')
  end.

(** A stand-in for the standard library in the examples: decimal scanning
    is not attempted, [ToLower] handles ASCII, the decoders are the
    identity, every URL parses. *)
Definition exampleLib : GoLib := {|
  fmt_Sscanf_d := λ _, None;
  strings_ToLower := asciiLower;
  http_NewRequest := λ _ url, inl (mkURL url "/");
  gzip_NewReader := λ r, inl r;
  zlib_NewReader := λ r, inl r
|}.

Definition chromeUA : string :=
  "Mozilla/5.0 (Windows NT 10.0; Win64; x64) AppleWebKit/537.36 (KHTML, like Gecko) Chrome/125.0.0.0 Safari/537.36".

Definition safariUA : string :=
  "Mozilla/5.0 (Macintosh; Intel Mac OS X 14_5) AppleWebKit/605.1.15 (KHTML, like Gecko) Version/17.4.1 Safari/605.1.15".

Definition exampleProfile (userAgent : string) : BrowserProfile :=
  mkBrowserProfile 1920 1080 24 1 "pt-BR,pt;q=0.9" "Win32" "Google Inc."
                   (-180) "1700000000-1" 0 userAgent.

Definition exampleConfig : ClientConfig := mkClientConfig "" false false 1 0.

(** A world whose clock advances by one, whose generators repeat their
    seed, whose [range] statements follow [seed] and whose network follows
    [net]. *)
Definition worldWith (seed : nat → nat) (net : nat → Request → RoundTrip)
    : World :=
  mkWorld (λ k, Z.of_nat k) O (λ s _, s) (λ _, seed) O net O [].

Definition okResponse (status : Z) : Response := mkResponse status ∅ [] None.

(** A network that answers every request with status 200. *)
Definition quietNet : nat → Request → RoundTrip :=
  λ _ _, RoundTripResponse (okResponse 200).

(** A response that redirects to [loc] with the method GET. *)
Definition redirectTo (loc : string) : Response :=
  mkResponse 302 ∅ [] (Some ("GET", mkURL loc "/")).

(** A network that answers the first [n] round trips with a redirect and
    every later one with [final]. *)
Definition chainNet (n : nat) (final : Response) : nat → Request → RoundTrip :=
  λ k _, if (k <? n)%nat
         then RoundTripResponse
                (redirectTo ("http://example.com/hop" +:+ itoa (Z.of_nat k)))
         else RoundTripResponse final.

(** A network whose first round trip fails and whose later ones return the
    status 503. *)
Definition resetThen503 : nat → Request → RoundTrip :=
  λ k _, match k with
         | O => RoundTripError (errorString "connection reset by peer")
         | _ => RoundTripResponse (okResponse 503)
         end.

(** The network of [w] redirects the next [n] round trips, whatever the
    request sent. *)
Definition redirects (w : World) (n : nat) : Prop :=
  ∀ k req, (k < n)%nat →
    ∃ resp, network w (sent w + k)%nat req = RoundTripResponse resp
            ∧ is_Some (redirect resp).

(** After [n] more round trips the network of [w] answers [final],
    whatever the request sent. *)
Definition answers (w : World) (n : nat) (final : Response) : Prop :=
  ∀ req, network w (sent w + n)%nat req = RoundTripResponse final.

(** The options [o] with other values in the two redirect fields. *)
Definition withRedirects (o : RequestOptions) (followRedirects : bool)
    (maxRedirects : Z) : RequestOptions :=
  mkRequestOptions (Headers o) (IsNavigate o) (Referrer o) (Origin o)
                   followRedirects maxRedirects.

(** The empty profile cache of a new process. *)
Definition emptyCache : Cache := mkCache [] ∅.

(** Two goroutines that each take one step in turn. *)
Definition alternate : list nat := [0; 1; 0; 1; 0; 1]%nat.

(** A [range] order that visits the keys of [browserFingerprints] as
    Firefox, Safari, Edge, Chrome. *)
Definition safariFirst : nat → nat :=
  λ k, match k with 3 => 3 | 1 => 1 | _ => 0 end%nat.

(** ** Frequencies of the random headers *)

(** The values [x] for which a raw value gives the draw [x / 2^24]. *)
Definition float32Values : list Z := seqZ 0 (Z.pos float32Grid).

(** A source whose raw values at the positions [i], [i+1], ... are [ds] and
    those of [base] elsewhere. *)
Definition override (base : nat → Z) (i : nat) (ds : list Z) : nat → Z :=
  λ j, if decide (i ≤ j)%nat then default (base j) (ds !! (j - i)%nat)
       else base j.

(** The number of elements of [l] that satisfy [p], and the sum of [f] over
    [l]. *)
Fixpoint countb {A} (p : A → bool) (l : list A) : Z :=
  match l with
  | [] => 0
  | x :: l' => (if p x then 1 else 0) + countb p l'
  end.

Fixpoint sumOver {A} (f : A → Z) (l : list A) : Z :=
  match l with
  | [] => 0
  | x :: l' => f x + sumOver f l'
  end.

(** The number of triples of draws, among the [2^24 * 2^24 * 2^24] equally
    likely ones, for which [E] holds. *)
Definition count3 (E : Z → Z → Z → bool) : Z :=
  sumOver (λ x, sumOver (λ y, countb (E x y) float32Values) float32Values)
          float32Values.

(** The number of draws the family-specific headers take before the
    draws for [DNT] and [Cache-Control]. *)
Definition familyDraws (browser : string) : nat :=
  if String.eqb browser "Chrome" then 1
  else if String.eqb browser "Firefox" then 1 else 0.

(** The header set generated when the three draws for [DNT] and
    [Cache-Control] are [x], [y] and [z] and every other draw is that of
    [base]. *)
Definition generatedWith `{GoLib} (hb : HeaderBuilder) (req : Request)
    (browser : string) (base : nat → Z) (x y z : Z) : Header :=
  generateHeadersWith hb req browser
    (mkRand (override base (familyDraws browser) [x; y; z]) O).

(** The number of triples of draws for which the generated header [key] is
    [value] ([None]: the header is absent). *)
Definition frequency `{GoLib} (hb : HeaderBuilder) (req : Request)
    (browser : string) (base : nat → Z) (key : string)
    (value : option (list string)) : Z :=
  count3 (λ x y z,
            bool_decide (generatedWith hb req browser base x y z !! key = value)).

(** [f] of [total] equally likely cases is within [1/tol] of the
    probability [p/q]. *)
Definition within (tol p q f total : Z) : Prop :=
  Z.abs (q * f - p * total) * tol < q * total.

(** The number of triples of draws. *)
Definition triples : Z := Z.pos float32Grid ^ 3.

(** The comparison of the draw made from the raw value [x] with [a/10]. *)
Definition below (a x : Z) : bool :=
  Qltb ((x mod Z.pos float32Grid) # float32Grid) (a # 10).

(** The keys of the headers written at random. *)
Definition isRandomKey (k : string) : Prop := k = "DNT" ∨ k = "Cache-Control".

(** The numbers of draws below 0.2, 0.3 and 0.4 among the [2^24]. *)
Definition below_02 : Z := 3355444.
Definition below_03 : Z := 5033165.
Definition below_04 : Z := 6710887.

(** ** client.go: the other request methods *)

(** The first half of [Do], up to the call of [bc.Client.Do]: the request
    with its headers rebuilt and the caller's headers laid over them, the
    client with the context of the call, and the world at that point
    (see [Do_prepare]). *)
Definition prepareRequest `{GoLib} (bc : BrowserClient) (req : Request)
    (options : list RequestOptions) (w : World)
    : Request * BrowserClient * World :=
  let opts := mergeOptions bc options in
  let hb := SetContext (headerBuilder bc) (IsNavigate opts) (Referrer opts)
                       (Origin opts) in
  let bc := set_headerBuilder bc hb in
  let '(req, w) := BuildHeaders hb req w in
  let '(entries, w) := range (map_to_list (default ∅ (Headers opts))) w in
  (mkRequest (Method req) (req_URL req)
             (applyCustom entries (req_Header req)), bc, w).

(** [Post]. The body of a request is not part of [Request]; its length is
    what [Post] writes into [Content-Length]. *)
Definition Post `{GoLib} (bc : BrowserClient) (url contentType body : string)
    (options : list RequestOptions) (w : World)
    : Result Response * BrowserClient * World :=
  match http_NewRequest "POST" url with
  | inr err => (Err err, bc, w)
  | inl u =>
      let h := Header_Set ∅ "Content-Type" contentType in
      let h := Header_Set h "Content-Length"
                          (itoa (Z.of_nat (String.length body))) in
      Do bc (mkRequest "POST" u h) options w
  end.

(** The redirect hook of [StreamGet]. *)
Definition useLastResponse {St : Type} (req : Request) (via : list Request)
    (st : St) (w : World) : option error * Request * St * World :=
  (Some http_ErrUseLastResponse, req, st, w).

(** [StreamGet]. With its hook the client loop makes one round trip
    (see [StreamGet_eq]); [None] stands for a loop out of fuel. *)
Definition StreamGet `{GoLib} (bc : BrowserClient) (url : string)
    (config : StreamConfig) (options : list RequestOptions) (w : World)
    : option (Result StreamResult) * BrowserClient * World :=
  match http_NewRequest "GET" url with
  | inr err => (Some (Err err), bc, w)
  | inl u =>
      let opts := mergeOptions bc options in
      let hb := SetContext (headerBuilder bc) (IsNavigate opts)
                           (Referrer opts) (Origin opts) in
      let bc := set_headerBuilder bc hb in
      let '(req, w) := BuildHeaders hb (mkRequest "GET" u ∅) w in
      match Client_do useLastResponse 1 [] req bc w with
      | Some (Err err, bc, w) => (Some (Err err), bc, w)
      | Some (Ok resp, bc, w) => (StreamResponse resp config, bc, w)
      | None => (None, bc, w)
      end
  end.

(** A run of [h.Set(k, v)] calls. *)
Definition setAll (h : Header) (kvs : list (string * string)) : Header :=
  foldl (λ h '(k, v), Header_Set h k v) h kvs.

(** [SetRequestHeaders]. *)
Definition SetRequestHeaders (req : Request) (profile : BrowserProfile)
    (w : World) : Request * World :=
  let '(r, w) := newRand w in
  let ua := UserAgent profile in
  let h :=
    setAll (req_Header req)
      [ ("User-Agent", ua);
        ("Accept-Language", Language profile);
        ("Accept",
         "text/html,application/xhtml+xml,application/xml;q=0.9,image/webp,*/*;q=0.8");
        ("Connection", "keep-alive") ] in
  let h :=
    if strings_Contains ua "Chrome" then
      setAll h
        [ ("Sec-Ch-Ua",
           quoted "Not.A/Brand" +:+ ";v=" +:+ quoted "8" +:+ ", "
           +:+ quoted "Chromium" +:+ ";v=" +:+ quoted "126" +:+ ", "
           +:+ quoted "Google Chrome" +:+ ";v=" +:+ quoted "126");
          ("Sec-Ch-Ua-Mobile", "?0");
          ("Sec-Ch-Ua-Platform", quoted "Windows");
          ("Sec-Fetch-Dest", "document");
          ("Sec-Fetch-Mode", "navigate");
          ("Sec-Fetch-Site", "same-origin");
          ("Sec-Fetch-User", "?1") ]
    else if strings_Contains ua "Firefox" then
      setAll h [("Upgrade-Insecure-Requests", "1"); ("TE", "trailers")]
    else if strings_Contains ua "Safari" then
      setAll h [("Accept-Encoding", "gzip, deflate, br")]
    else h in
  let '(d, r) := Intn r 2 in
  let h := if (d =? 0)%nat then Header_Set h "DNT" "1" else h in
  let '(c, r) := Intn r 3 in
  let h := if (c =? 0)%nat then Header_Set h "Cache-Control" "no-cache"
           else h in
  let h := setAll h [("Pragma", "no-cache");
                     ("Upgrade-Insecure-Requests", "1")] in
  (mkRequest (Method req) (req_URL req) h, w).

(** The keys [generateHeaders] can write: those of every family, and
    those written whatever the family. *)
Definition commonKeys : list string :=
  [ "User-Agent"; "Accept-Language"; "Connection"; "Accept";
    "Accept-Encoding"; "Referer"; "Origin"; "DNT"; "Cache-Control" ].

Definition familyKeys : list string :=
  [ "Sec-Ch-Ua"; "Sec-Ch-Ua-Mobile"; "Sec-Ch-Ua-Platform";
    "Sec-Fetch-Site"; "Sec-Fetch-Mode"; "Sec-Fetch-Dest"; "Sec-Fetch-User";
    "Upgrade-Insecure-Requests"; "Sec-Ch-Ua-Platform-Version"; "TE";
    "Accept-Encoding" ].

Definition allKeys : list string := commonKeys ++ familyKeys.

(** The keys of [h] are among [keys]. *)
Definition keysIn (keys : list string) (h : Header) : Prop :=
  ∀ k, is_Some (h !! k) → k ∈ keys.

(** The [i]-th sleep of [GetWithRetry]: one second doubled [i] times, at
    most 30 seconds. *)
Definition backoffAt (i : nat) : Z :=
  Z.min (2 ^ Z.of_nat i * second_ns) (30 * second_ns).

(** Lookups of the profile cache made one after the other. *)
Fixpoint lookupAll (ids : list Z) (c : Cache) (w : World)
    : list nat * Cache * World :=
  match ids with
  | [] => ([], c, w)
  | threadID :: ids' =>
      let '(p, c, w) := GetThreadProfile threadID c w in
      let '(ps, c, w) := lookupAll ids' c w in
      (p :: ps, c, w)
  end.

(** The version [addFirefoxHeaders] reads from the user agent: 126 unless
    the text between "Firefox/" and the next dot scans as an integer. *)
Definition firefoxVersion `{GoLib} (userAgent : string) : Z :=
  match second (strings_Split userAgent "Firefox/") with
  | Some m =>
      match strings_Split m "." with
      | p :: _ => default 126 (fmt_Sscanf_d p)
      | [] => 126
      end
  | None => 126
  end.

(** A profile cache as lookups made one after the other leave it: every
    pointer stored is a profile of the heap, and no two thread identifiers
    share a pointer. *)
Definition cacheOk (c : Cache) : Prop :=
  (∀ threadID p, threadProfiles c !! threadID = Some p →
                 (p < length (heap c))%nat)
  ∧ (∀ id1 id2 p, threadProfiles c !! id1 = Some p →
                  threadProfiles c !! id2 = Some p → id1 = id2).

(** The keys [SetRequestHeaders] can write, as [Header.Set] stores them:
    [DNT] and [TE] are stored under their canonical forms [Dnt] and [Te]. *)
Definition legacyKeys : list string :=
  [ "User-Agent"; "Accept-Language"; "Accept"; "Connection";
    "Sec-Ch-Ua"; "Sec-Ch-Ua-Mobile"; "Sec-Ch-Ua-Platform";
    "Sec-Fetch-Dest"; "Sec-Fetch-Mode"; "Sec-Fetch-Site"; "Sec-Fetch-User";
    "Upgrade-Insecure-Requests"; "Te"; "Accept-Encoding"; "Dnt";
    "Cache-Control"; "Pragma" ].

(** The platform [addChromeHeaders] reads from the user agent. *)
Definition chromePlatform (userAgent : string) : string :=
  if strings_Contains userAgent "Macintosh" then "macOS"
  else if strings_Contains userAgent "X11" then "Linux"
  else "Windows".

(** A user agent of the Edge family. *)
Definition edgeUA : string :=
  "Mozilla/5.0 (Windows NT 10.0; Win64; x64) AppleWebKit/537.36 (KHTML, like Gecko) Chrome/125.0.0.0 Safari/537.36 Edg/125.0.0.0".

Definition firefoxUA : string :=
  "Mozilla/5.0 (Windows NT 10.0; Win64; x64; rv:126.0) Gecko/20100101 Firefox/126.0".

(** A stand-in for the standard library in which an address with a space
    does not parse. *)
Definition strictLib : GoLib := {|
  fmt_Sscanf_d := λ _, None;
  strings_ToLower := asciiLower;
  http_NewRequest := λ _ url,
    if strings_Contains url " "
    then inr (errorString "parse: invalid character in host name")
    else inl (mkURL url "/");
  gzip_NewReader := λ r, inl r;
  zlib_NewReader := λ r, inl r
|}.

(** ** Sessions that mix [Do] and [StreamGet] *)

(** A call of a session: [bc.Do(req, options...)] or
    [bc.StreamGet(url, config, options...)]. *)
Inductive Call :=
  | CallDo (req : Request) (options : list RequestOptions)
  | CallStreamGet (url : string) (config : StreamConfig)
                  (options : list RequestOptions).

(** One line of the log of a session: whether the call went through [Do],
    the address requested, and whether the call returned a result (a
    response, a stream result) rather than an error. *)
Record LogEntry := mkLogEntry {
  throughDo : bool;
  address : string;
  returned : bool
}.

Fixpoint runSession `{GoLib} (bc : BrowserClient) (calls : list Call)
    (w : World) : list LogEntry * BrowserClient * World :=
  match calls with
  | [] => ([], bc, w)
  | CallDo req options :: calls' =>
      let '(res, bc, w) := Do bc req options w in
      let '(rest, bc, w) := runSession bc calls' w in
      (mkLogEntry true (URL_String (req_URL req))
                  (match res with Ok _ => true | Err _ => false end) :: rest,
       bc, w)
  | CallStreamGet url config options :: calls' =>
      let '(res, bc, w) := StreamGet bc url config options w in
      let '(rest, bc, w) := runSession bc calls' w in
      (mkLogEntry false url
                  (match res with Some (Ok _) => true | _ => false end) :: rest,
       bc, w)
  end.

(** The addresses of the calls that returned a result, and of those among
    them that went through [Do]. *)
Definition successful (log : list LogEntry) : list string :=
  omap (λ entry, if returned entry then Some (address entry) else None) log.

Definition recorded (log : list LogEntry) : list string :=
  omap (λ entry, if throughDo entry && returned entry
                 then Some (address entry) else None) log.

(** The addresses of the calls of [Do] of a session. *)
Definition requestedThroughDo (calls : list Call) : list string :=
  omap (λ call, match call with
                | CallDo req _ => Some (URL_String (req_URL req))
                | CallStreamGet _ _ _ => None
                end) calls.

(** A network that answers every request with a response that is not a
    redirect. *)
Definition alwaysAnswers (w : World) : Prop :=
  ∀ i req, ∃ resp, network w i req = RoundTripResponse resp
                   ∧ redirect resp = None.

(** ** The stream reader, line by line *)

Fixpoint countNewlines (s : string) : nat :=
  match s with
  | EmptyString => O
  | String c s' =>
      ((if Ascii.eqb c newline then 1 else 0) + countNewlines s')%nat
  end.

(** The value of the byte counter once [j] more lines have been handed
    out, for a [bufio.Reader] with [have] newlines in its buffer, the reads
    [rd] to come, the pending error [perr] and the counter at [count]: the
    reader reads on only while its buffer holds no complete line, and not
    past an error. *)
Fixpoint counterAfter (rd : Reader) (have : nat) (perr : option error)
    (count : Z) (j : nat) : Z :=
  if (j <=? have)%nat then count
  else match perr with
       | Some _ => count
       | None =>
           match rd with
           | [] => count
           | r :: rd' =>
               counterAfter rd' (have + countNewlines (data r))%nat (rerr r)
                            (count + Z.of_nat (String.length (data r))) j
           end
       end.

(** The byte counter of [StreamResponse] when [j] lines of the body have
    been handed out: the size of the shortest run of reads that holds [j]
    complete lines (of all the reads through the first error when there are
    fewer lines). *)
Definition bytesAfter (reader : Reader) (j : nat) : Z :=
  counterAfter reader O None 0 j.

(** What the successive calls of [ReadString] return on a text that ends
    with the error [e]: its lines, the last one together with [e] (an empty
    last line when the text ends with a newline). *)
Fixpoint deliveries_from (s cur : string) (e : error)
    : list (string * option error) :=
  match s with
  | EmptyString => [(cur, Some e)]
  | String c s' =>
      if Ascii.eqb c newline then
        (cur +:+ String c EmptyString, None) :: deliveries_from s' EmptyString e
      else deliveries_from s' (cur +:+ String c EmptyString) e
  end.

Definition deliveries (text : string) (e : error)
    : list (string * option error) :=
  deliveries_from text EmptyString e.

(** The byte ceiling [maxBytes] is configured and the counter [count] has
    reached it. *)
Definition ceilingReached (maxBytes count : Z) : bool :=
  (0 <? maxBytes) && (maxBytes <=? count).

(** The result [res] is the one of a reader that stops at the first of its
    three triggers. The reader tests the ceiling before each line and the
    stop-substring on each line; [i] is the number of lines it has taken
    when it stops. Before line [i] neither trigger held and the stream had
    not ended. Then either the counter has reached the ceiling after [i]
    lines: the result is these lines, not found; or line [i] is read and
    contains the stop-substring: the result is the lines through it, found;
    or line [i] is read and comes with the error that ends the stream: the
    result is the whole text at end-of-stream, and the error otherwise.
    [counter j] is the byte counter after [j] lines and [content] what was
    accumulated before. *)
Definition firstTrigger (maxBytes : Z) (stop : string) (counter : nat → Z)
    (ds : list (string * option error)) (e : error) (content : string)
    (res : Result StreamResult) : Prop :=
  ∃ i : nat,
    (i < length ds)%nat
    ∧ (∀ j line err, (j < i)%nat → ds !! j = Some (line, err) →
         ceilingReached maxBytes (counter j) = false
         ∧ hit stop line = false ∧ err = None)
    ∧ ((ceilingReached maxBytes (counter i) = true
        ∧ res = Ok (mkStreamResult (counter i)
                      (content +:+ joined (take i ds.*1)) false))
       ∨ (ceilingReached maxBytes (counter i) = false
          ∧ ∃ line err,
              ds !! i = Some (line, err)
              ∧ ((hit stop line = true
                  ∧ res = Ok (mkStreamResult (counter (S i))
                                (content +:+ joined (take (S i) ds.*1)) true))
                 ∨ (hit stop line = false ∧ err = Some e
                    ∧ res = if is_EOF e
                            then Ok (mkStreamResult (counter (S i))
                                       (content +:+ joined ds.*1) false)
                            else Err e)))).

Definition stopsAtFirstTrigger (config : StreamConfig) (reader : Reader)
    (res : Result StreamResult) : Prop :=
  firstTrigger (MaxBytes config) (StopOnContent config) (bytesAfter reader)
               (deliveries (pending reader).1 (pending reader).2)
               (pending reader).2 EmptyString res.

(* ===================================================================== *)
(** * Part II: properties                                                 *)
(* ===================================================================== *)

(** The operations on the world and the methods are unfolded by name only. *)
Arguments time_Now : simpl never.
Arguments newRand : simpl never.
Arguments range : simpl never.
Arguments roundTrip : simpl never.
Arguments time_Sleep : simpl never.
Arguments BuildHeaders : simpl never.
Arguments checkRedirect : simpl never.
Arguments mergeOptions : simpl never.
Arguments Do : simpl never.
Arguments Get : simpl never.

(** ** The order of a [range] *)

Lemma shuffle_Permutation {A} (seed : nat → nat) (n : nat) (l : list A) :
  length l = n → shuffle seed n l ≡ₚ l.
Proof.
  revert l. induction n as [|n IH]; intros l Hlen.
  - destruct l; [reflexivity | discriminate].
  - simpl.
    assert (Hi : (seed n mod length l < length l)%nat)
      by (apply Nat.mod_upper_bound; lia).
    destruct (lookup_lt_is_Some_2 l _ Hi) as [x Hx]. rewrite Hx.
    etransitivity; [| symmetry; apply (delete_Permutation l _ x Hx)].
    constructor. apply IH. rewrite length_delete by eauto. lia.
Qed.

Lemma rangeOrder_Permutation {A} (seed : nat → nat) (l : list A) :
  rangeOrder seed l ≡ₚ l.
Proof. apply shuffle_Permutation. reflexivity. Qed.

Lemma range_Permutation {A} (l : list A) (w : World) :
  (range l w).1 ≡ₚ l.
Proof. apply rangeOrder_Permutation. Qed.

(** ** Family resolution *)

Lemma detectBrowser_cases (ua : string) :
  detectBrowser ua =
    if strings_Contains ua "Firefox" then "Firefox"
    else if strings_Contains ua "Safari" && negb (strings_Contains ua "Chrome")
    then "Safari"
    else if strings_Contains ua "Edg/" then "Edge" else "Chrome".
Proof. reflexivity. Qed.

(** C2, as the code has it. Family resolution is a total function of the
    user-agent string with values in Chrome, Firefox, Safari and Edge, and
    its checks are tried in a fixed order: Firefox when the string contains
    "Firefox"; otherwise Safari exactly when it contains "Safari" and not
    "Chrome"; otherwise Edge exactly when it contains "Edg/"; otherwise
    Chrome. So "Edg/" gives Edge only for strings that the two earlier checks
    let through, and a string that matches no check resolves to Chrome. *)
Theorem detectBrowser_resolution (ua : string) :
  detectBrowser ua ∈ ["Chrome"; "Firefox"; "Safari"; "Edge"]
  ∧ (detectBrowser ua = "Firefox" ↔ strings_Contains ua "Firefox" = true)
  ∧ (detectBrowser ua = "Safari" ↔
       strings_Contains ua "Firefox" = false
       ∧ strings_Contains ua "Safari" = true
       ∧ strings_Contains ua "Chrome" = false)
  ∧ (detectBrowser ua = "Edge" ↔
       strings_Contains ua "Firefox" = false
       ∧ (strings_Contains ua "Safari" = false
          ∨ strings_Contains ua "Chrome" = true)
       ∧ strings_Contains ua "Edg/" = true)
  ∧ (detectBrowser ua = "Chrome" ↔
       strings_Contains ua "Firefox" = false
       ∧ (strings_Contains ua "Safari" = false
          ∨ strings_Contains ua "Chrome" = true)
       ∧ strings_Contains ua "Edg/" = false).
Proof.
  rewrite detectBrowser_cases.
  destruct (strings_Contains ua "Firefox"), (strings_Contains ua "Safari"),
    (strings_Contains ua "Chrome"), (strings_Contains ua "Edg/"); simpl;
    (split; [set_solver |]); repeat split; intros; try discriminate;
    try tauto; intuition discriminate.
Qed.

(** C2, as stated, fails: a string can contain "Edg/" and resolve to
    Firefox. *)
Lemma detectBrowser_Edg_not_Edge :
  let ua := "Mozilla/5.0 (Windows NT 10.0; rv:126.0) Gecko/20100101 Firefox/126.0 Edg/126.0" in
  strings_Contains ua "Edg/" = true ∧ detectBrowser ua = "Firefox"
  ∧ detectBrowser ua ≠ "Edge".
Proof. vm_compute. repeat split; discriminate. Qed.

(** ** TLS template selection *)

Lemma selectFingerprint_randomize (ua : string) (w : World) :
  selectFingerprint ua true w = (HelloRandomized, w).
Proof. reflexivity. Qed.

(** On the same Chrome user agent another iteration order of the map gives
    a Chrome template. *)
Lemma selectFingerprint_chrome_other_order :
  (selectFingerprint chromeUA false (worldWith (λ _, 1%nat) quietNet)).1
  = HelloChrome_Auto.
Proof. vm_compute. reflexivity. Qed.

(** When the user agent contains one key of the table only, the template
    belongs to that family, whatever the iteration order and the draw. *)
Lemma firstContained_only ua keys fam d :
  (∀ b, b ∈ keys → strings_Contains ua b = true → b = fam) →
  fam ∈ keys → strings_Contains ua fam = true →
  firstContained ua keys d = fam.
Proof.
  induction keys as [|b keys IH]; intros Honly Hin Hfam.
  - by apply elem_of_nil in Hin.
  - simpl. destruct (strings_Contains ua b) eqn:Hb.
    + apply Honly; [by left|exact Hb].
    + apply IH; [intros b' Hb'; apply Honly; by right| |exact Hfam].
      apply elem_of_cons in Hin as [->|Hin]; [congruence|exact Hin].
Qed.

Lemma Intn_bound (r : Rand) (n : nat) : (0 < n)%nat → ((Intn r n).1 < n)%nat.
Proof.
  intros Hn. unfold Intn, raw. simpl.
  pose proof (Z.mod_pos_bound (src r (drawn r)) (Z.of_nat n)). lia.
Qed.

Lemma browserFingerprints_entries :
  map_to_list browserFingerprints =
    [ ("Safari", [HelloSafari_Auto; HelloSafari_16_0; HelloIOS_Auto]);
      ("Chrome", [HelloChrome_Auto; HelloChrome_120]);
      ("Edge", [HelloEdge_Auto; HelloChrome_120]);
      ("Firefox", [HelloFirefox_Auto; HelloFirefox_120]) ].
Proof. vm_compute. reflexivity. Qed.

Lemma selectFingerprint_single_key (ua fam : string) (w : World) :
  is_Some (browserFingerprints !! fam) →
  strings_Contains ua fam = true →
  (∀ b, is_Some (browserFingerprints !! b) →
        strings_Contains ua b = true → b = fam) →
  (selectFingerprint ua false w).1 ∈ templatesOf fam.
Proof.
  intros [ts Hts] Hfam Honly. unfold selectFingerprint.
  destruct (newRand w) as [r w1].
  pose proof (range_Permutation (map_to_list browserFingerprints) w1) as Hperm.
  destruct (range _ w1) as [entries w2]. simpl in Hperm.
  rewrite (firstContained_only ua _ fam).
  - pose proof (Intn_bound r (length (templatesOf fam))) as Hb.
    destruct (Intn r _) as [i r']. simpl in *.
    assert (Hlen : (0 < length (templatesOf fam))%nat).
    { unfold templatesOf. rewrite Hts. simpl.
      apply elem_of_map_to_list in Hts.
      rewrite browserFingerprints_entries in Hts.
      repeat (apply elem_of_cons in Hts as [[= -> ->]|Hts]; [simpl; lia|]).
      by apply elem_of_nil in Hts. }
    destruct (lookup_lt_is_Some_2 _ _ (Hb Hlen)) as [t Ht]. rewrite Ht.
    simpl. by eapply list_elem_of_lookup_2.
  - intros b Hb. apply Honly.
    apply list_elem_of_fmap in Hb as ([b' ts'] & -> & Hb).
    rewrite Hperm in Hb. apply elem_of_map_to_list in Hb. by eexists.
  - apply list_elem_of_fmap. exists (fam, ts). split; [reflexivity|].
    rewrite Hperm. by apply elem_of_map_to_list.
  - exact Hfam.
Qed.

(** So the Safari profile of [userAgents] always gets a Safari template. *)
Lemma selectFingerprint_safari_profile (w : World) :
  (selectFingerprint safariUA false w).1 ∈ templatesOf (detectBrowser safariUA).
Proof.
  apply selectFingerprint_single_key.
  - by eexists.
  - reflexivity.
  - intros b [ts Hts] Hb. apply elem_of_map_to_list in Hts.
    rewrite browserFingerprints_entries in Hts.
    repeat (apply elem_of_cons in Hts as [[= -> ->]|Hts];
            [first [reflexivity | discriminate Hb]|]).
    by apply elem_of_nil in Hts.
Qed.

(** C1 on the code. For the first user agent of [userAgents] (Chrome on
    Windows, which also contains "Safari") and randomize = false, when the
    [range] over [browserFingerprints] visits "Safari" before "Chrome", the
    template chosen is a Safari one and belongs to no template list of the
    family Chrome that [detectBrowser] resolves for the headers. *)
Theorem selectFingerprint_family_mismatch :
  let w := worldWith safariFirst quietNet in
  userAgents !! 0%nat = Some chromeUA
  ∧ detectBrowser chromeUA = "Chrome"
  ∧ (range (map_to_list browserFingerprints) (newRand w).2).1.*1
    = ["Firefox"; "Safari"; "Edge"; "Chrome"]
  ∧ (selectFingerprint chromeUA false w).1 = HelloSafari_Auto
  ∧ HelloSafari_Auto ∈ templatesOf "Safari"
  ∧ HelloSafari_Auto ∉ templatesOf (detectBrowser chromeUA).
Proof.
  vm_compute. repeat split; try reflexivity.
  - set_solver.
  - intros H. repeat (apply elem_of_cons in H as [H|H]; [discriminate|]).
    by apply elem_of_nil in H.
Qed.

(** ** What a request leaves in the client *)

Lemma BuildHeaders_URL `{GoLib} hb req w :
  req_URL (BuildHeaders hb req w).1 = req_URL req.
Proof.
  unfold BuildHeaders. destruct (generateHeaders _ _ _ _) as [headers w1].
  destruct (range _ _) as [entries w2]. reflexivity.
Qed.

Lemma checkRedirect_history `{GoLib} req via bc w :
  history (checkRedirect req via bc w).1.2 = history bc.
Proof.
  unfold checkRedirect. destruct (10 <=? _); [reflexivity|].
  destruct (last via); [|reflexivity].
  destruct (BuildHeaders _ _ _). reflexivity.
Qed.

Lemma Client_do_S `{GoLib} {St} (C : Request → list Request → St → World →
    option error * Request * St * World) fuel reqs req st w :
  Client_do C (S fuel) reqs req st w =
    let first := default req (head reqs) in
    let '(rt, w) := roundTrip req w in
    match rt with
    | RoundTripError e =>
        Some (Err (urlError (urlErrorOp (Method first))
                            (URL_String (req_URL req)) e), st, w)
    | RoundTripResponse resp =>
        match redirect resp with
        | None => Some (Ok resp, st, w)
        | Some (method, loc) =>
            let '(err, next, st, w) :=
              C (mkRequest method loc (req_Header first)) (reqs ++ [req]) st w in
            match err with
            | Some http_ErrUseLastResponse => Some (Ok resp, st, w)
            | Some e =>
                Some (Err (urlError (urlErrorOp (Method first))
                                    (URL_String loc) e), st, w)
            | None => Client_do C fuel (reqs ++ [req]) next st w
            end
        end
    end.
Proof. reflexivity. Qed.

Lemma Client_do_history `{GoLib} fuel reqs req bc w res bc' w' :
  Client_do checkRedirect fuel reqs req bc w = Some (res, bc', w') →
  history bc' = history bc.
Proof.
  revert reqs req bc w. induction fuel as [|fuel IH]; intros reqs req bc w;
    [discriminate|].
  rewrite Client_do_S. cbv zeta.
  destruct (roundTrip req w) as [rt w1]. destruct rt as [e|resp].
  { intros [= <- <- <-]. reflexivity. }
  destruct (redirect resp) as [[method loc]|]; [|by intros [= <- <- <-]].
  pose proof (checkRedirect_history
                (mkRequest method loc (req_Header (default req (head reqs))))
                (reqs ++ [req]) bc w1) as Hh.
  destruct (checkRedirect _ _ bc w1) as [[[err next] bc1] w2]. simpl in Hh.
  destruct err as [e|].
  - destruct e; intros [= <- <- <-]; exact Hh.
  - intros Hdo. rewrite (IH _ _ _ _ Hdo). exact Hh.
Qed.

(** [Do] appends the URL of the request to the history when it returns a
    response, and leaves the history alone when it returns an error. *)
Lemma Do_history `{GoLib} bc req options w :
  history (Do bc req options w).1.2 =
    match (Do bc req options w).1.1 with
    | Ok _ => history (updateHistory bc (URL_String (req_URL req)))
    | Err _ => history bc
    end.
Proof.
  unfold Do.
  pose proof (BuildHeaders_URL
    (SetContext (headerBuilder bc) (IsNavigate (mergeOptions bc options))
       (Referrer (mergeOptions bc options)) (Origin (mergeOptions bc options)))
    req w) as Hurl.
  destruct (BuildHeaders _ req w) as [req1 w1]. simpl in Hurl.
  destruct (range _ w1) as [entries w2].
  destruct (Client_do _ _ _ _ _ _) as [[[res bc'] w']|] eqn:Hdo; [|reflexivity].
  apply Client_do_history in Hdo. destruct res; simpl.
  - rewrite Hdo, Hurl. reflexivity.
  - exact Hdo.
Qed.

(** ** The navigation history *)

Lemma updateHistory_lastN (bc : BrowserClient) (url : string) (l : list string) :
  history bc = lastN 10 l →
  history (updateHistory bc url) = lastN 10 (l ++ [url]).
Proof.
  unfold updateHistory, lastN. simpl. intros ->.
  rewrite !length_app, length_drop. simpl.
  destruct (Z.ltb_spec 10 (Z.of_nat (length l - (length l - 10) + 1))).
  - rewrite drop_app_le by (rewrite length_drop; lia).
    rewrite drop_drop, drop_app_le by lia. do 2 f_equal. lia.
  - replace (length l - 10)%nat with O by lia.
    replace (length l + 1 - 10)%nat with O by lia. reflexivity.
Qed.

Lemma lastN_length {A} (n : nat) (l : list A) :
  length (lastN n l) = (length l `min` n)%nat.
Proof. unfold lastN. rewrite length_drop. lia. Qed.

Lemma DoAll_history `{GoLib} calls bc w l :
  history bc = lastN 10 l →
  history (DoAll bc calls w).1.2 = lastN 10 (l ++ succeeded (DoAll bc calls w).1.1).
Proof.
  revert bc w l. induction calls as [|[req options] calls IH]; intros bc w l Hl.
  - simpl. rewrite app_nil_r. exact Hl.
  - simpl. pose proof (Do_history bc req options w) as Hh.
    destruct (Do bc req options w) as [[res bc1] w1]. simpl in Hh.
    specialize (IH bc1 w1).
    destruct (DoAll bc1 calls w1) as [[rest bc2] w2]. simpl in *.
    destruct res as [resp|e].
    + rewrite (IH (l ++ [URL_String (req_URL req)])).
      * simpl. rewrite <- app_assoc. reflexivity.
      * rewrite Hh. apply updateHistory_lastN, Hl.
    + simpl. apply IH. rewrite Hh. exact Hl.
Qed.

(** After 15 requests to distinct URLs the history holds the last 10. *)
Example history_after_15 :
  let urls := (λ n, "http://example.com/" +:+ itoa (Z.of_nat n)) <$> seq 1 15 in
  let calls := (λ u, (mkRequest "GET" (mkURL u "/") ∅, [])) <$> urls in
  history (@DoAll exampleLib (newClient (exampleProfile chromeUA) exampleConfig)
             calls (worldWith (λ _, O) quietNet)).1.2
  = drop 5 urls.
Proof. vm_compute. reflexivity. Qed.

(** ** Header sets *)

Lemma noSecFetch_empty : noSecFetch ∅.
Proof. intros k [v Hv]. by rewrite lookup_empty in Hv. Qed.

Lemma noSecFetch_insert (h : Header) k v :
  strings_HasPrefix k "Sec-Fetch-" = false → noSecFetch h →
  noSecFetch (<[k := v]> h).
Proof.
  intros Hk Hh k' Hsome. destruct (decide (k = k')) as [<-|Hne]; [done|].
  rewrite lookup_insert_ne in Hsome by done. by apply Hh.
Qed.

Lemma noSecFetch_subseteq (h h' : Header) :
  h' ⊆ h → noSecFetch h → noSecFetch h'.
Proof.
  intros Hsub Hh k [v Hv]. apply Hh. exists v.
  by eapply lookup_weaken.
Qed.

#[local] Ltac solve_noSecFetch :=
  repeat first
    [ apply noSecFetch_empty
    | apply noSecFetch_insert; [reflexivity|]
    | match goal with |- context [if ?b then _ else _] => destruct b end ].

Lemma addRandomHeaders_noSecFetch (h : Header) (r : Rand) :
  noSecFetch h → noSecFetch (addRandomHeaders h r).1.
Proof.
  intros Hh. unfold addRandomHeaders.
  destruct (Float32 r) as [x r1]. destruct (Float32 r1) as [y r2].
  destruct (Float32 r2) as [z r3].
  destruct (Qltb x (3 # 10)), (Qltb y (2 # 10)), (Qltb z (4 # 10)); simpl;
    repeat (apply noSecFetch_insert; [reflexivity|]); exact Hh.
Qed.

Lemma addRandomHeaders_lookup_other (h : Header) (r : Rand) (k : string) :
  k ≠ "DNT" → k ≠ "Cache-Control" →
  (addRandomHeaders h r).1 !! k = h !! k.
Proof.
  intros H1 H2. unfold addRandomHeaders.
  destruct (Float32 r) as [x r1]. destruct (Float32 r1) as [y r2].
  destruct (Float32 r2) as [z r3].
  destruct (Qltb x (3 # 10)), (Qltb y (2 # 10)), (Qltb z (4 # 10)); simpl;
    by rewrite ?lookup_insert_ne by done.
Qed.

(** The header set generated for the family Safari. *)
Lemma generateHeadersWith_Safari `{GoLib} hb req r :
  let h := generateHeadersWith hb req "Safari" r in
  noSecFetch h
  ∧ (is_Some (h !! "Upgrade-Insecure-Requests") ↔ isNavigate hb = true).
Proof.
  unfold generateHeadersWith, addSafariHeaders. simpl. split.
  - apply addRandomHeaders_noSecFetch. solve_noSecFetch.
  - rewrite addRandomHeaders_lookup_other by done.
    destruct (isNavigate hb), (String.eqb (referrer hb) ""),
      (String.eqb (origin hb) ""); simpl;
      rewrite ?lookup_insert_ne by done;
      rewrite ?lookup_insert_eq, ?lookup_empty;
      split; intros Hx; try done; try (by destruct Hx); by eexists.
Qed.

(** [BuildHeaders] writes generated headers only, and every generated
    header whose key is canonical. *)
Lemma applyOrdered_subseteq (headers : Header) order (h : Header) :
  h ⊆ headers → applyOrdered headers order h ⊆ headers.
Proof.
  revert h. induction order as [|key order IH]; intros h Hh; [exact Hh|].
  simpl. apply IH. destruct (headers !! key) eqn:Hk; [|exact Hh].
  by apply insert_subseteq_l.
Qed.

Lemma applyRemaining_subseteq (headers : Header) entries (h : Header) :
  (∀ k v, (k, v) ∈ entries → headers !! k = Some v) →
  h ⊆ headers → applyRemaining entries h ⊆ headers.
Proof.
  revert h. induction entries as [|[k v] entries IH]; intros h Hin Hh;
    [exact Hh|].
  simpl. apply IH; [intros; apply Hin; by right|].
  destruct (String.eqb _ _); [|exact Hh].
  apply insert_subseteq_l; [|exact Hh]. apply Hin. by left.
Qed.

Lemma applyRemaining_keeps entries (h : Header) k :
  is_Some (h !! k) → is_Some (applyRemaining entries h !! k).
Proof.
  revert h. induction entries as [|[k' v'] entries IH]; intros h Hk;
    [exact Hk|].
  simpl. apply IH. destruct (String.eqb _ _); [|exact Hk].
  destruct (decide (k' = k)) as [->|Hne].
  - rewrite lookup_insert_eq. by eexists.
  - by rewrite lookup_insert_ne.
Qed.

Lemma applyRemaining_writes entries (h : Header) k v :
  (k, v) ∈ entries → CanonicalMIMEHeaderKey k = k →
  is_Some (applyRemaining entries h !! k).
Proof.
  revert h. induction entries as [|[k' v'] entries IH]; intros h Hin Hcanon.
  - by apply elem_of_nil in Hin.
  - apply elem_of_cons in Hin as [[= <- <-]|Hin]; [|by apply IH].
    simpl. apply applyRemaining_keeps.
    destruct (String.eqb (Header_Get h k) "") eqn:Hget.
    + rewrite lookup_insert_eq. by eexists.
    + unfold Header_Get in Hget. rewrite Hcanon in Hget.
      destruct (h !! k) as [[|x xs]|]; by eauto.
Qed.

(** The order table [BuildHeaders] uses for a family. *)
Lemma BuildHeaders_Header `{GoLib} hb req w :
  let browser := detectBrowser (UserAgent (hb_profile hb)) in
  let '(headers, w1) := generateHeaders hb req browser w in
  req_Header (BuildHeaders hb req w).1 =
    applyRemaining (range (map_to_list headers) w1).1
      (applyOrdered headers
         (match headerOrder !! browser with
          | Some order => order
          | None => default [] (headerOrder !! "Chrome")
          end) ∅).
Proof.
  cbv zeta. unfold BuildHeaders.
  destruct (generateHeaders _ _ _ _) as [headers w1].
  destruct (range _ w1) as [entries w2]. reflexivity.
Qed.

Lemma BuildHeaders_generated `{GoLib} hb req w :
  let browser := detectBrowser (UserAgent (hb_profile hb)) in
  let headers := (generateHeaders hb req browser w).1 in
  let h := req_Header (BuildHeaders hb req w).1 in
  h ⊆ headers
  ∧ ∀ k, CanonicalMIMEHeaderKey k = k → h !! k = headers !! k.
Proof.
  cbv zeta. pose proof (BuildHeaders_Header hb req w) as Heq. cbv zeta in Heq.
  destruct (generateHeaders _ _ _ _) as [headers w1]. rewrite Heq.
  cbn [fst]. clear Heq.
  pose proof (range_Permutation (map_to_list headers) w1) as Hperm.
  set (entries := (range (map_to_list headers) w1).1) in *.
  set (h0 := applyOrdered headers _ ∅).
  assert (Hin : ∀ k v, (k, v) ∈ entries → headers !! k = Some v).
  { intros k v Hkv. apply elem_of_map_to_list. by rewrite <- Hperm. }
  assert (Hsub : applyRemaining entries h0 ⊆ headers).
  { apply applyRemaining_subseteq; [exact Hin|].
    apply applyOrdered_subseteq, map_empty_subseteq. }
  split; [exact Hsub|]. intros k Hcanon.
  destruct (headers !! k) as [v|] eqn:Hk.
  - destruct (applyRemaining_writes entries h0 k v) as [v' Hv'];
      [|exact Hcanon|].
    + rewrite Hperm. by apply elem_of_map_to_list.
    + rewrite Hv'. f_equal. pose proof (lookup_weaken _ _ _ _ Hv' Hsub).
      congruence.
  - eapply lookup_weaken_None; eauto.
Qed.

(** C5. For a profile of the Safari family, whatever the request, the
    context (navigation flag, referrer, origin) and the random draws, the
    header set generated, and the header collection [BuildHeaders] leaves in
    the request, contain no key that begins with "Sec-Fetch-", and contain
    "Upgrade-Insecure-Requests" exactly when the context is a navigation. *)
Theorem Safari_headers `{GoLib} (hb : HeaderBuilder) (req : Request)
    (w : World) :
  detectBrowser (UserAgent (hb_profile hb)) = "Safari" →
  let generated := (generateHeaders hb req "Safari" w).1 in
  let h := req_Header (BuildHeaders hb req w).1 in
  noSecFetch generated
  ∧ (is_Some (generated !! "Upgrade-Insecure-Requests")
     ↔ isNavigate hb = true)
  ∧ noSecFetch h
  ∧ (is_Some (h !! "Upgrade-Insecure-Requests") ↔ isNavigate hb = true).
Proof.
  intros Hfam. cbv zeta.
  pose proof (BuildHeaders_generated hb req w) as [Hsub Hcanon].
  rewrite Hfam in Hsub, Hcanon.
  specialize (Hcanon "Upgrade-Insecure-Requests" eq_refl).
  unfold generateHeaders in *. destruct (newRand w) as [r w1]. simpl in *.
  destruct (generateHeadersWith_Safari hb req r) as [Hno Huir].
  repeat split; try exact Hno; try (by apply Huir).
  - by eapply noSecFetch_subseteq.
  - rewrite Hcanon. apply Huir.
  - rewrite Hcanon. apply Huir.
Qed.

Lemma Safari_headers_witness :
  detectBrowser safariUA = "Safari"
  ∧ noSecFetch
      (req_Header
         (@BuildHeaders exampleLib
            (NewHeaderBuilder (exampleProfile safariUA))
            (mkRequest "GET" (mkURL "http://example.com/" "/") ∅)
            (worldWith (λ _, O) quietNet)).1).
Proof.
  split; [reflexivity|].
  apply (@Safari_headers exampleLib
           (NewHeaderBuilder (exampleProfile safariUA))
           (mkRequest "GET" (mkURL "http://example.com/" "/") ∅)
           (worldWith (λ _, O) quietNet)).
  reflexivity.
Defined.

(** ** Frequencies of [DNT] and [Cache-Control] *)

Lemma countb_app {A} (p : A → bool) (l1 l2 : list A) :
  countb p (l1 ++ l2) = countb p l1 + countb p l2.
Proof. induction l1 as [|x l1 IH]; simpl; lia. Qed.

Lemma countb_ext_in {A} (p q : A → bool) (l : list A) :
  (∀ x, x ∈ l → p x = q x) → countb p l = countb q l.
Proof.
  induction l as [|x l IH]; intros Hpq; [reflexivity|]. simpl.
  rewrite (Hpq x) by (by left). rewrite IH; [reflexivity|].
  intros y Hy. apply Hpq. by right.
Qed.

Lemma sumOver_ext_in {A} (f g : A → Z) (l : list A) :
  (∀ x, x ∈ l → f x = g x) → sumOver f l = sumOver g l.
Proof.
  induction l as [|x l IH]; intros Hfg; [reflexivity|]. simpl.
  rewrite (Hfg x) by (by left). rewrite IH; [reflexivity|].
  intros y Hy. apply Hfg. by right.
Qed.

Lemma countb_and_const {A} (b : bool) (p : A → bool) (l : list A) :
  countb (λ x, b && p x) l = if b then countb p l else 0.
Proof. destruct b; simpl; [reflexivity|]. induction l; simpl; lia. Qed.

Lemma sumOver_scale {A} (p : A → bool) (c : Z) (l : list A) :
  sumOver (λ x, if p x then c else 0) l = countb p l * c.
Proof. induction l as [|x l IH]; simpl; [lia|]. destruct (p x); lia. Qed.

Lemma countb_true {A} (l : list A) :
  countb (λ _, true) l = Z.of_nat (length l).
Proof. induction l; simpl; lia. Qed.

Lemma countb_negb {A} (p : A → bool) (l : list A) :
  countb (λ x, negb (p x)) l = Z.of_nat (length l) - countb p l.
Proof. induction l as [|x l IH]; simpl; [lia|]. destruct (p x); simpl; lia. Qed.

Lemma countb_below (n : nat) (c : Z) :
  0 ≤ c ≤ Z.of_nat n →
  countb (λ k, k <? c) (seqZ 0 (Z.of_nat n)) = c.
Proof.
  revert c. induction n as [|n IH]; intros c Hc.
  - simpl. lia.
  - rewrite seqZ_S, countb_app. simpl countb. rewrite Z.add_0_l.
    destruct (Z.ltb_spec (Z.of_nat n) c).
    + rewrite (countb_ext_in _ (λ _, true)).
      * rewrite countb_true, length_seqZ. lia.
      * intros k Hk. apply elem_of_seqZ in Hk. apply Z.ltb_lt. lia.
    + rewrite IH by lia. lia.
Qed.

(** Products of events on the three draws. *)
Lemma count3_product (p q s : Z → bool) :
  count3 (λ x y z, p x && (q y && s z)) =
    countb p float32Values * countb q float32Values * countb s float32Values.
Proof.
  unfold count3. generalize float32Values. intros l.
  rewrite (sumOver_ext_in _ (λ x, if p x then countb q l * countb s l else 0)).
  - rewrite sumOver_scale. lia.
  - intros x _.
    rewrite (sumOver_ext_in _ (λ y, if p x && q y then countb s l else 0)).
    + rewrite sumOver_scale, countb_and_const. destruct (p x); reflexivity.
    + intros y _.
      rewrite (countb_and_const (p x) (λ z, q y && s z)).
      rewrite (countb_and_const (q y) s).
      destruct (p x), (q y); reflexivity.
Qed.

Lemma count3_ext_in (E E' : Z → Z → Z → bool) :
  (∀ x y z, x ∈ float32Values → y ∈ float32Values → z ∈ float32Values →
            E x y z = E' x y z) →
  count3 E = count3 E'.
Proof.
  intros HE. unfold count3. apply sumOver_ext_in. intros x Hx.
  apply sumOver_ext_in. intros y Hy. apply countb_ext_in. intros z Hz.
  by apply HE.
Qed.

Lemma float32Values_elem (x : Z) :
  x ∈ float32Values ↔ 0 ≤ x < Z.pos float32Grid.
Proof. unfold float32Values. rewrite elem_of_seqZ. lia. Qed.

Lemma float32Values_length :
  Z.of_nat (length float32Values) = Z.pos float32Grid.
Proof. unfold float32Values. rewrite length_seqZ. lia. Qed.

Lemma float32Values_below (c : Z) :
  0 ≤ c ≤ Z.pos float32Grid →
  countb (λ k, k <? c) float32Values = c.
Proof.
  intros Hc. unfold float32Values.
  rewrite <- (Z2Nat.id (Z.pos float32Grid)) by lia.
  apply countb_below. lia.
Qed.

(** The comparisons of a draw with 0.2, 0.3 and 0.4, on the raw value. *)
Lemma Float32_fst (r : Rand) :
  (Float32 r).1 = (src r (drawn r) mod Z.pos float32Grid) # float32Grid.
Proof. reflexivity. Qed.

Lemma Float32_snd (r : Rand) :
  (Float32 r).2 = mkRand (src r) (S (drawn r)).
Proof. reflexivity. Qed.

Lemma draw_below (x a c : Z) :
  0 ≤ x < Z.pos float32Grid →
  10 * (c - 1) < a * Z.pos float32Grid ≤ 10 * c →
  Qltb ((x mod Z.pos float32Grid) # float32Grid) (a # 10) = (x <? c).
Proof.
  intros Hx Hc. rewrite Z.mod_small by lia.
  unfold Qltb, Qle_bool. cbn [Qnum Qden].
  destruct (Z.ltb_spec x c), (Z.leb_spec (a * Z.pos float32Grid) (x * 10));
    simpl; try reflexivity; lia.
Qed.

Lemma addRandomHeaders_DNT (h : Header) (r : Rand) :
  (addRandomHeaders h r).1 !! "DNT" =
    if below 3 (src r (drawn r)) then Some ["1"] else h !! "DNT".
Proof.
  unfold addRandomHeaders, Float32, raw, below. cbn [src drawn].
  repeat match goal with |- context [Qltb ?a ?b] => destruct (Qltb a b) end;
    cbn [fst];
    rewrite ?lookup_insert_ne by done; rewrite ?lookup_insert_eq; reflexivity.
Qed.

Lemma addRandomHeaders_CacheControl (h : Header) (r : Rand) :
  (addRandomHeaders h r).1 !! "Cache-Control" =
    if below 2 (src r (S (drawn r))) then Some ["no-cache"]
    else if below 4 (src r (S (S (drawn r)))) then Some ["max-age=0"]
    else h !! "Cache-Control".
Proof.
  unfold addRandomHeaders, Float32, raw, below. cbn [src drawn].
  repeat match goal with |- context [Qltb ?a ?b] => destruct (Qltb a b) end;
    cbn [fst];
    rewrite ?lookup_insert_eq; rewrite ?lookup_insert_ne by done; reflexivity.
Qed.

(** The headers written before the random ones never include [DNT] or
    [Cache-Control], and take [familyDraws] draws. *)
#[local] Ltac skip_inserts :=
  repeat first
    [ rewrite lookup_insert_ne by done
    | match goal with |- context [if ?b then _ else _] => destruct b end ];
  try reflexivity.

Lemma addChromeHeaders_spec hb (h : Header) r :
  (addChromeHeaders hb h r).2 = mkRand (src r) (S (drawn r))
  ∧ ∀ k, isRandomKey k → (addChromeHeaders hb h r).1 !! k = h !! k.
Proof.
  unfold addChromeHeaders, Float32, raw. cbn [src drawn]. split.
  - reflexivity.
  - intros k [-> | ->]; cbn [fst]; skip_inserts.
Qed.

Lemma addFirefoxHeaders_spec `{GoLib} hb (h : Header) r :
  (addFirefoxHeaders hb h r).2 = mkRand (src r) (S (drawn r))
  ∧ ∀ k, isRandomKey k → (addFirefoxHeaders hb h r).1 !! k = h !! k.
Proof.
  unfold addFirefoxHeaders, Float32, raw. cbn [src drawn]. split.
  - reflexivity.
  - intros k [-> | ->]; cbn [fst]; skip_inserts.
Qed.

Lemma addSafariHeaders_spec hb (h : Header) r :
  (addSafariHeaders hb h r).2 = r
  ∧ ∀ k, isRandomKey k → (addSafariHeaders hb h r).1 !! k = h !! k.
Proof.
  unfold addSafariHeaders. split; [reflexivity|].
  intros k [-> | ->]; cbn [fst]; skip_inserts.
Qed.

Lemma generateHeadersWith_random `{GoLib} hb req browser r :
  ∃ h : Header,
    h !! "DNT" = None ∧ h !! "Cache-Control" = None
    ∧ generateHeadersWith hb req browser r =
        (addRandomHeaders h
           (mkRand (src r) (drawn r + familyDraws browser))).1.
Proof.
  unfold generateHeadersWith, familyDraws.
  set (h0 := <["Accept-Encoding" := _]> _).
  assert (Hh0 : ∀ k, isRandomKey k → h0 !! k = None).
  { intros k [-> | ->]; unfold h0; skip_inserts. }
  assert (Hfam : ∃ h1 r1,
    (if String.eqb browser "Chrome" then addChromeHeaders hb h0 r
     else if String.eqb browser "Firefox" then addFirefoxHeaders hb h0 r
     else if String.eqb browser "Safari" then addSafariHeaders hb h0 r
     else (h0, r)) = (h1, r1)
    ∧ r1 = mkRand (src r)
             (drawn r + (if String.eqb browser "Chrome" then 1
                         else if String.eqb browser "Firefox" then 1 else 0))
    ∧ ∀ k, isRandomKey k → h1 !! k = None).
  { destruct (String.eqb browser "Chrome");
      [|destruct (String.eqb browser "Firefox");
        [|destruct (String.eqb browser "Safari")]].
    - destruct (addChromeHeaders_spec hb h0 r) as [Hr Hk].
      destruct (addChromeHeaders hb h0 r) as [h1 r1]. simpl in *.
      exists h1, r1. repeat split; [rewrite Hr; f_equal; lia|].
      intros k Hrk. rewrite Hk by done. by apply Hh0.
    - destruct (addFirefoxHeaders_spec hb h0 r) as [Hr Hk].
      destruct (addFirefoxHeaders hb h0 r) as [h1 r1]. simpl in *.
      exists h1, r1. repeat split; [rewrite Hr; f_equal; lia|].
      intros k Hrk. rewrite Hk by done. by apply Hh0.
    - destruct (addSafariHeaders_spec hb h0 r) as [Hr Hk].
      destruct (addSafariHeaders hb h0 r) as [h1 r1]. simpl in *.
      exists h1, r1. repeat split; [subst r1; destruct r; simpl; f_equal; lia|].
      intros k Hrk. rewrite Hk by done. by apply Hh0.
    - exists h0, r. repeat split; [destruct r; simpl; f_equal; lia|exact Hh0]. }
  destruct Hfam as (h1 & r1 & -> & -> & Hh1).
  eexists. split; [|split; [|reflexivity]].
  - destruct (negb (String.eqb (referrer hb) "")),
      (negb (String.eqb (origin hb) "") && negb (isNavigate hb));
      rewrite ?lookup_insert_ne by done; apply Hh1; by left.
  - destruct (negb (String.eqb (referrer hb) "")),
      (negb (String.eqb (origin hb) "") && negb (isNavigate hb));
      rewrite ?lookup_insert_ne by done; apply Hh1; by right.
Qed.

Lemma float32Grid_value : Z.pos float32Grid = 16777216.
Proof. reflexivity. Qed.

Lemma below_threshold (x : Z) :
  x ∈ float32Values →
  below 2 x = (x <? below_02) ∧ below 3 x = (x <? below_03)
  ∧ below 4 x = (x <? below_04).
Proof.
  intros Hx%float32Values_elem. unfold below, below_02, below_03, below_04.
  repeat split; apply draw_below; rewrite ?float32Grid_value in *; lia.
Qed.

Lemma override_at (base : nat → Z) (i j : nat) (ds : list Z) (d : Z) :
  ds !! j = Some d → override base i ds (i + j) = d.
Proof.
  intros Hd. unfold override. rewrite decide_True by lia.
  replace (i + j - i)%nat with j by lia. by rewrite Hd.
Qed.

Lemma generatedWith_lookup `{GoLib} hb req browser base x y z :
  generatedWith hb req browser base x y z !! "DNT" =
    (if below 3 x then Some ["1"] else None)
  ∧ generatedWith hb req browser base x y z !! "Cache-Control" =
    (if below 2 y then Some ["no-cache"]
     else if below 4 z then Some ["max-age=0"] else None).
Proof.
  unfold generatedWith.
  destruct (generateHeadersWith_random hb req browser
              (mkRand (override base (familyDraws browser) [x; y; z]) O))
    as (h & Hdnt & Hcc & ->).
  rewrite addRandomHeaders_DNT, addRandomHeaders_CacheControl.
  cbn [src drawn]. rewrite Hdnt, Hcc.
  set (i := familyDraws browser).
  replace (0 + i)%nat with (i + 0)%nat by lia.
  replace (S (i + 0)) with (i + 1)%nat by lia.
  replace (S (i + 1)) with (i + 2)%nat by lia.
  rewrite (override_at base i 0 [x; y; z] x), (override_at base i 1 [x; y; z] y),
    (override_at base i 2 [x; y; z] z) by reflexivity.
  split; reflexivity.
Qed.

(** The numbers of triples of draws that give each outcome. *)
Lemma frequency_values `{GoLib} hb req browser base :
  let G := Z.pos float32Grid in
  frequency hb req browser base "DNT" (Some ["1"]) = below_03 * G * G
  ∧ frequency hb req browser base "DNT" None = (G - below_03) * G * G
  ∧ frequency hb req browser base "Cache-Control" (Some ["no-cache"])
    = G * below_02 * G
  ∧ frequency hb req browser base "Cache-Control" (Some ["max-age=0"])
    = G * (G - below_02) * below_04
  ∧ frequency hb req browser base "Cache-Control" None
    = G * (G - below_02) * (G - below_04).
Proof.
  cbv zeta. unfold frequency.
  assert (Hlen := float32Values_length).
  assert (H2 := float32Values_below below_02).
  assert (H3 := float32Values_below below_03).
  assert (H4 := float32Values_below below_04).
  rewrite float32Grid_value in *. unfold below_02, below_03, below_04 in *.
  specialize (H2 ltac:(lia)). specialize (H3 ltac:(lia)).
  specialize (H4 ltac:(lia)).
  repeat split.
  - rewrite (count3_ext_in _
      (λ x y z, (x <? 5033165) && ((λ _, true) y && (λ _, true) z))).
    + rewrite count3_product, countb_true, H3, Hlen. reflexivity.
    + intros x y z Hx Hy Hz.
      destruct (generatedWith_lookup hb req browser base x y z) as [-> _].
      destruct (below_threshold x Hx) as (_ & -> & _).
      unfold below_03. by destruct (x <? 5033165).
  - rewrite (count3_ext_in _
      (λ x y z, negb (x <? 5033165) && ((λ _, true) y && (λ _, true) z))).
    + rewrite count3_product, countb_true, countb_negb, H3, Hlen. reflexivity.
    + intros x y z Hx Hy Hz.
      destruct (generatedWith_lookup hb req browser base x y z) as [-> _].
      destruct (below_threshold x Hx) as (_ & -> & _).
      unfold below_03. by destruct (x <? 5033165).
  - rewrite (count3_ext_in _
      (λ x y z, (λ _, true) x && ((y <? 3355444) && (λ _, true) z))).
    + rewrite count3_product, countb_true, H2, Hlen. reflexivity.
    + intros x y z Hx Hy Hz.
      destruct (generatedWith_lookup hb req browser base x y z) as [_ ->].
      destruct (below_threshold y Hy) as (-> & _ & _).
      destruct (below_threshold z Hz) as (_ & _ & ->).
      unfold below_02, below_04.
      by destruct (y <? 3355444), (z <? 6710887).
  - rewrite (count3_ext_in _
      (λ x y z, (λ _, true) x && (negb (y <? 3355444) && (z <? 6710887)))).
    + rewrite count3_product, countb_true, countb_negb, H2, H4, Hlen.
      reflexivity.
    + intros x y z Hx Hy Hz.
      destruct (generatedWith_lookup hb req browser base x y z) as [_ ->].
      destruct (below_threshold y Hy) as (-> & _ & _).
      destruct (below_threshold z Hz) as (_ & _ & ->).
      unfold below_02, below_04.
      by destruct (y <? 3355444), (z <? 6710887).
  - rewrite (count3_ext_in _
      (λ x y z, (λ _, true) x
                && (negb (y <? 3355444) && negb (z <? 6710887)))).
    + rewrite count3_product, countb_true, !countb_negb, H2, H4, Hlen.
      reflexivity.
    + intros x y z Hx Hy Hz.
      destruct (generatedWith_lookup hb req browser base x y z) as [_ ->].
      destruct (below_threshold y Hy) as (-> & _ & _).
      destruct (below_threshold z Hz) as (_ & _ & ->).
      unfold below_02, below_04.
      by destruct (y <? 3355444), (z <? 6710887).
Qed.

(** C6, as the code has it. Over the equally likely values of the three
    draws that decide them (whatever the other draws, the request, the
    context and the family), a generated header set includes [DNT: 1] with
    probability 0.3 and [Cache-Control: no-cache] with probability 0.2;
    otherwise a further, independent draw gives [Cache-Control: max-age=0]
    with probability 0.4, that is 0.8 * 0.4 = 0.32 overall, and the header
    is absent with probability 0.48. Each value is met within 10^-6, the
    resolution of the draws being 2^-24. *)
Theorem random_header_frequencies `{GoLib} (hb : HeaderBuilder)
    (req : Request) (browser : string) (base : nat → Z) :
  let freq := frequency hb req browser base in
  within 1000000 3 10 (freq "DNT" (Some ["1"])) triples
  ∧ freq "DNT" (Some ["1"]) + freq "DNT" None = triples
  ∧ within 1000000 2 10 (freq "Cache-Control" (Some ["no-cache"])) triples
  ∧ within 1000000 32 100 (freq "Cache-Control" (Some ["max-age=0"])) triples
  ∧ within 1000000 48 100 (freq "Cache-Control" None) triples
  ∧ within 1000000 4 10 (freq "Cache-Control" (Some ["max-age=0"]))
      (triples - freq "Cache-Control" (Some ["no-cache"]))
  ∧ freq "Cache-Control" (Some ["no-cache"])
    + freq "Cache-Control" (Some ["max-age=0"])
    + freq "Cache-Control" None = triples.
Proof.
  cbv zeta.
  destruct (frequency_values hb req browser base)
    as (-> & -> & -> & -> & ->).
  unfold within, triples, below_02, below_03, below_04.
  rewrite float32Grid_value. repeat split; vm_compute; reflexivity.
Qed.

(** C6, as stated, fails: for a Safari profile the share of header sets
    with [Cache-Control: max-age=0] lies between 0.31 and 0.33, and is not
    within 0.1 of 0.2. *)
Lemma max_age_frequency_not_one_fifth :
  let f := @frequency exampleLib (NewHeaderBuilder (exampleProfile safariUA))
             (mkRequest "GET" (mkURL "http://example.com/" "/") ∅)
             "Safari" (λ _, 0) "Cache-Control" (Some ["max-age=0"]) in
  31 * triples < 100 * f < 33 * triples
  ∧ ¬ within 10 2 10 f triples.
Proof.
  cbv zeta.
  destruct (@frequency_values exampleLib
              (NewHeaderBuilder (exampleProfile safariUA))
              (mkRequest "GET" (mkURL "http://example.com/" "/") ∅)
              "Safari" (λ _, 0)) as (_ & _ & _ & -> & _).
  unfold within, triples, below_02, below_04. rewrite float32Grid_value.
  split; [split; vm_compute; reflexivity|].
  vm_compute. intros H. discriminate H.
Qed.

(** ** The retry loop *)

Lemma retryLoop_S `{GoLib} url maxRetries options n i lastErr backoff bc w :
  retryLoop url maxRetries options (S n) i lastErr backoff bc w =
    let '(res, bc, w) := Get bc url options w in
    let retry (err : option error) :=
      let '(backoff, w) :=
        if i <? maxRetries then
          let b := backoff * 2 in
          (if 30 * second_ns <? b then 30 * second_ns else b,
           time_Sleep backoff w)
        else (backoff, w) in
      retryLoop url maxRetries options n (i + 1) err backoff bc w in
    match res with
    | Ok resp =>
        if StatusCode resp <? 500 then (Ok resp, bc, w) else retry None
    | Err err => retry (Some err)
    end.
Proof. reflexivity. Qed.

(** A response returned by [GetWithRetry] has a status below 500, and an
    error returned is the one built after the last iteration. *)
Lemma retryLoop_result `{GoLib} url maxRetries options n i lastErr backoff bc w :
  match (retryLoop url maxRetries options n i lastErr backoff bc w).1.1 with
  | Ok resp => StatusCode resp < 500
  | Err e =>
      ∃ err, e = Errorf_w ("failed after " +:+ itoa maxRetries +:+ " retries: ")
                          err
  end.
Proof.
  revert i lastErr backoff bc w.
  induction n as [|n IH]; intros i lastErr backoff bc w.
  - simpl. by eexists.
  - rewrite retryLoop_S. cbv zeta.
    destruct (Get bc url options w) as [[res bc1] w1].
    destruct res as [resp|err].
    + destruct (Z.ltb_spec (StatusCode resp) 500); [done|].
      destruct (i <? maxRetries); apply IH.
    + destruct (i <? maxRetries); apply IH.
Qed.

(** Building headers reads the clock and the iteration order only. *)
Lemma BuildHeaders_world `{GoLib} hb req w :
  let w' := (BuildHeaders hb req w).2 in
  network w' = network w ∧ sent w' = sent w ∧ slept w' = slept w.
Proof.
  unfold BuildHeaders, generateHeaders, newRand, time_Now, range. cbn.
  repeat split.
Qed.

Lemma checkRedirect_world `{GoLib} req via bc w :
  let w' := (checkRedirect req via bc w).2 in
  network w' = network w ∧ sent w' = sent w ∧ slept w' = slept w.
Proof.
  unfold checkRedirect. destruct (10 <=? _); [by repeat split|].
  destruct (last via) as [prevReq|]; [|by repeat split].
  pose proof (BuildHeaders_world
                (SetContext (headerBuilder bc) true
                            (URL_String (req_URL prevReq)) "") req w) as Hw.
  destruct (BuildHeaders _ req w) as [req1 w1]. exact Hw.
Qed.

Lemma Client_do_slept `{GoLib} fuel reqs req bc w res bc' w' :
  Client_do checkRedirect fuel reqs req bc w = Some (res, bc', w') →
  slept w' = slept w.
Proof.
  revert reqs req bc w. induction fuel as [|fuel IH]; intros reqs req bc w;
    [discriminate|].
  rewrite Client_do_S. cbv zeta. unfold roundTrip.
  destruct (network w (sent w) req) as [e|resp].
  { by intros [= <- <- <-]. }
  destruct (redirect resp) as [[method loc]|]; [|by intros [= <- <- <-]].
  match goal with |- context [checkRedirect ?a ?b ?c ?d] =>
    pose proof (checkRedirect_world a b c d) as (_ & _ & Hs) end.
  destruct (checkRedirect _ _ _ _) as [[[err next] bc1] w1]. simpl in Hs.
  destruct err as [e|].
  - destruct e; intros [= <- <- <-]; exact Hs.
  - intros Hdo. rewrite (IH _ _ _ _ Hdo). exact Hs.
Qed.

Lemma Do_slept `{GoLib} bc req options w :
  slept (Do bc req options w).2 = slept w.
Proof.
  unfold Do.
  match goal with |- context [BuildHeaders ?a ?b ?c] =>
    pose proof (BuildHeaders_world a b c) as (_ & _ & Hs) end.
  destruct (BuildHeaders _ req w) as [req1 w1]. simpl in Hs.
  unfold range.
  destruct (Client_do _ _ _ _ _ _) as [[[res bc'] w']|] eqn:Hdo;
    [|exact Hs].
  apply Client_do_slept in Hdo. simpl in Hdo.
  destruct res; simpl; congruence.
Qed.

Lemma Get_slept `{GoLib} bc url options w :
  slept (Get bc url options w).2 = slept w.
Proof.
  unfold Get. destruct (http_NewRequest _ _); [apply Do_slept|reflexivity].
Qed.

(** The loop sleeps between two attempts only: at most [n - 1] times for
    [n] iterations. *)
Lemma retryLoop_sleeps `{GoLib} url maxRetries options n i lastErr backoff bc w :
  i + Z.of_nat n = maxRetries + 1 →
  (length (slept (retryLoop url maxRetries options n i lastErr backoff bc w).2)
   ≤ length (slept w) + (n - 1))%nat.
Proof.
  revert i lastErr backoff bc w.
  induction n as [|n IH]; intros i lastErr backoff bc w Hi; [simpl; lia|].
  rewrite retryLoop_S. cbv zeta. pose proof (Get_slept bc url options w) as Hget.
  destruct (Get bc url options w) as [[res bc1] w1]. simpl in Hget.
  assert (Hstep : ∀ err,
    Nat.le
      (length (slept (let '(backoff0, w0) :=
                 if i <? maxRetries
                 then (if 30 * second_ns <? backoff * 2 then 30 * second_ns
                       else backoff * 2, time_Sleep backoff w1)
                 else (backoff, w1) in
               retryLoop url maxRetries options n (i + 1) err backoff0 bc1 w0).2))
      (length (slept w) + (S n - 1))%nat).
  { intros err. destruct (Z.ltb_spec i maxRetries).
    - etransitivity; [apply IH; lia|]. unfold time_Sleep. simpl.
      rewrite Hget. lia.
    - assert (n = O) as -> by lia. simpl. rewrite Hget. lia. }
  destruct res as [resp|err]; [|apply Hstep].
  destruct (StatusCode resp <? 500); [simpl; rewrite Hget; lia|apply Hstep].
Qed.

(** C4 on the code. With maxRetries = 1, when the first attempt fails with
    a transport error and the second returns the status 503,
    [GetWithRetry] has made both attempts and slept once, and returns an
    error that carries the retry count but wraps no error at all: the
    error of the first attempt, the last request-level error, is lost,
    because [lastErr] is overwritten with the nil error of the 503
    attempt. *)
Theorem GetWithRetry_drops_last_error :
  let bc := newClient (exampleProfile chromeUA) exampleConfig in
  let w := worldWith (λ _, O) resetThen503 in
  let '(res, _, w') := @GetWithRetry exampleLib bc "http://example.com/" 1 [] w in
  (@Get exampleLib bc "http://example.com/" [] w).1.1
  = Err (urlError "Get" "http://example.com/"
                  (errorString "connection reset by peer"))
  ∧ res = Err (errorString "failed after 1 retries: %!w(<nil>)")
  ∧ (∀ e, res = Err e → Unwrap e = None)
  ∧ sent w' = 2%nat
  ∧ slept w' = [1 * second_ns].
Proof.
  vm_compute. repeat split. intros e [= <-]. reflexivity.
Qed.

(** When every attempt returns a response with a status of 500 or more,
    the error returned wraps nothing either. *)
Example GetWithRetry_all_503 :
  let bc := newClient (exampleProfile chromeUA) exampleConfig in
  let w := worldWith (λ _, O) (λ _ _, RoundTripResponse (okResponse 503)) in
  (@GetWithRetry exampleLib bc "http://example.com/" 3 [] w).1.1
  = Err (errorString "failed after 3 retries: %!w(<nil>)").
Proof. vm_compute. reflexivity. Qed.

(** Three statuses 503 and then 200: the response 200 after three retries
    and backoffs of 1, 2 and 4 seconds. *)
Example GetWithRetry_503_503_503_200 :
  let bc := newClient (exampleProfile chromeUA) exampleConfig in
  let w := worldWith (λ _, O)
             (λ k _, RoundTripResponse
                       (okResponse (if (k <? 3)%nat then 503 else 200))) in
  let '(res, _, w') := @GetWithRetry exampleLib bc "http://example.com/" 3 [] w in
  res = Ok (okResponse 200) ∧ sent w' = 4%nat
  ∧ slept w' = [4 * second_ns; 2 * second_ns; 1 * second_ns].
Proof. vm_compute. repeat split. Qed.

(** ** The redirect policy *)

Lemma checkRedirect_pass `{GoLib} req via bc w :
  (length via < 10)%nat → (checkRedirect req via bc w).1.1.1 = None.
Proof.
  intros Hlen. unfold checkRedirect.
  destruct (Z.leb_spec 10 (Z.of_nat (length via))); [lia|].
  destruct (last via); [|reflexivity].
  destruct (BuildHeaders _ _ _). reflexivity.
Qed.

Lemma checkRedirect_stop `{GoLib} req via bc w :
  (10 ≤ length via)%nat →
  checkRedirect req via bc w =
    (Some (errorString "stopped after 10 redirects"), req, bc, w).
Proof.
  intros Hlen. unfold checkRedirect.
  destruct (Z.leb_spec 10 (Z.of_nat (length via))); [reflexivity|lia].
Qed.

Lemma redirects_after (w w' : World) (n : nat) :
  network w' = network w → sent w' = S (sent w) →
  redirects w (S n) → redirects w' n.
Proof.
  intros Hn Hs Hr k req Hk. rewrite Hn, Hs.
  replace (S (sent w) + k)%nat with (sent w + S k)%nat by lia.
  apply Hr. lia.
Qed.

Lemma answers_after (w w' : World) (n : nat) final :
  network w' = network w → sent w' = S (sent w) →
  answers w (S n) final → answers w' n final.
Proof.
  intros Hn Hs Ha req. rewrite Hn, Hs.
  replace (S (sent w) + n)%nat with (sent w + S n)%nat by lia. apply Ha.
Qed.

(** One round trip that meets a redirect the policy accepts. *)
Lemma Client_do_hop `{GoLib} fuel reqs req bc w :
  redirects w 1 → (length reqs < 9)%nat →
  ∃ next bc1 w1,
    Client_do checkRedirect (S fuel) reqs req bc w =
      Client_do checkRedirect fuel (reqs ++ [req]) next bc1 w1
    ∧ network w1 = network w ∧ sent w1 = S (sent w).
Proof.
  intros Hr Hlen. destruct (Hr O req) as (resp & Hresp & [[method loc] Hred]);
    [lia|].
  rewrite Nat.add_0_r in Hresp.
  rewrite Client_do_S. cbv zeta. unfold roundTrip. rewrite Hresp, Hred.
  match goal with |- context [checkRedirect ?a ?b ?c ?d] =>
    pose proof (checkRedirect_world a b c d) as (Hn & Hs & _);
    pose proof (checkRedirect_pass a b c d) as Hp end.
  destruct (checkRedirect _ _ _ _) as [[[err next] bc1] w1]. simpl in *.
  rewrite Hp by (rewrite length_app; simpl; lia).
  exists next, bc1, w1. repeat split; assumption.
Qed.

Lemma Client_do_follows `{GoLib} m fuel reqs req bc w final :
  (length reqs + m ≤ 9)%nat → (m < fuel)%nat →
  redirects w m → answers w m final → redirect final = None →
  ∃ bc' w', Client_do checkRedirect fuel reqs req bc w = Some (Ok final, bc', w')
            ∧ sent w' = (sent w + m + 1)%nat.
Proof.
  revert fuel reqs req bc w.
  induction m as [|m IH]; intros fuel reqs req bc w Hlen Hfuel Hr Ha Hfin;
    (destruct fuel as [|fuel]; [lia|]).
  - rewrite Client_do_S. cbv zeta. unfold roundTrip.
    specialize (Ha req). rewrite Nat.add_0_r in Ha. rewrite Ha, Hfin.
    eexists _, _. split; [reflexivity|]. simpl. lia.
  - destruct (Client_do_hop fuel reqs req bc w) as (next & bc1 & w1 & -> & Hn & Hs).
    { intros k r Hk. apply Hr. lia. }
    { lia. }
    destruct (IH fuel (reqs ++ [req]) next bc1 w1) as (bc' & w' & -> & Hs').
    + rewrite length_app. simpl. lia.
    + lia.
    + by eapply redirects_after.
    + by eapply answers_after.
    + exact Hfin.
    + eexists _, _. split; [reflexivity|]. lia.
Qed.

Lemma Client_do_stops `{GoLib} m fuel reqs req bc w :
  (length reqs + m = 9)%nat → (m < fuel)%nat → redirects w (S m) →
  ∃ op loc bc' w',
    Client_do checkRedirect fuel reqs req bc w =
      Some (Err (urlError op loc (errorString "stopped after 10 redirects")),
            bc', w')
    ∧ sent w' = (sent w + m + 1)%nat.
Proof.
  revert fuel reqs req bc w.
  induction m as [|m IH]; intros fuel reqs req bc w Hlen Hfuel Hr;
    (destruct fuel as [|fuel]; [lia|]).
  - destruct (Hr O req) as (resp & Hresp & [[method loc] Hred]); [lia|].
    rewrite Nat.add_0_r in Hresp.
    rewrite Client_do_S. cbv zeta. unfold roundTrip. rewrite Hresp, Hred.
    rewrite checkRedirect_stop by (rewrite length_app; simpl; lia).
    eexists _, _, _, _. split; [reflexivity|]. simpl. lia.
  - destruct (Client_do_hop fuel reqs req bc w) as (next & bc1 & w1 & -> & Hn & Hs).
    { intros k r Hk. apply Hr. lia. }
    { lia. }
    destruct (IH fuel (reqs ++ [req]) next bc1 w1)
      as (op & loc & bc' & w' & -> & Hs').
    + rewrite length_app. simpl. lia.
    + lia.
    + by eapply redirects_after.
    + eexists _, _, _, _. split; [reflexivity|]. lia.
Qed.

(** With [checkRedirect] as the hook the client loop needs at most ten
    round trips. *)
Lemma Client_do_checkRedirect_total `{GoLib} fuel reqs req bc w :
  (10 ≤ length reqs + fuel)%nat → (0 < fuel)%nat →
  is_Some (Client_do checkRedirect fuel reqs req bc w).
Proof.
  revert reqs req bc w. induction fuel as [|fuel IH]; intros reqs req bc w Hlen Hf;
    [lia|].
  rewrite Client_do_S. cbv zeta. destruct (roundTrip req w) as [[e|resp] w1];
    [by eexists|].
  destruct (redirect resp) as [[method loc]|]; [|by eexists].
  match goal with |- context [checkRedirect ?a ?b ?c ?d] =>
    pose proof (checkRedirect_stop a b c d) as Hstop end.
  destruct (checkRedirect _ _ _ _) as [[[err next] bc1] w2] eqn:Hc.
  destruct err as [e|]; [destruct e; by eexists|].
  destruct (decide (10 ≤ length (reqs ++ [req]))%nat) as [Hge|Hlt].
  - specialize (Hstop Hge). discriminate.
  - apply IH; rewrite length_app in *; simpl in *; lia.
Qed.

Lemma range_world {A} (l : list A) (w : World) :
  network (range l w).2 = network w ∧ sent (range l w).2 = sent w.
Proof. split; reflexivity. Qed.

(** The world [Do] hands to the client loop has the network and the
    number of round trips of the world [Do] was called in. *)
Lemma Do_unfold `{GoLib} bc req options w :
  ∃ bc0 req0 w0,
    network w0 = network w ∧ sent w0 = sent w
    ∧ Do bc req options w =
        match Client_do checkRedirect maxRoundTrips [] req0 bc0 w0 with
        | Some (Err err, bc, w) => (Err err, bc, w)
        | Some (Ok resp, bc, w) =>
            (Ok resp, updateHistory bc (URL_String (req_URL req0)), w)
        | None =>
            (Err (errorString "net/http: round trip budget exhausted"), bc0, w0)
        end.
Proof.
  unfold Do.
  match goal with |- context [BuildHeaders ?a ?b ?c] =>
    pose proof (BuildHeaders_world a b c) as (Hn & Hs & _) end.
  destruct (BuildHeaders _ req w) as [req1 w1]. simpl in Hn, Hs.
  match goal with |- context [range ?l w1] =>
    pose proof (range_world l w1) as (Hn' & Hs') end.
  destruct (range _ w1) as [entries w2]. simpl in Hn', Hs'.
  eexists _, _, w2. split; [congruence|]. split; [congruence|]. reflexivity.
Qed.

(** [Do] never runs out of round trips. *)
Lemma Do_total `{GoLib} bc req options w :
  (Do bc req options w).1.1
  ≠ Err (errorString "net/http: round trip budget exhausted").
Proof.
  destruct (Do_unfold bc req options w) as (bc0 & req0 & w0 & _ & _ & ->).
  destruct (Client_do_checkRedirect_total maxRoundTrips [] req0 bc0 w0)
    as [[[res bc'] w'] Hdo]; [simpl; unfold maxRoundTrips; lia
                             |unfold maxRoundTrips; lia|].
  pose proof Hdo as Hdo'. rewrite Hdo. destruct res as [resp|e]; [done|].
  simpl. intros [= ->].
  clear Hdo. revert Hdo'. unfold maxRoundTrips.
  generalize 10%nat ([] : list Request) req0 bc0 w0.
  intros fuel. induction fuel as [|fuel IH]; intros reqs req1 bc1 w1;
    [discriminate|].
  rewrite Client_do_S. cbv zeta. destruct (roundTrip req1 w1) as [[e|resp] w2];
    [discriminate|].
  destruct (redirect resp) as [[method loc]|]; [|discriminate].
  destruct (checkRedirect _ _ _ _) as [[[err next] bc2] w3].
  destruct err as [e|]; [destruct e; discriminate|]. apply IH.
Qed.

Lemma Do_follows `{GoLib} bc req options w n final :
  (n ≤ 9)%nat → redirects w n → answers w n final → redirect final = None →
  (Do bc req options w).1.1 = Ok final
  ∧ sent (Do bc req options w).2 = (sent w + n + 1)%nat.
Proof.
  intros Hn Hr Ha Hfin.
  destruct (Do_unfold bc req options w) as (bc0 & req0 & w0 & Hnet & Hs & ->).
  destruct (Client_do_follows n maxRoundTrips [] req0 bc0 w0 final)
    as (bc' & w' & -> & Hs').
  - simpl. lia.
  - unfold maxRoundTrips. lia.
  - intros k r Hk. rewrite Hnet, Hs. by apply Hr.
  - intros r. rewrite Hnet, Hs. apply Ha.
  - exact Hfin.
  - simpl. split; [reflexivity|lia].
Qed.

Lemma Do_stops `{GoLib} bc req options w :
  redirects w 10 →
  ∃ op loc,
    (Do bc req options w).1.1 =
      Err (urlError op loc (errorString "stopped after 10 redirects"))
    ∧ sent (Do bc req options w).2 = (sent w + 10)%nat.
Proof.
  intros Hr.
  destruct (Do_unfold bc req options w) as (bc0 & req0 & w0 & Hnet & Hs & ->).
  destruct (Client_do_stops 9 maxRoundTrips [] req0 bc0 w0)
    as (op & loc & bc' & w' & -> & Hs').
  - reflexivity.
  - unfold maxRoundTrips. lia.
  - intros k r Hk. rewrite Hnet, Hs. by apply Hr.
  - exists op, loc. simpl. split; [reflexivity|lia].
Qed.

Lemma chainNet_redirects seed n final m :
  (m ≤ n)%nat → redirects (worldWith seed (chainNet n final)) m.
Proof.
  intros Hm k req Hk. unfold worldWith, chainNet. simpl.
  destruct (Nat.ltb_spec k n); [|lia]. eexists. split; [reflexivity|].
  by eexists.
Qed.

Lemma chainNet_answers seed n final :
  answers (worldWith seed (chainNet n final)) n final.
Proof.
  intros req. unfold worldWith, chainNet. simpl.
  destruct (Nat.ltb_spec n n); [lia|reflexivity].
Qed.

(** C3, as the code has it. Whatever the options of the call, a request
    that the server redirects at most 9 times completes with the final
    response, after the initial request and one request per redirect (at
    most 10 requests); a request that is redirected 10 times fails when the
    tenth redirect is checked, after 10 requests, with the explicit error
    "stopped after 10 redirects" - and so does every longer chain. *)
Theorem redirect_limit `{GoLib} (bc : BrowserClient) (req : Request)
    (options : list RequestOptions) (w : World) :
  (∀ n final,
      (n ≤ 9)%nat → redirects w n → answers w n final →
      redirect final = None →
      (Do bc req options w).1.1 = Ok final
      ∧ sent (Do bc req options w).2 = (sent w + n + 1)%nat)
  ∧ (redirects w 10 →
     ∃ op loc,
       (Do bc req options w).1.1 =
         Err (urlError op loc (errorString "stopped after 10 redirects"))
       ∧ sent (Do bc req options w).2 = (sent w + 10)%nat).
Proof.
  split.
  - intros n final. apply Do_follows.
  - apply Do_stops.
Qed.

Lemma redirect_limit_witness :
  let bc := newClient (exampleProfile chromeUA) exampleConfig in
  let req := mkRequest "GET" (mkURL "http://example.com/" "/") ∅ in
  (@Do exampleLib bc req []
       (worldWith (λ _, O) (chainNet 9 (okResponse 200)))).1.1
  = Ok (okResponse 200)
  ∧ ∃ op loc,
      (@Do exampleLib bc req []
           (worldWith (λ _, O) (chainNet 10 (okResponse 200)))).1.1
      = Err (urlError op loc (errorString "stopped after 10 redirects")).
Proof.
  cbv zeta. split.
  - apply (proj1 (@redirect_limit exampleLib
                    (newClient (exampleProfile chromeUA) exampleConfig)
                    (mkRequest "GET" (mkURL "http://example.com/" "/") ∅) []
                    (worldWith (λ _, O) (chainNet 9 (okResponse 200))))
                 9%nat (okResponse 200)).
    + lia.
    + apply chainNet_redirects. lia.
    + apply chainNet_answers.
    + reflexivity.
  - destruct (proj2 (@redirect_limit exampleLib
                    (newClient (exampleProfile chromeUA) exampleConfig)
                    (mkRequest "GET" (mkURL "http://example.com/" "/") ∅) []
                    (worldWith (λ _, O) (chainNet 10 (okResponse 200)))))
      as (op & loc & Hres & _).
    + apply chainNet_redirects. lia.
    + exists op, loc. exact Hres.
Defined.

(** C3, as stated, fails: a chain of exactly 10 redirects that ends in a
    response 200 does not complete; the tenth redirect is refused. *)
Lemma ten_redirects_fail :
  let bc := newClient (exampleProfile chromeUA) exampleConfig in
  let req := mkRequest "GET" (mkURL "http://example.com/" "/") ∅ in
  let '(res, _, w') :=
    @Do exampleLib bc req []
        (worldWith (λ _, O) (chainNet 10 (okResponse 200))) in
  res = Err (urlError "Get" "http://example.com/hop9"
                      (errorString "stopped after 10 redirects"))
  ∧ res ≠ Ok (okResponse 200)
  ∧ sent w' = 10%nat.
Proof. vm_compute. repeat split. discriminate. Qed.

(** ** The per-call redirect options *)

Lemma mergeOptions_withRedirects bc o rest f m :
  let a := mergeOptions bc (o :: rest) in
  let b := mergeOptions bc (withRedirects o f m :: rest) in
  Headers b = Headers a ∧ IsNavigate b = IsNavigate a
  ∧ Referrer b = Referrer a ∧ Origin b = Origin a.
Proof.
  unfold mergeOptions, withRedirects. cbn.
  destruct (last (history bc)); [|by repeat split].
  destruct (String.eqb _ ""); by repeat split.
Qed.

(** The merged options do carry the two fields of the call. *)
Lemma mergeOptions_keeps_redirect_fields bc o rest :
  FollowRedirects (mergeOptions bc (o :: rest)) = FollowRedirects o
  ∧ MaxRedirects (mergeOptions bc (o :: rest)) =
      if 0 <? MaxRedirects o then MaxRedirects o else 10.
Proof.
  unfold mergeOptions. cbn.
  destruct (last (history bc)); [|by split].
  destruct (String.eqb _ ""); by split.
Qed.

(** C10. [Do] reads neither [FollowRedirects] nor [MaxRedirects]: two
    calls whose options differ in these two fields only return the same
    result and leave the same client and the same world. Whatever their
    values, up to 9 redirects are followed and the tenth is refused. *)
Theorem Do_ignores_redirect_options `{GoLib} (bc : BrowserClient)
    (req : Request) (o : RequestOptions) (rest : list RequestOptions)
    (followRedirects : bool) (maxRedirects : Z) (w : World) :
  Do bc req (withRedirects o followRedirects maxRedirects :: rest) w
  = Do bc req (o :: rest) w
  ∧ (∀ n final,
       (n ≤ 9)%nat → redirects w n → answers w n final →
       redirect final = None →
       (Do bc req (withRedirects o followRedirects maxRedirects :: rest) w).1.1
       = Ok final)
  ∧ (redirects w 10 →
     ∃ op loc,
       (Do bc req (withRedirects o followRedirects maxRedirects :: rest) w).1.1
       = Err (urlError op loc (errorString "stopped after 10 redirects"))).
Proof.
  split; [|split].
  - destruct (mergeOptions_withRedirects bc o rest followRedirects maxRedirects)
      as (Hh & Hn & Hr & Ho).
    unfold Do. rewrite Hh, Hn, Hr, Ho. reflexivity.
  - intros n final Hn Hr Ha Hfin. by eapply Do_follows.
  - intros Hr. destruct (Do_stops bc req
      (withRedirects o followRedirects maxRedirects :: rest) w Hr)
      as (op & loc & Hres & _). by exists op, loc.
Qed.

Lemma Do_ignores_redirect_options_witness :
  let bc := newClient (exampleProfile chromeUA) exampleConfig in
  let req := mkRequest "GET" (mkURL "http://example.com/" "/") ∅ in
  let o := mkRequestOptions None true "" "" true 10 in
  (@Do exampleLib bc req [withRedirects o false 1]
       (worldWith (λ _, O) (chainNet 9 (okResponse 200)))).1.1
  = Ok (okResponse 200).
Proof.
  cbv zeta.
  apply (proj1 (proj2 (@Do_ignores_redirect_options exampleLib
           (newClient (exampleProfile chromeUA) exampleConfig)
           (mkRequest "GET" (mkURL "http://example.com/" "/") ∅)
           (mkRequestOptions None true "" "" true 10) [] false 1
           (worldWith (λ _, O) (chainNet 9 (okResponse 200)))))
         9%nat (okResponse 200)).
  - lia.
  - apply chainNet_redirects. lia.
  - apply chainNet_answers.
  - reflexivity.
Defined.

(** ** The stream reader *)

Lemma append_cons (c : ascii) (s t : string) :
  String c s +:+ t = String c (s +:+ t).
Proof. reflexivity. Qed.

Lemma append_nil_l (s : string) : "" +:+ s = s.
Proof. reflexivity. Qed.

Lemma append_nil_r (s : string) : s +:+ "" = s.
Proof. induction s as [|c s IH]; [reflexivity|]. by rewrite append_cons, IH. Qed.

Lemma append_assoc (s t u : string) : (s +:+ t) +:+ u = s +:+ (t +:+ u).
Proof.
  induction s as [|c s IH]; [reflexivity|]. by rewrite !append_cons, IH.
Qed.

Lemma length_append (s t : string) :
  String.length (s +:+ t) = (String.length s + String.length t)%nat.
Proof.
  induction s as [|c s IH]; [reflexivity|].
  rewrite append_cons. simpl. by rewrite IH.
Qed.

Lemma cut_line_append (s t l rest : string) :
  cut_line s = Some (l, rest) → cut_line (s +:+ t) = Some (l, rest +:+ t).
Proof.
  revert l rest. induction s as [|c s IH]; intros l rest; [discriminate|].
  rewrite append_cons. simpl. destruct (Ascii.eqb c newline).
  - by intros [= <- <-].
  - destruct (cut_line s) as [[l' rest']|]; [|discriminate].
    intros [= <- <-]. by rewrite (IH l' rest').
Qed.

Lemma cut_line_Some (s l rest : string) :
  cut_line s = Some (l, rest) →
  s = l +:+ rest ∧ l ≠ "" ∧ (String.length rest < String.length s)%nat.
Proof.
  revert l rest. induction s as [|c s IH]; intros l rest; [discriminate|].
  simpl. destruct (Ascii.eqb c newline).
  - intros [= <- <-]. repeat split; [done|]. simpl. lia.
  - destruct (cut_line s) as [[l' rest']|]; [|discriminate].
    intros [= <- <-]. destruct (IH l' rest' eq_refl) as (-> & _ & Hlen).
    repeat split; [done|]. simpl. lia.
Qed.

Lemma lines_from_cut (s cur l rest : string) :
  cut_line s = Some (l, rest) →
  lines_from s cur = (cur +:+ l) :: linesOf rest.
Proof.
  revert cur l rest. induction s as [|c s IH]; intros cur l rest;
    [discriminate|].
  simpl. destruct (Ascii.eqb c newline).
  - by intros [= <- <-].
  - destruct (cut_line s) as [[l' rest']|]; [|discriminate].
    intros [= <- <-]. rewrite (IH _ l' rest' eq_refl).
    by rewrite append_assoc.
Qed.

Lemma lines_from_nocut (s cur : string) :
  cut_line s = None →
  lines_from s cur = if String.eqb (cur +:+ s) "" then [] else [cur +:+ s].
Proof.
  revert cur. induction s as [|c s IH]; intros cur.
  - by rewrite append_nil_r.
  - simpl. destruct (Ascii.eqb c newline); [discriminate|].
    destruct (cut_line s) as [[l' rest']|]; [discriminate|].
    intros _. rewrite IH by done. by rewrite append_assoc.
Qed.

Lemma linesOf_cut (s l rest : string) :
  cut_line s = Some (l, rest) → linesOf s = l :: linesOf rest.
Proof. intros H. unfold linesOf at 1. by rewrite (lines_from_cut s "" l rest). Qed.

Lemma linesOf_nocut (s : string) :
  cut_line s = None → linesOf s = if String.eqb s "" then [] else [s].
Proof. intros H. unfold linesOf. by rewrite lines_from_nocut. Qed.

Lemma readStringFrom_eq rd buf perr count :
  readStringFrom rd buf perr count =
    match cut_line buf with
    | Some (line, rest) => (line, None, mkBufReader rd rest perr count)
    | None =>
        match perr with
        | Some e => (buf, Some e, mkBufReader rd EmptyString None count)
        | None =>
            match rd with
            | [] => (buf, Some io_EOF, mkBufReader [] EmptyString None count)
            | r :: rd' =>
                readStringFrom rd' (buf +:+ data r) (rerr r)
                               (count + Z.of_nat (String.length (data r)))
            end
        end
    end.
Proof. destruct rd; reflexivity. Qed.

(** [ReadString] hands out the next line of what remains, or all of it
    together with the error when no newline is left. *)
Lemma readStringFrom_spec rd buf perr count :
  let '(text, e) := remaining rd buf perr in
  let '(line, err, b) := readStringFrom rd buf perr count in
  count ≤ countingBytesRead b
  ∧ match cut_line text with
    | Some (l, rest) =>
        line = l ∧ err = None
        ∧ remaining (b_rd b) (b_buf b) (b_err b) = (rest, e)
    | None => line = text ∧ err = Some e
    end.
Proof.
  revert buf perr count. induction rd as [|r rd IH]; intros buf perr count.
  - rewrite readStringFrom_eq. unfold remaining. simpl pending.
    destruct (cut_line buf) as [[l rest]|] eqn:Hcut.
    + destruct perr as [e|]; rewrite ?append_nil_r, ?Hcut;
        (split; [simpl; lia|]); repeat split; simpl;
        by rewrite ?append_nil_r.
    + destruct perr as [e|]; rewrite ?append_nil_r, ?Hcut;
        (split; [simpl; lia|]); by repeat split.
  - rewrite readStringFrom_eq. unfold remaining. simpl pending.
    destruct (cut_line buf) as [[l rest]|] eqn:Hcut.
    + destruct perr as [e|].
      * rewrite Hcut. split; [simpl; lia|]. by repeat split.
      * simpl. destruct (rerr r) as [e|]; [|destruct (pending rd) as [t e]];
          rewrite (cut_line_append _ _ _ _ Hcut);
          (split; [lia|]); repeat split; reflexivity.
    + destruct perr as [e|].
      * rewrite Hcut. split; [simpl; lia|]. by repeat split.
      * specialize (IH (buf +:+ data r) (rerr r)
                       (count + Z.of_nat (String.length (data r)))).
        unfold remaining in IH.
        destruct (rerr r) as [e|].
        -- destruct (readStringFrom _ _ _ _) as [[line err] b].
           destruct IH as [Hc IH]. split; [lia|exact IH].
        -- destruct (pending rd) as [t e]. rewrite append_assoc in IH.
           destruct (readStringFrom _ _ _ _) as [[line err] b].
           destruct IH as [Hc IH]. split; [lia|exact IH].
Qed.

Lemma streamLoop_S config fuel b content :
  streamLoop config (S fuel) b content =
    if (0 <? MaxBytes config) && (MaxBytes config <=? countingBytesRead b)
    then Some (Ok (mkStreamResult (countingBytesRead b) content false))
    else
      let '(line, err, b) := ReadString b in
      let content :=
        if String.eqb line "" then content else content +:+ line in
      if negb (String.eqb line "")
         && negb (String.eqb (StopOnContent config) "")
         && strings_Contains line (StopOnContent config)
      then Some (Ok (mkStreamResult (countingBytesRead b) content true))
      else
        match err with
        | Some e =>
            if is_EOF e
            then Some (Ok (mkStreamResult (countingBytesRead b) content false))
            else Some (Err e)
        | None => streamLoop config fuel b content
        end.
Proof. reflexivity. Qed.

Lemma prefixed_prefixed a b r :
  prefixed a (prefixed b r) = prefixed (a +:+ b) r.
Proof. destruct r as [[s f]|e]; simpl; by rewrite ?append_assoc. Qed.

Lemma expected_cut stop text e l rest :
  cut_line text = Some (l, rest) →
  expected stop text e =
    if hit stop l then Ok (l, true) else prefixed l (expected stop rest e).
Proof.
  intros Hcut. unfold expected. rewrite (linesOf_cut _ _ _ Hcut). simpl.
  destruct (cut_line_Some _ _ _ Hcut) as (-> & _ & _).
  destruct (hit stop l); [reflexivity|].
  destruct (throughFirstHit stop (linesOf rest)); [reflexivity|].
  by destruct (is_EOF e).
Qed.

Lemma expected_nocut stop text e :
  cut_line text = None →
  expected stop text e =
    if negb (String.eqb text "") && hit stop text then Ok (text, true)
    else if is_EOF e then Ok (text, false) else Err e.
Proof.
  intros Hcut. unfold expected. rewrite (linesOf_nocut _ Hcut).
  destruct (String.eqb text ""); simpl; [reflexivity|].
  by destruct (hit stop text).
Qed.

Lemma ceilingStop_cut config content text l rest r :
  cut_line text = Some (l, rest) → hit (StopOnContent config) l = false →
  ceilingStop config (content +:+ l) rest r → ceilingStop config content text r.
Proof.
  intros Hcut Hhit (Hmax & k & x & -> & Hf & Hc & Hno & Hb).
  split; [exact Hmax|]. exists (S k), x.
  rewrite (linesOf_cut _ _ _ Hcut). unfold joinedTake in *. simpl.
  rewrite Hhit, Hno, Hc, append_assoc. by repeat split.
Qed.

(** The loop returns what is expected of the text that remains, unless it
    stops at the byte ceiling, between two lines. *)
Lemma streamLoop_spec config fuel b content :
  let '(text, e) := remaining (b_rd b) (b_buf b) (b_err b) in
  (String.length text < fuel)%nat →
  ∃ res, streamLoop config fuel b content = Some res
         ∧ (outcome res = prefixed content (expected (StopOnContent config) text e)
            ∨ ceilingStop config content text res).
Proof.
  revert b content. induction fuel as [|fuel IH]; intros b content.
  { destruct (remaining _ _ _). lia. }
  pose proof (readStringFrom_spec (b_rd b) (b_buf b) (b_err b)
                (countingBytesRead b)) as Hrs.
  destruct (remaining _ _ _) as [text e]. intros Hlen.
  rewrite streamLoop_S.
  destruct ((0 <? MaxBytes config) && (MaxBytes config <=? countingBytesRead b))
    eqn:Hceil.
  { apply andb_true_iff in Hceil as [H0%Z.ltb_lt Hm%Z.leb_le].
    eexists. split; [reflexivity|]. right. split; [exact H0|].
    exists O, (mkStreamResult (countingBytesRead b) content false).
    unfold joinedTake. simpl. rewrite append_nil_r. by repeat split. }
  unfold ReadString.
  destruct (readStringFrom _ _ _ _) as [[line err] b'].
  destruct Hrs as [Hcount Hrs].
  destruct (cut_line text) as [[l rest]|] eqn:Hcut.
  - destruct Hrs as (-> & -> & Hrem).
    destruct (cut_line_Some _ _ _ Hcut) as (Htext & Hl & Hrest).
    apply String.eqb_neq in Hl. rewrite Hl. simpl negb. rewrite andb_true_l.
    rewrite (expected_cut _ _ _ _ _ Hcut).
    fold (hit (StopOnContent config) l).
    destruct (hit (StopOnContent config) l) eqn:Hhit.
    + eexists. split; [reflexivity|]. left. reflexivity.
    + specialize (IH b' (content +:+ l)). rewrite Hrem in IH.
      destruct IH as (res & -> & Hres); [lia|].
      exists res. split; [reflexivity|]. destruct Hres as [Hres|Hres].
      * left. by rewrite Hres, prefixed_prefixed.
      * right. by eapply ceilingStop_cut.
  - destruct Hrs as (-> & ->). rewrite (expected_nocut _ _ _ Hcut).
    unfold hit. rewrite <- andb_assoc.
    destruct (String.eqb_spec text "") as [->|Hne]; simpl.
    + destruct (is_EOF e); eexists; (split; [reflexivity|]); left; simpl;
        by rewrite ?append_nil_r.
    + destruct (negb (String.eqb (StopOnContent config) "")
                && strings_Contains text (StopOnContent config)).
      * eexists. split; [reflexivity|]. by left.
      * destruct (is_EOF e); eexists; (split; [reflexivity|]); by left.
Qed.

Lemma pending_length (r : Reader) :
  (String.length (pending r).1 ≤ readerSize r)%nat.
Proof.
  induction r as [|x r IH]; simpl; [lia|].
  destruct (rerr x); simpl; [lia|].
  destruct (pending r) as [t e]. simpl in *. rewrite length_append. lia.
Qed.

Lemma expected_Ok_true stop text e c :
  expected stop text e = Ok (c, true) →
  throughFirstHit stop (linesOf text) = Some c.
Proof.
  unfold expected. destruct (throughFirstHit _ _); [by intros [= ->]|].
  by destruct (is_EOF e).
Qed.

Lemma expected_Err stop text e err :
  expected stop text e = Err err →
  err = e ∧ is_EOF e = false ∧ throughFirstHit stop (linesOf text) = None.
Proof.
  unfold expected. destruct (throughFirstHit _ _); [discriminate|].
  destruct (is_EOF e); [discriminate|]. by intros [= ->].
Qed.

(** [StreamResponse] always returns. *)
Lemma StreamResponse_total `{GoLib} resp config :
  is_Some (StreamResponse resp config).
Proof.
  unfold StreamResponse. destruct (getResponseReader resp) as [reader|err];
    [|by eexists].
  pose proof (pending_length reader) as Hlen.
  match goal with |- context [streamLoop ?c ?f ?b ?s] =>
    pose proof (streamLoop_spec c f b s) as Hloop end.
  unfold remaining in Hloop. cbn [b_rd b_buf b_err] in Hloop.
  destruct (pending reader) as [text e]. cbn [fst] in Hlen.
  change ("" +:+ text) with text in Hloop.
  destruct Hloop as (res & -> & _); [lia|]. by eexists.
Qed.

(** A stop-substring without a newline occurs in a text exactly when it
    occurs in one of its lines: for such substrings, looking at the line
    just read is looking at the content accumulated so far. *)
Lemma HasPrefix_cons c s p q :
  strings_HasPrefix (String c s) (String p q) =
    if Ascii.eqb c p then strings_HasPrefix s q else false.
Proof. reflexivity. Qed.

Lemma Contains_cons c s sub :
  strings_Contains (String c s) sub =
    strings_HasPrefix (String c s) sub || strings_Contains s sub.
Proof. reflexivity. Qed.

Lemma cut_line_cons c s :
  cut_line (String c s) =
    if Ascii.eqb c newline then Some (String c EmptyString, s)
    else match cut_line s with
         | Some (l, rest) => Some (String c l, rest)
         | None => None
         end.
Proof. reflexivity. Qed.

Lemma HasPrefix_cut (stop text l rest : string) :
  noNewline stop = true → cut_line text = Some (l, rest) →
  strings_HasPrefix text stop = strings_HasPrefix l stop.
Proof.
  revert stop l rest. induction text as [|c text IH]; intros stop l rest Hno;
    [discriminate|].
  rewrite cut_line_cons. destruct stop as [|p stop].
  { destruct (Ascii.eqb c newline); [by intros [= <- <-]|].
    destruct (cut_line text) as [[? ?]|]; [by intros [= <- <-]|discriminate]. }
  unfold noNewline in Hno. cbn [string_forallb] in Hno.
  apply andb_true_iff in Hno as [Hp Hno]. apply negb_true_iff in Hp.
  destruct (Ascii.eqb_spec c newline) as [->|Hc].
  - intros [= <- <-]. rewrite !HasPrefix_cons, Ascii.eqb_sym, Hp. reflexivity.
  - destruct (cut_line text) as [[l' rest']|] eqn:Hcut; [|discriminate].
    intros [= <- <-]. rewrite !HasPrefix_cons.
    destruct (Ascii.eqb c p); [|reflexivity]. by eapply IH.
Qed.

Lemma Contains_cut (stop text l rest : string) :
  noNewline stop = true → stop ≠ "" → cut_line text = Some (l, rest) →
  strings_Contains text stop =
    strings_Contains l stop || strings_Contains rest stop.
Proof.
  intros Hno Hne. revert l rest.
  induction text as [|c text IH]; intros l rest Hcut; [discriminate|].
  pose proof (HasPrefix_cut stop _ _ _ Hno Hcut) as Hpre.
  rewrite cut_line_cons in Hcut. rewrite Contains_cons, Hpre.
  destruct (Ascii.eqb c newline).
  - injection Hcut as <- <-. rewrite Contains_cons.
    destruct stop as [|p stop]; [done|].
    cbn [strings_Contains strings_HasPrefix]. by rewrite !orb_false_r.
  - destruct (cut_line text) as [[l' rest']|]; [|discriminate].
    injection Hcut as <- <-. rewrite (IH l' rest' eq_refl).
    rewrite (Contains_cons c l'). by rewrite orb_assoc.
Qed.

Lemma Contains_lines (stop text : string) :
  noNewline stop = true → stop ≠ "" →
  strings_Contains text stop = existsb (hit stop) (linesOf text).
Proof.
  intros Hno Hne.
  assert (Hhit : ∀ l, hit stop l = strings_Contains l stop).
  { intros l. unfold hit. by destruct (String.eqb_spec stop ""). }
  remember (String.length text) as n eqn:Hn. revert text Hn.
  induction n as [n IH] using lt_wf_ind. intros text ->.
  destruct (cut_line text) as [[l rest]|] eqn:Hcut.
  - rewrite (Contains_cut _ _ _ _ Hno Hne Hcut), (linesOf_cut _ _ _ Hcut).
    simpl. rewrite Hhit. f_equal.
    destruct (cut_line_Some _ _ _ Hcut) as (_ & _ & Hlen).
    by eapply IH.
  - rewrite (linesOf_nocut _ Hcut).
    destruct (String.eqb_spec text "") as [->|_]; simpl.
    + destruct stop; [done|reflexivity].
    + by rewrite Hhit, orb_false_r.
Qed.

Lemma throughFirstHit_Some (stop : string) (ls : list string) :
  is_Some (throughFirstHit stop ls) ↔ existsb (hit stop) ls = true.
Proof.
  induction ls as [|l ls IH]; simpl.
  - split; [intros [c Hc]; discriminate Hc|discriminate].
  - destruct (hit stop l); simpl.
    + split; [reflexivity|]. intros _. by exists l.
    + rewrite <- IH. destruct (throughFirstHit stop ls) as [c|].
      * split; intros _; by eexists.
      * split; intros [c Hc]; discriminate Hc.
Qed.

(** For a stop-substring without a newline, some line fires exactly when
    the text contains the substring. *)
Lemma found_iff_observed (stop text : string) :
  noNewline stop = true → stop ≠ "" →
  is_Some (throughFirstHit stop (linesOf text))
  ↔ strings_Contains text stop = true.
Proof.
  intros Hno Hne. by rewrite throughFirstHit_Some, Contains_lines.
Qed.

(** The content and the flag of the result, or its error. Unless the byte
    ceiling stops the reader, they are those expected of the text: the text
    through the first line that contains the stop-substring, found; the
    whole text at end-of-stream; the read error otherwise. A stop at the
    ceiling is a success with the lines read so far. *)
Lemma StreamResponse_outcome `{GoLib} (resp : Response) (config : StreamConfig) :
  match getResponseReader resp with
  | inr err => StreamResponse resp config = Some (Err err)
  | inl reader =>
      let '(text, e) := pending reader in
      let stop := StopOnContent config in
      ∃ res, StreamResponse resp config = Some res
        ∧ (outcome res = expected stop text e ∨ ceilingStop config "" text res)
        ∧ (MaxBytes config ≤ 0 → outcome res = expected stop text e)
        ∧ (∀ x, res = Ok x → FoundContent x = true →
                throughFirstHit stop (linesOf text) = Some (Content x))
        ∧ (∀ err, res = Err err →
                  err = e ∧ is_EOF e = false
                  ∧ throughFirstHit stop (linesOf text) = None)
  end.
Proof.
  unfold StreamResponse. destruct (getResponseReader resp) as [reader|err];
    [|reflexivity].
  set (config' := if BufferSize config <=? 0 then _ else config).
  assert (Hstop : StopOnContent config' = StopOnContent config)
    by (unfold config'; by destruct (BufferSize config <=? 0)).
  assert (Hmax : MaxBytes config' = MaxBytes config)
    by (unfold config'; by destruct (BufferSize config <=? 0)).
  pose proof (pending_length reader) as Hlen.
  pose proof (streamLoop_spec config' (S (readerSize reader))
                (mkBufReader reader "" None 0) "") as Hloop.
  unfold remaining in Hloop. cbn [b_rd b_buf b_err] in Hloop.
  destruct (pending reader) as [text e]. cbn [fst] in Hlen.
  change ("" +:+ text) with text in Hloop.
  destruct Hloop as (res & Hres & Hspec); [lia|].
  exists res. split; [exact Hres|]. rewrite Hstop in Hspec.
  assert (Hspec' : outcome res = expected (StopOnContent config) text e
                   ∨ ceilingStop config "" text res).
  { destruct Hspec as [Ho|(H0 & k & x & Hc)].
    - left. rewrite Ho. by destruct (expected _ _ _) as [[? ?]|?].
    - right. split; [lia|]. exists k, x. rewrite <- Hstop, <- Hmax. exact Hc. }
  split; [exact Hspec'|]. repeat split.
  - intros Hle. destruct Hspec' as [Ho|[H0 _]]; [exact Ho|lia].
  - intros x -> Hfound. destruct Hspec' as [Ho|(_ & k & y & [= <-] & Hf & _)].
    + apply (expected_Ok_true _ _ e). rewrite <- Ho. simpl. by rewrite Hfound.
    + congruence.
  - destruct Hspec' as [Ho|(_ & k & y & Hy & _)]; [|subst; discriminate].
    subst res. by apply (expected_Err _ _ _ _ (eq_sym Ho)).
  - destruct Hspec' as [Ho|(_ & k & y & Hy & _)]; [|subst; discriminate].
    subst res. by apply (expected_Err _ _ _ _ (eq_sym Ho)).
  - destruct Hspec' as [Ho|(_ & k & y & Hy & _)]; [|subst; discriminate].
    subst res. by apply (expected_Err _ _ _ _ (eq_sym Ho)).
Qed.

(** ** The byte counter and the first trigger *)

Lemma countNewlines_append (s t : string) :
  countNewlines (s +:+ t) = (countNewlines s + countNewlines t)%nat.
Proof.
  induction s as [|c s IH]; [reflexivity|].
  rewrite append_cons. cbn [countNewlines]. rewrite IH. lia.
Qed.

Lemma cut_line_newlines (s : string) :
  match cut_line s with
  | Some (l, rest) => countNewlines s = S (countNewlines rest)
  | None => countNewlines s = O
  end.
Proof.
  induction s as [|c s IH]; [reflexivity|].
  rewrite cut_line_cons. cbn [countNewlines].
  destruct (Ascii.eqb c newline); [reflexivity|].
  destruct (cut_line s) as [[l rest]|]; exact IH.
Qed.

Lemma counterAfter_eq rd have perr count j :
  counterAfter rd have perr count j =
    if (j <=? have)%nat then count
    else match perr with
         | Some _ => count
         | None =>
             match rd with
             | [] => count
             | r :: rd' =>
                 counterAfter rd' (have + countNewlines (data r))%nat (rerr r)
                              (count + Z.of_nat (String.length (data r))) j
             end
         end.
Proof. destruct rd; reflexivity. Qed.

Lemma counterAfter_S rd have perr count j :
  counterAfter rd (S have) perr count (S j) = counterAfter rd have perr count j.
Proof.
  revert have perr count. induction rd as [|r rd IH]; intros have perr count;
    rewrite (counterAfter_eq _ (S have)), (counterAfter_eq _ have);
    change (S j <=? S have)%nat with (j <=? have)%nat;
    destruct (j <=? have)%nat; [reflexivity| |reflexivity|];
    destruct perr; try reflexivity.
  apply (IH (have + countNewlines (data r))%nat).
Qed.

(** After a line the counter is the one [counterAfter] gives for one line,
    and the counter after [j] more lines is the one after [j + 1]. *)
Lemma readStringFrom_counter rd buf perr count :
  let '(line, err, b) := readStringFrom rd buf perr count in
  match err with
  | None =>
      ∀ j, counterAfter rd (countNewlines buf) perr count (S j)
           = counterAfter (b_rd b) (countNewlines (b_buf b)) (b_err b)
                          (countingBytesRead b) j
  | Some _ =>
      ∀ j, counterAfter rd (countNewlines buf) perr count (S j)
           = countingBytesRead b
  end.
Proof.
  revert buf perr count. induction rd as [|r rd IH]; intros buf perr count;
    rewrite readStringFrom_eq; pose proof (cut_line_newlines buf) as Hnl;
    destruct (cut_line buf) as [[l rest]|] eqn:Hcut.
  - intros j. cbn [b_rd b_buf b_err countingBytesRead].
    rewrite Hnl. apply counterAfter_S.
  - destruct perr as [e|]; intros j; cbn [countingBytesRead];
      rewrite counterAfter_eq, Hnl; cbn [Nat.leb]; reflexivity.
  - intros j. cbn [b_rd b_buf b_err countingBytesRead].
    rewrite Hnl. apply counterAfter_S.
  - destruct perr as [e|].
    + intros j. cbn [countingBytesRead].
      rewrite counterAfter_eq, Hnl. cbn [Nat.leb]. reflexivity.
    + specialize (IH (buf +:+ data r) (rerr r)
                     (count + Z.of_nat (String.length (data r)))).
      destruct (readStringFrom _ _ _ _) as [[line err] b].
      rewrite countNewlines_append, Hnl in IH. cbn [Nat.add] in IH.
      destruct err as [e|]; intros j;
        rewrite (counterAfter_eq (r :: rd)), Hnl; cbn [Nat.leb Nat.add];
        apply IH.
Qed.

Lemma deliveries_from_cut (s cur l rest : string) (e : error) :
  cut_line s = Some (l, rest) →
  deliveries_from s cur e = (cur +:+ l, None) :: deliveries rest e.
Proof.
  revert cur l rest. induction s as [|c s IH]; intros cur l rest;
    [discriminate|].
  rewrite cut_line_cons. cbn [deliveries_from].
  destruct (Ascii.eqb c newline).
  - by intros [= <- <-].
  - destruct (cut_line s) as [[l' rest']|]; [|discriminate].
    intros [= <- <-]. rewrite (IH _ l' rest' eq_refl).
    by rewrite append_assoc.
Qed.

Lemma deliveries_from_nocut (s cur : string) (e : error) :
  cut_line s = None → deliveries_from s cur e = [(cur +:+ s, Some e)].
Proof.
  revert cur. induction s as [|c s IH]; intros cur.
  - by rewrite append_nil_r.
  - rewrite cut_line_cons. cbn [deliveries_from].
    destruct (Ascii.eqb c newline); [discriminate|].
    destruct (cut_line s) as [[l' rest']|]; [discriminate|].
    intros _. rewrite IH by done. by rewrite append_assoc.
Qed.

Lemma deliveries_cut (s l rest : string) (e : error) :
  cut_line s = Some (l, rest) →
  deliveries s e = (l, None) :: deliveries rest e.
Proof.
  intros H. unfold deliveries at 1.
  by rewrite (deliveries_from_cut s "" l rest).
Qed.

Lemma deliveries_nocut (s : string) (e : error) :
  cut_line s = None → deliveries s e = [(s, Some e)].
Proof. intros H. unfold deliveries. by rewrite deliveries_from_nocut. Qed.

Lemma hit_empty (stop : string) : hit stop "" = false.
Proof. unfold hit. by destruct stop. Qed.

(** The first trigger, one line further. *)
Lemma firstTrigger_cons maxBytes stop counter counter' ds e content l res :
  (∀ j, counter' j = counter (S j)) →
  ceilingReached maxBytes (counter O) = false →
  hit stop l = false →
  firstTrigger maxBytes stop counter' ds e (content +:+ l) res →
  firstTrigger maxBytes stop counter ((l, None) :: ds) e content res.
Proof.
  intros Hc Hceil Hhit (i & Hi & Hbefore & Hat).
  exists (S i). split; [cbn [length]; lia|]. split.
  - intros j line err Hj Hl. destruct j as [|j].
    + injection Hl as <- <-. by repeat split.
    + cbn in Hl. rewrite <- Hc. apply (Hbefore j line err); [lia|exact Hl].
  - cbn [fmap list_fmap take lookup list_lookup joined foldr fst].
    change (foldr String.append "" (take i (list_fmap _ _ fst ds)))
      with (joined (take i ds.*1)).
    rewrite <- !Hc.
    rewrite !append_assoc in Hat.
    destruct Hat as [[H1 H2]|(H1 & line & err & Hl & Hat)].
    + left. split; [exact H1|]. exact H2.
    + right. split; [exact H1|]. exists line, err. split; [exact Hl|].
      destruct Hat as [[H2 H3]|(H2 & H3 & H4)].
      * left. split; [exact H2|]. exact H3.
      * right. split; [exact H2|]. split; [exact H3|]. exact H4.
Qed.

(** The loop stops at the first trigger. *)
Lemma streamLoop_firstTrigger config fuel b content (counter : nat → Z) :
  (∀ j, counter j = counterAfter (b_rd b) (countNewlines (b_buf b)) (b_err b)
                                 (countingBytesRead b) j) →
  let '(text, e) := remaining (b_rd b) (b_buf b) (b_err b) in
  (String.length text < fuel)%nat →
  ∃ res, streamLoop config fuel b content = Some res
         ∧ firstTrigger (MaxBytes config) (StopOnContent config) counter
                        (deliveries text e) e content res.
Proof.
  revert b content counter.
  induction fuel as [|fuel IH]; intros b content counter Hcounter.
  { destruct (remaining _ _ _). lia. }
  pose proof (readStringFrom_spec (b_rd b) (b_buf b) (b_err b)
                (countingBytesRead b)) as Hrs.
  pose proof (readStringFrom_counter (b_rd b) (b_buf b) (b_err b)
                (countingBytesRead b)) as Hcnt.
  assert (Hc0 : counter O = countingBytesRead b).
  { rewrite Hcounter, counterAfter_eq. reflexivity. }
  destruct (remaining _ _ _) as [text e]. intros Hlen.
  rewrite streamLoop_S.
  fold (ceilingReached (MaxBytes config) (countingBytesRead b)).
  rewrite <- Hc0.
  destruct (ceilingReached (MaxBytes config) (counter O)) eqn:Hceil.
  { eexists. split; [reflexivity|]. exists O.
    split; [|split].
    - destruct (cut_line text) as [[l rest]|] eqn:Hcut;
        [rewrite (deliveries_cut _ _ _ _ Hcut)|rewrite (deliveries_nocut _ _ Hcut)];
        cbn [length]; lia.
    - intros j line err Hj. lia.
    - left. split; [exact Hceil|]. cbn [take joined foldr].
      by rewrite append_nil_r, Hc0. }
  unfold ReadString.
  destruct (readStringFrom _ _ _ _) as [[line err] b'].
  destruct Hrs as [_ Hrs].
  destruct (cut_line text) as [[l rest]|] eqn:Hcut.
  - destruct Hrs as (-> & -> & Hrem).
    rewrite (deliveries_cut _ _ _ _ Hcut).
    destruct (cut_line_Some _ _ _ Hcut) as (Htext & Hl & Hrest).
    apply String.eqb_neq in Hl. rewrite Hl. cbn [negb]. rewrite andb_true_l.
    fold (hit (StopOnContent config) l).
    assert (Hc1 : counter 1%nat = countingBytesRead b').
    { rewrite Hcounter, (Hcnt O), counterAfter_eq. reflexivity. }
    destruct (hit (StopOnContent config) l) eqn:Hhit.
    + eexists. split; [reflexivity|]. exists O.
      split; [cbn [length]; lia|]. split; [intros j ? ? Hj; lia|].
      right. split; [exact Hceil|]. exists l, None. split; [reflexivity|].
      left. split; [exact Hhit|]. cbn [fmap list_fmap take joined foldr fst].
      by rewrite append_nil_r, Hc1.
    + specialize (IH b' (content +:+ l) (λ j, counter (S j))).
      rewrite Hrem in IH.
      destruct IH as (res & -> & Hres); [|lia|].
      { intros j. rewrite Hcounter. apply Hcnt. }
      exists res. split; [reflexivity|].
      by eapply firstTrigger_cons.
  - destruct Hrs as (-> & ->). rewrite (deliveries_nocut _ _ Hcut).
    assert (Hc1 : counter 1%nat = countingBytesRead b').
    { rewrite Hcounter. apply Hcnt. }
    assert (Hcontent : (if String.eqb text "" then content
                        else content +:+ text) = content +:+ text).
    { destruct (String.eqb_spec text "") as [->|]; [|reflexivity].
      by rewrite append_nil_r. }
    rewrite Hcontent.
    assert (Hfire : negb (String.eqb text "")
                    && negb (String.eqb (StopOnContent config) "")
                    && strings_Contains text (StopOnContent config)
                    = hit (StopOnContent config) text).
    { destruct (String.eqb_spec text "") as [->|];
        [by rewrite hit_empty|reflexivity]. }
    rewrite Hfire.
    destruct (hit (StopOnContent config) text) eqn:Hhit.
    + eexists. split; [reflexivity|]. exists O.
      split; [cbn [length]; lia|]. split; [intros j ? ? Hj; lia|].
      right. split; [exact Hceil|]. exists text, (Some e).
      split; [reflexivity|]. left. split; [exact Hhit|].
      cbn [fmap list_fmap take joined foldr fst].
      by rewrite append_nil_r, Hc1.
    + exists (if is_EOF e
              then Ok (mkStreamResult (countingBytesRead b')
                         (content +:+ text) false)
              else Err e).
      split; [by destruct (is_EOF e)|]. exists O.
      split; [cbn [length]; lia|]. split; [intros j ? ? Hj; lia|].
      right. split; [exact Hceil|]. exists text, (Some e).
      split; [reflexivity|]. right. split; [exact Hhit|].
      split; [reflexivity|].
      cbn [fmap list_fmap joined foldr fst].
      by rewrite append_nil_r, Hc1.
Qed.

Lemma StreamResponse_firstTrigger `{GoLib} resp config reader :
  getResponseReader resp = inl reader →
  ∃ res, StreamResponse resp config = Some res
         ∧ stopsAtFirstTrigger config reader res.
Proof.
  intros Hreader. unfold StreamResponse, stopsAtFirstTrigger. rewrite Hreader.
  set (config' := if BufferSize config <=? 0 then _ else config).
  assert (Hstop : StopOnContent config' = StopOnContent config)
    by (unfold config'; by destruct (BufferSize config <=? 0)).
  assert (Hmax : MaxBytes config' = MaxBytes config)
    by (unfold config'; by destruct (BufferSize config <=? 0)).
  pose proof (pending_length reader) as Hlen.
  pose proof (streamLoop_firstTrigger config' (S (readerSize reader))
                (mkBufReader reader "" None 0) "" (bytesAfter reader)
                ltac:(reflexivity)) as Hloop.
  unfold remaining in Hloop. cbn [b_rd b_buf b_err] in Hloop.
  destruct (pending reader) as [text e]. cbn [fst snd] in *.
  change ("" +:+ text) with text in Hloop.
  destruct Hloop as (res & Hres & Hspec); [lia|].
  exists res. split; [exact Hres|]. by rewrite <- Hstop, <- Hmax.
Qed.

(** At most one result is that of a reader that stops at the first
    trigger. *)
Lemma firstTrigger_unique maxBytes stop counter ds e content res1 res2 :
  firstTrigger maxBytes stop counter ds e content res1 →
  firstTrigger maxBytes stop counter ds e content res2 →
  res1 = res2.
Proof.
  intros (i1 & Hi1 & Hb1 & Hat1) (i2 & Hi2 & Hb2 & Hat2).
  assert (Hstops : ∀ i res,
    (i < length ds)%nat →
    (ceilingReached maxBytes (counter i) = true
     ∧ res = Ok (mkStreamResult (counter i)
                   (content +:+ joined (take i ds.*1)) false))
    ∨ (ceilingReached maxBytes (counter i) = false
       ∧ ∃ line err,
           ds !! i = Some (line, err)
           ∧ ((hit stop line = true
               ∧ res = Ok (mkStreamResult (counter (S i))
                             (content +:+ joined (take (S i) ds.*1)) true))
              ∨ (hit stop line = false ∧ err = Some e
                 ∧ res = if is_EOF e
                         then Ok (mkStreamResult (counter (S i))
                                    (content +:+ joined ds.*1) false)
                         else Err e))) →
    ¬ (∃ line err, ds !! i = Some (line, err)
                   ∧ ceilingReached maxBytes (counter i) = false
                   ∧ hit stop line = false ∧ err = None)).
  { intros i res Hi Hat (line & err & Hl & Hc & Hh & He).
    destruct Hat as [[H1 _]|(_ & line' & err' & Hl' & Hat)]; [congruence|].
    rewrite Hl in Hl'. injection Hl' as <- <-.
    destruct Hat as [[H2 _]|(_ & H3 & _)]; congruence. }
  assert (Heq : i1 = i2).
  { destruct (Nat.lt_trichotomy i1 i2) as [Hlt|[Heq|Hgt]]; [|exact Heq|].
    - exfalso. apply (Hstops i1 res1 Hi1 Hat1).
      destruct (lookup_lt_is_Some_2 ds i1 Hi1) as [[line err] Hl].
      exists line, err. split; [exact Hl|]. by apply (Hb2 i1 line err).
    - exfalso. apply (Hstops i2 res2 Hi2 Hat2).
      destruct (lookup_lt_is_Some_2 ds i2 Hi2) as [[line err] Hl].
      exists line, err. split; [exact Hl|]. by apply (Hb1 i2 line err). }
  subst i2.
  destruct Hat1 as [[H1 ->]|(H1 & line & err & Hl & Hat1)],
           Hat2 as [[H2 ->]|(H2 & line' & err' & Hl' & Hat2)];
    [reflexivity|congruence|congruence|].
  rewrite Hl in Hl'. injection Hl' as <- <-.
  destruct Hat1 as [[H3 ->]|(H3 & _ & ->)], Hat2 as [[H4 ->]|(H4 & _ & ->)];
    congruence.
Qed.

(** C8, as the code has it. The reader takes the decompressed body line by
    line and stops at the first of its three triggers: the byte counter has
    reached the configured ceiling (tested before each line is read, on the
    bytes the reads have delivered so far), the line just read contains the
    stop-substring, or the stream ends. [stopsAtFirstTrigger] says so, and
    the result is the only one that satisfies it. When the stop-substring
    fires, FoundContent = true and Content is the text through the first
    line that contains it, inclusive; a stop at the ceiling is a success
    with the lines read so far; at end-of-stream the content is the whole
    text. An error is returned only for a read error other than
    end-of-stream met before any trigger (or for the error of the
    decompressor's constructor). Without a ceiling the content and the flag
    are those expected of the text. *)
Theorem StreamResponse_spec `{GoLib} (resp : Response) (config : StreamConfig) :
  match getResponseReader resp with
  | inr err => StreamResponse resp config = Some (Err err)
  | inl reader =>
      let '(text, e) := pending reader in
      let stop := StopOnContent config in
      ∃ res, StreamResponse resp config = Some res
        ∧ stopsAtFirstTrigger config reader res
        ∧ (∀ res', stopsAtFirstTrigger config reader res' → res' = res)
        ∧ (outcome res = expected stop text e ∨ ceilingStop config "" text res)
        ∧ (MaxBytes config ≤ 0 → outcome res = expected stop text e)
        ∧ (∀ x, res = Ok x → FoundContent x = true →
                throughFirstHit stop (linesOf text) = Some (Content x))
        ∧ (∀ err, res = Err err →
                  err = e ∧ is_EOF e = false
                  ∧ throughFirstHit stop (linesOf text) = None)
  end.
Proof.
  pose proof (StreamResponse_outcome resp config) as Hold.
  destruct (getResponseReader resp) as [reader|err] eqn:Hreader;
    [|exact Hold].
  destruct (StreamResponse_firstTrigger resp config reader Hreader)
    as (res0 & Hres0 & Hft).
  revert Hold. destruct (pending reader) as [text e]. cbv zeta.
  intros (res & Hres & H1 & H2 & H3 & H4).
  assert (res0 = res) as -> by congruence.
  exists res. split; [exact Hres|]. split; [exact Hft|]. split.
  - intros res' Hft'. exact (firstTrigger_unique _ _ _ _ _ _ _ _ Hft' Hft).
  - exact (conj H1 (conj H2 (conj H3 H4))).
Qed.

(** Three lines of four bytes that arrive in one read, and a ceiling of one
    byte: the ceiling is not reached before the first line, the read
    delivers all twelve bytes, and the reader stops before the second
    line. *)
Example ceiling_stops_after_first_line :
  @StreamResponse exampleLib
    (plainBody (ln "aaa" +:+ ln "bbb" +:+ ln "ccc")) (mkStreamConfig "" 0 1)
  = Some (Ok (mkStreamResult 12 (ln "aaa") false)).
Proof. reflexivity. Qed.


(** C8, as stated, fails: with the stop-substring "a\nb" the content
    accumulated after the second line of "a\nb\nc\n" contains the
    substring, yet the reader reads on to the end of the stream and reports
    FoundContent = false, because it looks for the substring in the line
    just read only. *)
Lemma stop_substring_across_lines :
  let stop := ln "a" +:+ "b" in
  let body := ln "a" +:+ ln "b" +:+ ln "c" in
  strings_Contains (ln "a" +:+ ln "b") stop = true
  ∧ @StreamResponse exampleLib (plainBody body) (mkStreamConfig stop 0 0)
    = Some (Ok (mkStreamResult 6 body false)).
Proof. vm_compute. split; reflexivity. Qed.

(** A stop-substring in the third line of a body read in pieces. *)
Example stop_in_third_line :
  @StreamResponse exampleLib
     (mkResponse 200 ∅
        [ mkReadResult (ln "one" +:+ "tw") None;
          mkReadResult (ln "o" +:+ "three ST") None;
          mkReadResult (ln "OP here" +:+ ln "four") None ] None)
     (mkStreamConfig "STOP" 0 0)
  = Some (Ok (mkStreamResult 29
                (ln "one" +:+ ln "two" +:+ ln "three STOP here") true)).
Proof. vm_compute. reflexivity. Qed.

(** ** The profile cache *)

(** Run without interruption, a goroutine's three steps are
    [GetThreadProfile]. *)
Lemma runSchedule_alone (threadID : Z) (c : Cache) (w : World) :
  runSchedule [0; 0; 0]%nat [AtLoad threadID] c w =
    let '(p, c', w') := GetThreadProfile threadID c w in
    ([Returned p], c', w').
Proof.
  unfold GetThreadProfile. simpl.
  destruct (Load threadID c) as [p|]; [reflexivity|]. simpl.
  destruct (allocProfile c w) as [[p c1] w1]. reflexivity.
Qed.

(** Lookups that do not overlap return the same cached pointer. *)
Lemma GetThreadProfile_cached (threadID : Z) (c : Cache) (w w2 : World) :
  let '(p, c1, _) := GetThreadProfile threadID c w in
  GetThreadProfile threadID c1 w2 = (p, c1, w2).
Proof.
  unfold GetThreadProfile.
  destruct (Load threadID c) as [p|] eqn:Hload.
  - by rewrite Hload.
  - destruct (allocProfile c w) as [[p c1] w1].
    unfold Load, Store. simpl. by rewrite lookup_insert_eq.
Qed.

(** C9 on the code. Two goroutines look up the identifier 7 in an empty
    cache and take their steps in turn: both [Load]s miss, both generate a
    profile, both [Store]. The two lookups return different pointers to
    different profiles, the cache keeps the second one, and a later lookup
    returns it: a profile other than the one the first caller was given. *)
Theorem GetThreadProfile_race :
  let w := worldWith (λ _, O) quietNet in
  let '(gs, c, w') := runSchedule alternate [AtLoad 7; AtLoad 7] emptyCache w in
  gs = [Returned 0%nat; Returned 1%nat]
  ∧ threadProfiles c !! 7 = Some 1%nat
  ∧ (GetThreadProfile 7 c w').1.1 = 1%nat
  ∧ (∃ p0 p1, heap c !! 0%nat = Some p0 ∧ heap c !! 1%nat = Some p1
              ∧ UserAgent p0 ≠ UserAgent p1
              ∧ SessionID p0 ≠ SessionID p1).
Proof.
  vm_compute. repeat split.
  eexists _, _. repeat split; discriminate.
Qed.

(* ===================================================================== *)
(** * Part III: further properties of the code                            *)
(* ===================================================================== *)

(** ** The keys of a generated header set *)

Lemma keysIn_empty keys : keysIn keys ∅.
Proof. intros k [v Hv]. by rewrite lookup_empty in Hv. Qed.

Lemma keysIn_insert keys (h : Header) k v :
  k ∈ keys → keysIn keys h → keysIn keys (<[k := v]> h).
Proof.
  intros Hk Hh k' Hsome. destruct (decide (k = k')) as [<-|Hne]; [done|].
  rewrite lookup_insert_ne in Hsome by done. by apply Hh.
Qed.

Lemma keysIn_weaken keys keys' (h : Header) :
  keys ⊆ keys' → keysIn keys h → keysIn keys' h.
Proof. intros Hsub Hh k Hk. by apply Hsub, Hh. Qed.

#[local] Ltac solve_keysIn :=
  repeat first
    [ assumption
    | apply keysIn_empty
    | apply keysIn_insert; [compute_done|]
    | match goal with |- context [if ?b then _ else _] => destruct b end ].

Lemma addRandomHeaders_keysIn keys (h : Header) (r : Rand) :
  "DNT" ∈ keys → "Cache-Control" ∈ keys → keysIn keys h →
  keysIn keys (addRandomHeaders h r).1.
Proof.
  intros Hd Hc Hh. unfold addRandomHeaders, Float32, raw. cbn [src drawn].
  repeat match goal with |- context [Qltb ?a ?b] => destruct (Qltb a b) end;
    cbn [fst]; repeat (apply keysIn_insert; [assumption|]); exact Hh.
Qed.

Lemma generateHeadersWith_keys `{GoLib} hb req browser r :
  keysIn allKeys (generateHeadersWith hb req browser r).
Proof.
  unfold generateHeadersWith.
  destruct (String.eqb browser "Chrome");
    [|destruct (String.eqb browser "Firefox");
      [|destruct (String.eqb browser "Safari")]];
    unfold addChromeHeaders, addFirefoxHeaders, addSafariHeaders, Float32, raw;
    cbn [src drawn];
    (apply addRandomHeaders_keysIn; [compute_done|compute_done|]);
    solve_keysIn.
Qed.

(** A family without a case in the [switch] gets the common headers only. *)
Lemma generateHeadersWith_other_keys `{GoLib} hb req browser r :
  browser ≠ "Chrome" → browser ≠ "Firefox" → browser ≠ "Safari" →
  keysIn commonKeys (generateHeadersWith hb req browser r).
Proof.
  intros Hc%String.eqb_neq Hf%String.eqb_neq Hs%String.eqb_neq.
  unfold generateHeadersWith. rewrite Hc, Hf, Hs.
  apply addRandomHeaders_keysIn; [compute_done|compute_done|].
  solve_keysIn.
Qed.

(** Every key that can be generated is canonical, or its canonical form is
    not a key that can be generated ([DNT] and [TE]). *)
Lemma allKeys_canonical k :
  k ∈ allKeys →
  CanonicalMIMEHeaderKey k = k ∨ CanonicalMIMEHeaderKey k ∉ allKeys.
Proof.
  intros Hk.
  assert (Hall : Forall (λ k, CanonicalMIMEHeaderKey k = k
                              ∨ CanonicalMIMEHeaderKey k ∉ allKeys) allKeys).
  { unfold allKeys, commonKeys, familyKeys. simpl app.
    repeat (constructor; [first [by left | by right; compute_done]|]).
    constructor. }
  by eapply Forall_forall in Hall.
Qed.

Lemma applyRemaining_writes_all (headers : Header) entries (h : Header) k v :
  (∀ k' v', (k', v') ∈ entries → headers !! k' = Some v') →
  h ⊆ headers → (k, v) ∈ entries →
  CanonicalMIMEHeaderKey k = k ∨ headers !! CanonicalMIMEHeaderKey k = None →
  is_Some (applyRemaining entries h !! k).
Proof.
  intros Hin Hsub Hkv [Hcanon|Hnone]; [by eapply applyRemaining_writes|].
  revert h Hsub. induction entries as [|[k' v'] entries IH]; intros h Hsub.
  - by apply elem_of_nil in Hkv.
  - assert (Hnext : (if String.eqb (Header_Get h k') ""
                     then <[k' := v']> h else h) ⊆ headers).
    { destruct (String.eqb _ _); [|exact Hsub].
      apply insert_subseteq_l; [|exact Hsub]. apply Hin. by left. }
    apply elem_of_cons in Hkv as [[= <- <-]|Hkv].
    + simpl. apply applyRemaining_keeps.
      unfold Header_Get. rewrite (lookup_weaken_None _ _ _ Hnone Hsub).
      simpl. rewrite lookup_insert_eq. by eexists.
    + simpl. apply IH; [intros; apply Hin; by right|exact Hkv|exact Hnext].
Qed.

(** [BuildHeaders] leaves in the request exactly the generated header
    set: what the request carried before is gone, and the two passes over
    the order table and over the remaining headers drop nothing. *)
Lemma BuildHeaders_exact `{GoLib} hb req w :
  req_Header (BuildHeaders hb req w).1 =
    (generateHeaders hb req (detectBrowser (UserAgent (hb_profile hb))) w).1.
Proof.
  pose proof (BuildHeaders_Header hb req w) as Heq. cbv zeta in Heq.
  unfold generateHeaders in *. destruct (newRand w) as [r w1].
  cbn [fst]. rewrite Heq. clear Heq.
  set (headers := generateHeadersWith hb req _ r).
  pose proof (generateHeadersWith_keys hb req
                (detectBrowser (UserAgent (hb_profile hb))) r) as Hkeys.
  fold headers in Hkeys.
  pose proof (range_Permutation (map_to_list headers) w1) as Hperm.
  set (entries := (range (map_to_list headers) w1).1) in *.
  set (h0 := applyOrdered headers _ ∅).
  assert (Hin : ∀ k v, (k, v) ∈ entries → headers !! k = Some v).
  { intros k v Hkv. apply elem_of_map_to_list. by rewrite <- Hperm. }
  assert (Hh0 : h0 ⊆ headers)
    by apply applyOrdered_subseteq, map_empty_subseteq.
  assert (Hsub : applyRemaining entries h0 ⊆ headers)
    by (by apply applyRemaining_subseteq).
  apply map_eq. intros k. destruct (headers !! k) as [v|] eqn:Hk.
  - destruct (applyRemaining_writes_all headers entries h0 k v)
      as [v' Hv']; try done.
    + rewrite Hperm. by apply elem_of_map_to_list.
    + destruct (allKeys_canonical k) as [Hc|Hc]; [apply Hkeys; by eexists
                                                  |by left|].
      right. destruct (headers !! CanonicalMIMEHeaderKey k) eqn:Hck; [|done].
      exfalso. apply Hc, Hkeys. by eexists.
    + rewrite Hv'. f_equal. pose proof (lookup_weaken _ _ _ _ Hv' Hsub).
      congruence.
  - eapply lookup_weaken_None; eauto.
Qed.

#[local] Ltac skip_family Hk :=
  repeat first
    [ rewrite lookup_insert_ne by (intros <-; apply Hk; compute_done)
    | match goal with |- context [if ?b then _ else _] => destruct b end ];
  try reflexivity.

(** The family-specific headers are written under the keys of
    [familyKeys] only. *)
Lemma family_headers_preserve `{GoLib} hb (h : Header) r browser k :
  k ∉ familyKeys →
  (if String.eqb browser "Chrome" then addChromeHeaders hb h r
   else if String.eqb browser "Firefox" then addFirefoxHeaders hb h r
   else if String.eqb browser "Safari" then addSafariHeaders hb h r
   else (h, r)).1 !! k = h !! k.
Proof.
  intros Hk.
  destruct (String.eqb browser "Chrome");
    [|destruct (String.eqb browser "Firefox");
      [|destruct (String.eqb browser "Safari")]];
    unfold addChromeHeaders, addFirefoxHeaders, addSafariHeaders, Float32, raw;
    cbn [src drawn fst]; skip_family Hk.
Qed.

(** The headers every family gets, and the two that depend on the
    context alone. *)
Lemma generateHeadersWith_common `{GoLib} hb req browser r :
  let h := generateHeadersWith hb req browser r in
  h !! "User-Agent" = Some [UserAgent (hb_profile hb)]
  ∧ h !! "Accept-Language" = Some [Language (hb_profile hb)]
  ∧ h !! "Connection" = Some ["keep-alive"]
  ∧ h !! "Accept" =
      Some [if isNavigate hb then getNavigationAccept browser
            else getResourceAccept (Path (req_URL req))]
  ∧ h !! "Referer" =
      (if String.eqb (referrer hb) "" then None else Some [referrer hb])
  ∧ h !! "Origin" =
      (if String.eqb (origin hb) "" || isNavigate hb then None
       else Some [origin hb]).
Proof.
  cbv zeta. unfold generateHeadersWith.
  set (h0 := <["Accept-Encoding" := _]> _).
  pose proof (λ k Hk, family_headers_preserve hb h0 r browser k Hk) as Hfam.
  destruct (if String.eqb browser "Chrome" then _ else _) as [h1 r1].
  cbn [fst] in Hfam.
  rewrite !addRandomHeaders_lookup_other by done.
  assert (Hne : ∀ k, k ∈ ["User-Agent"; "Accept-Language"; "Connection";
                          "Accept"; "Referer"; "Origin"] → k ∉ familyKeys).
  { intros k Hk Hf. revert Hk. unfold familyKeys in Hf.
    repeat (apply elem_of_cons in Hf as [->|Hf]; [compute_done|]).
    by apply elem_of_nil in Hf. }
  repeat split.
  - destruct (negb (String.eqb (referrer hb) "")),
      (negb (String.eqb (origin hb) "") && negb (isNavigate hb));
      rewrite ?lookup_insert_ne by done; rewrite Hfam by (apply Hne; compute_done);
      unfold h0; destruct (isNavigate hb);
      rewrite ?lookup_insert_ne by done; by rewrite lookup_insert_eq.
  - destruct (negb (String.eqb (referrer hb) "")),
      (negb (String.eqb (origin hb) "") && negb (isNavigate hb));
      rewrite ?lookup_insert_ne by done; rewrite Hfam by (apply Hne; compute_done);
      unfold h0; destruct (isNavigate hb);
      rewrite ?lookup_insert_ne by done; by rewrite lookup_insert_eq.
  - destruct (negb (String.eqb (referrer hb) "")),
      (negb (String.eqb (origin hb) "") && negb (isNavigate hb));
      rewrite ?lookup_insert_ne by done; rewrite Hfam by (apply Hne; compute_done);
      unfold h0; destruct (isNavigate hb);
      rewrite ?lookup_insert_ne by done; by rewrite lookup_insert_eq.
  - destruct (negb (String.eqb (referrer hb) "")),
      (negb (String.eqb (origin hb) "") && negb (isNavigate hb));
      rewrite ?lookup_insert_ne by done; rewrite Hfam by (apply Hne; compute_done);
      unfold h0; destruct (isNavigate hb);
      rewrite ?lookup_insert_ne by done; by rewrite lookup_insert_eq.
  - destruct (String.eqb (referrer hb) ""); simpl;
      destruct (negb (String.eqb (origin hb) "") && negb (isNavigate hb));
      rewrite ?lookup_insert_ne by done; rewrite ?lookup_insert_eq; try done;
      rewrite Hfam by (apply Hne; compute_done);
      unfold h0; destruct (isNavigate hb);
      by rewrite ?lookup_insert_ne by done.
  - destruct (String.eqb (origin hb) ""), (isNavigate hb); simpl;
      rewrite ?lookup_insert_eq; try done;
      destruct (negb (String.eqb (referrer hb) ""));
      rewrite ?lookup_insert_ne by done;
      rewrite Hfam by (apply Hne; compute_done);
      unfold h0; by rewrite ?lookup_insert_ne by done.
Qed.

Lemma generateHeadersWith_AcceptEncoding `{GoLib} hb req browser r :
  generateHeadersWith hb req browser r !! "Accept-Encoding"
  = Some [getAcceptEncoding browser].
Proof.
  unfold generateHeadersWith, getAcceptEncoding.
  destruct (String.eqb_spec browser "Chrome") as [->|_];
    [|destruct (String.eqb_spec browser "Firefox") as [->|_];
      [|destruct (String.eqb_spec browser "Safari") as [->|_]]];
    unfold addChromeHeaders, addFirefoxHeaders, addSafariHeaders, Float32, raw;
    cbn [src drawn];
    rewrite addRandomHeaders_lookup_other by done;
    repeat first
      [ rewrite lookup_insert_eq
      | rewrite lookup_insert_ne by done
      | match goal with |- context [if ?b then _ else _] => destruct b end ];
    reflexivity.
Qed.

Lemma generateHeadersWith_Chrome `{GoLib} hb req r :
  let h := generateHeadersWith hb req "Chrome" r in
  is_Some (h !! "Sec-Ch-Ua")
  ∧ h !! "Sec-Ch-Ua-Mobile" = Some ["?0"]
  ∧ h !! "Sec-Ch-Ua-Platform"
    = Some [quoted (chromePlatform (UserAgent (hb_profile hb)))]
  ∧ h !! "Sec-Fetch-Site" = Some [getSecFetchSite hb]
  ∧ h !! "Sec-Fetch-Mode" = Some [getSecFetchMode hb]
  ∧ h !! "Sec-Fetch-Dest" = Some [getSecFetchDest hb]
  ∧ h !! "Sec-Fetch-User" = (if isNavigate hb then Some ["?1"] else None)
  ∧ h !! "Upgrade-Insecure-Requests"
    = (if isNavigate hb then Some ["1"] else None)
  ∧ h !! "Sec-Ch-Ua-Platform-Version"
    = (if below 3 (src r (drawn r)) then Some [quoted "10.0.0"] else None)
  ∧ h !! "TE" = None.
Proof.
  cbv zeta. unfold generateHeadersWith, chromePlatform, below.
  change (String.eqb "Chrome" "Chrome") with true. cbv iota.
  unfold addChromeHeaders, Float32, raw. cbn [src drawn].
  rewrite !addRandomHeaders_lookup_other by done.
  repeat split;
    repeat first
      [ rewrite lookup_insert_eq
      | rewrite lookup_insert_ne by done
      | rewrite lookup_empty
      | match goal with |- context [if ?b then _ else _] => destruct b end ];
    first [reflexivity | by eexists].
Qed.

Lemma generateHeadersWith_Firefox `{GoLib} hb req r :
  let h := generateHeadersWith hb req "Firefox" r in
  let recent := 90 <=? firefoxVersion (UserAgent (hb_profile hb)) in
  h !! "Upgrade-Insecure-Requests" = Some ["1"]
  ∧ h !! "Sec-Fetch-Dest" = (if recent then Some [getSecFetchDest hb] else None)
  ∧ h !! "Sec-Fetch-Mode" = (if recent then Some [getSecFetchMode hb] else None)
  ∧ h !! "Sec-Fetch-Site" = (if recent then Some [getSecFetchSite hb] else None)
  ∧ h !! "Sec-Fetch-User"
    = (if recent && isNavigate hb then Some ["?1"] else None)
  ∧ h !! "TE"
    = (if below 7 (src r (drawn r)) then Some ["trailers"] else None)
  ∧ h !! "Sec-Ch-Ua" = None.
Proof.
  cbv zeta. unfold generateHeadersWith, firefoxVersion, below.
  change (String.eqb "Firefox" "Chrome") with false.
  change (String.eqb "Firefox" "Firefox") with true. cbv iota.
  unfold addFirefoxHeaders, Float32, raw. cbn [src drawn].
  rewrite !addRandomHeaders_lookup_other by done.
  match goal with |- context [90 <=? ?v] => destruct (90 <=? v) end;
    destruct (isNavigate hb); cbn [andb];
  repeat split;
    repeat first
      [ rewrite lookup_insert_eq
      | rewrite lookup_insert_ne by done
      | rewrite lookup_empty
      | match goal with |- context [if ?b then _ else _] => destruct b end ];
    first [reflexivity | discriminate].
Qed.

Lemma generateHeaders_With `{GoLib} hb req browser w :
  (generateHeaders hb req browser w).1
  = generateHeadersWith hb req browser (newRand w).1.
Proof. unfold generateHeaders. by destruct (newRand w). Qed.

Lemma BuildHeaders_ignores_header `{GoLib} hb m u (h1 h2 : Header) w :
  BuildHeaders hb (mkRequest m u h1) w = BuildHeaders hb (mkRequest m u h2) w.
Proof. reflexivity. Qed.

(** ** The header engine *)

(** X1. [BuildHeaders] replaces the header collection of the request: the
    result does not depend on the headers the request carried, it is
    exactly the generated set (the pass over the order table and the pass
    over the remaining headers neither drop nor change a header), and its
    keys are among the nineteen keys of [allKeys]. *)
Theorem BuildHeaders_replaces_headers `{GoLib} (hb : HeaderBuilder)
    (method : string) (url : URL) (h1 h2 : Header) (w : World) :
  BuildHeaders hb (mkRequest method url h1) w
  = BuildHeaders hb (mkRequest method url h2) w
  ∧ req_Header (BuildHeaders hb (mkRequest method url h1) w).1
    = (generateHeaders hb (mkRequest method url h1)
         (detectBrowser (UserAgent (hb_profile hb))) w).1
  ∧ keysIn allKeys (req_Header (BuildHeaders hb (mkRequest method url h1) w).1)
  ∧ Method (BuildHeaders hb (mkRequest method url h1) w).1 = method
  ∧ req_URL (BuildHeaders hb (mkRequest method url h1) w).1 = url.
Proof.
  split; [apply BuildHeaders_ignores_header|].
  rewrite BuildHeaders_exact, generateHeaders_With.
  split; [reflexivity|]. split; [apply generateHeadersWith_keys|].
  split.
  - unfold BuildHeaders. destruct (generateHeaders _ _ _ _).
    by destruct (range _ _).
  - apply (BuildHeaders_URL hb (mkRequest method url h1) w).
Qed.

(** X2. Whatever the family and the random draws, the request that leaves
    [BuildHeaders] carries the user agent and the language of the profile,
    [Connection: keep-alive], the [Accept] value of the context (the
    family's navigation value, or the value for the extension of the path),
    the [Accept-Encoding] value of the family, [Referer] exactly when the
    context has a referrer, and [Origin] exactly when it has an origin and
    the request is not a navigation. *)
Theorem BuildHeaders_context_headers `{GoLib} (hb : HeaderBuilder)
    (req : Request) (w : World) :
  let browser := detectBrowser (UserAgent (hb_profile hb)) in
  let h := req_Header (BuildHeaders hb req w).1 in
  h !! "User-Agent" = Some [UserAgent (hb_profile hb)]
  ∧ h !! "Accept-Language" = Some [Language (hb_profile hb)]
  ∧ h !! "Connection" = Some ["keep-alive"]
  ∧ h !! "Accept" =
      Some [if isNavigate hb then getNavigationAccept browser
            else getResourceAccept (Path (req_URL req))]
  ∧ h !! "Accept-Encoding" = Some [getAcceptEncoding browser]
  ∧ h !! "Referer" =
      (if String.eqb (referrer hb) "" then None else Some [referrer hb])
  ∧ h !! "Origin" =
      (if String.eqb (origin hb) "" || isNavigate hb then None
       else Some [origin hb]).
Proof.
  cbv zeta. rewrite BuildHeaders_exact, generateHeaders_With.
  destruct (generateHeadersWith_common hb req
              (detectBrowser (UserAgent (hb_profile hb))) (newRand w).1)
    as (H1 & H2 & H3 & H4 & H5 & H6).
  repeat split; try assumption. apply generateHeadersWith_AcceptEncoding.
Qed.

(** X3. For a profile that resolves to Chrome the request always carries
    the client hints [Sec-Ch-Ua], [Sec-Ch-Ua-Mobile: ?0] and
    [Sec-Ch-Ua-Platform] (macOS, Linux or Windows, read from the user
    agent) and the three headers [Sec-Fetch-Site], [Sec-Fetch-Mode] and
    [Sec-Fetch-Dest] computed from the context; [Sec-Fetch-User: ?1] and
    [Upgrade-Insecure-Requests: 1] are there exactly for a navigation, and
    [TE] never. *)
Theorem Chrome_headers `{GoLib} (hb : HeaderBuilder) (req : Request)
    (w : World) :
  detectBrowser (UserAgent (hb_profile hb)) = "Chrome" →
  let h := req_Header (BuildHeaders hb req w).1 in
  is_Some (h !! "Sec-Ch-Ua")
  ∧ h !! "Sec-Ch-Ua-Mobile" = Some ["?0"]
  ∧ h !! "Sec-Ch-Ua-Platform"
    = Some [quoted (chromePlatform (UserAgent (hb_profile hb)))]
  ∧ h !! "Sec-Fetch-Site" = Some [getSecFetchSite hb]
  ∧ h !! "Sec-Fetch-Mode" = Some [getSecFetchMode hb]
  ∧ h !! "Sec-Fetch-Dest" = Some [getSecFetchDest hb]
  ∧ h !! "Sec-Fetch-User" = (if isNavigate hb then Some ["?1"] else None)
  ∧ h !! "Upgrade-Insecure-Requests"
    = (if isNavigate hb then Some ["1"] else None)
  ∧ h !! "TE" = None.
Proof.
  intros Hfam. cbv zeta. rewrite BuildHeaders_exact, generateHeaders_With, Hfam.
  destruct (generateHeadersWith_Chrome hb req (newRand w).1)
    as (H1 & H2 & H3 & H4 & H5 & H6 & H7 & H8 & _ & H10).
  by repeat split.
Qed.

Lemma Chrome_headers_witness :
  detectBrowser chromeUA = "Chrome"
  ∧ req_Header
      (@BuildHeaders exampleLib (NewHeaderBuilder (exampleProfile chromeUA))
         (mkRequest "GET" (mkURL "http://example.com/" "/") ∅)
         (worldWith (λ _, O) quietNet)).1 !! "Sec-Ch-Ua-Mobile"
    = Some ["?0"].
Proof.
  split; [reflexivity|].
  exact (proj1 (proj2
    (@Chrome_headers exampleLib (NewHeaderBuilder (exampleProfile chromeUA))
       (mkRequest "GET" (mkURL "http://example.com/" "/") ∅)
       (worldWith (λ _, O) quietNet) eq_refl))).
Defined.

(** X4. For a profile that resolves to Firefox the request always carries
    [Upgrade-Insecure-Requests: 1], navigation or not, and never
    [Sec-Ch-Ua]. The three headers [Sec-Fetch-Dest], [Sec-Fetch-Mode] and
    [Sec-Fetch-Site] are there together, exactly when the version read from
    the user agent is at least 90 (126 when none can be read), and
    [Sec-Fetch-User: ?1] is there when moreover the request is a
    navigation. *)
Theorem Firefox_headers `{GoLib} (hb : HeaderBuilder) (req : Request)
    (w : World) :
  detectBrowser (UserAgent (hb_profile hb)) = "Firefox" →
  let h := req_Header (BuildHeaders hb req w).1 in
  let recent := 90 <=? firefoxVersion (UserAgent (hb_profile hb)) in
  h !! "Upgrade-Insecure-Requests" = Some ["1"]
  ∧ h !! "Sec-Fetch-Dest" = (if recent then Some [getSecFetchDest hb] else None)
  ∧ h !! "Sec-Fetch-Mode" = (if recent then Some [getSecFetchMode hb] else None)
  ∧ h !! "Sec-Fetch-Site" = (if recent then Some [getSecFetchSite hb] else None)
  ∧ h !! "Sec-Fetch-User"
    = (if recent && isNavigate hb then Some ["?1"] else None)
  ∧ h !! "Sec-Ch-Ua" = None.
Proof.
  intros Hfam. cbv zeta. rewrite BuildHeaders_exact, generateHeaders_With, Hfam.
  destruct (generateHeadersWith_Firefox hb req (newRand w).1)
    as (H1 & H2 & H3 & H4 & H5 & _ & H7).
  by repeat split.
Qed.

Lemma Firefox_headers_witness :
  detectBrowser firefoxUA = "Firefox"
  ∧ req_Header
      (@BuildHeaders exampleLib (NewHeaderBuilder (exampleProfile firefoxUA))
         (mkRequest "GET" (mkURL "http://example.com/" "/") ∅)
         (worldWith (λ _, O) quietNet)).1 !! "Upgrade-Insecure-Requests"
    = Some ["1"].
Proof.
  split; [reflexivity|].
  exact (proj1
    (@Firefox_headers exampleLib (NewHeaderBuilder (exampleProfile firefoxUA))
       (mkRequest "GET" (mkURL "http://example.com/" "/") ∅)
       (worldWith (λ _, O) quietNet) eq_refl)).
Defined.

(** X5. For a profile that resolves to Edge no family-specific header is
    written: the request carries keys of [commonKeys] only, so no client
    hint, no [Sec-Fetch-] header and no [Upgrade-Insecure-Requests], though
    its [Accept] value is the Chrome one. *)
Theorem Edge_headers `{GoLib} (hb : HeaderBuilder) (req : Request)
    (w : World) :
  detectBrowser (UserAgent (hb_profile hb)) = "Edge" →
  let h := req_Header (BuildHeaders hb req w).1 in
  keysIn commonKeys h
  ∧ noSecFetch h
  ∧ h !! "Sec-Ch-Ua" = None
  ∧ h !! "Upgrade-Insecure-Requests" = None
  ∧ (isNavigate hb = true →
     h !! "Accept" = Some [getNavigationAccept "Chrome"]).
Proof.
  intros Hfam. cbv zeta.
  pose proof (Hcommon := generateHeadersWith_common
    hb req "Edge" (newRand w).1).
  rewrite BuildHeaders_exact, generateHeaders_With, Hfam.
  pose proof (generateHeadersWith_other_keys hb req "Edge" (newRand w).1
                ltac:(done) ltac:(done) ltac:(done)) as Hkeys.
  assert (Hnot : ∀ k, k ∉ commonKeys →
            generateHeadersWith hb req "Edge" (newRand w).1 !! k = None).
  { intros k Hk. destruct (generateHeadersWith _ _ _ _ !! k) eqn:Hl; [|done].
    exfalso. apply Hk, Hkeys. by eexists. }
  repeat split.
  - exact Hkeys.
  - intros k Hk. apply Hkeys in Hk. unfold commonKeys in Hk.
    repeat (apply elem_of_cons in Hk as [->|Hk]; [reflexivity|]).
    by apply elem_of_nil in Hk.
  - apply Hnot. compute_done.
  - apply Hnot. compute_done.
  - intros Hnav.
    destruct Hcommon as (_ & _ & _ & -> & _).
    by rewrite Hnav.
Qed.

Lemma Edge_headers_witness :
  detectBrowser edgeUA = "Edge"
  ∧ req_Header
      (@BuildHeaders exampleLib (NewHeaderBuilder (exampleProfile edgeUA))
         (mkRequest "GET" (mkURL "http://example.com/" "/") ∅)
         (worldWith (λ _, O) quietNet)).1 !! "Sec-Ch-Ua" = None.
Proof.
  split; [reflexivity|].
  exact (proj1 (proj2 (proj2
    (@Edge_headers exampleLib (NewHeaderBuilder (exampleProfile edgeUA))
       (mkRequest "GET" (mkURL "http://example.com/" "/") ∅)
       (worldWith (λ _, O) quietNet) eq_refl)))).
Defined.

(** ** The request orchestrator *)

Lemma Do_prepare `{GoLib} bc req options w :
  Do bc req options w =
    let '(req', bc1, w1) := prepareRequest bc req options w in
    match Client_do checkRedirect maxRoundTrips [] req' bc1 w1 with
    | Some (Err err, bc, w) => (Err err, bc, w)
    | Some (Ok resp, bc, w) =>
        (Ok resp, updateHistory bc (URL_String (req_URL req')), w)
    | None =>
        (Err (errorString "net/http: round trip budget exhausted"), bc1, w1)
    end.
Proof.
  unfold Do, prepareRequest. destruct (BuildHeaders _ _ _).
  destruct (range _ _). reflexivity.
Qed.

Lemma prepareRequest_Header `{GoLib} bc req options w :
  let opts := mergeOptions bc options in
  let hb := SetContext (headerBuilder bc) (IsNavigate opts) (Referrer opts)
                       (Origin opts) in
  req_Header (prepareRequest bc req options w).1.1 =
    applyCustom
      (range (map_to_list (default ∅ (Headers opts)))
             (BuildHeaders hb req w).2).1
      (req_Header (BuildHeaders hb req w).1).
Proof.
  cbv zeta. unfold prepareRequest. destruct (BuildHeaders _ _ _).
  by destruct (range _ _).
Qed.

Lemma prepareRequest_URL `{GoLib} bc req options w :
  req_URL (prepareRequest bc req options w).1.1 = req_URL req.
Proof.
  unfold prepareRequest.
  pose proof (BuildHeaders_URL
    (SetContext (headerBuilder bc) (IsNavigate (mergeOptions bc options))
       (Referrer (mergeOptions bc options)) (Origin (mergeOptions bc options)))
    req w) as Hurl.
  destruct (BuildHeaders _ _ _). by destruct (range _ _).
Qed.

Lemma applyCustom_other entries (h : Header) key :
  (∀ k v, (k, v) ∈ entries → CanonicalMIMEHeaderKey k ≠ key) →
  applyCustom entries h !! key = h !! key.
Proof.
  revert h. induction entries as [|[k v] entries IH]; intros h Hne;
    [reflexivity|].
  unfold applyCustom in *. cbn [foldl]. rewrite IH.
  - unfold Header_Set. apply lookup_insert_ne, (Hne k v). by left.
  - intros k' v' Hin. apply (Hne k' v'). by right.
Qed.

Lemma applyCustom_agree entries (h : Header) k v :
  (∀ k' v', (k', v') ∈ entries →
     CanonicalMIMEHeaderKey k' = CanonicalMIMEHeaderKey k → v' = v) →
  (k, v) ∈ entries ∨ h !! CanonicalMIMEHeaderKey k = Some [v] →
  applyCustom entries h !! CanonicalMIMEHeaderKey k = Some [v].
Proof.
  revert h. induction entries as [|[k1 v1] entries IH]; intros h Hall Hor.
  - destruct Hor as [Hin|Hh]; [by apply elem_of_nil in Hin|exact Hh].
  - unfold applyCustom in *. cbn [foldl]. apply IH.
    + intros k' v' Hin. apply Hall. by right.
    + unfold Header_Set.
      destruct (decide (CanonicalMIMEHeaderKey k1 = CanonicalMIMEHeaderKey k))
        as [Heq|Hne].
      * right. rewrite Heq, lookup_insert_eq.
        by rewrite (Hall k1 v1 ltac:(by left) Heq).
      * destruct Hor as [Hin|Hh].
        -- apply elem_of_cons in Hin as [[= -> ->]|Hin]; [done|by left].
        -- right. by rewrite lookup_insert_ne.
Qed.

Lemma range_elem_of {A} (l : list A) w x : x ∈ (range l w).1 ↔ x ∈ l.
Proof. by rewrite (range_Permutation l w). Qed.

(** X6. [Do] sends the request it was given with the headers of
    [BuildHeaders] and the caller's headers laid over them. A caller's
    header whose canonical key no other caller's key shares is sent under
    that canonical key with the caller's value, whatever the header engine
    had generated there; a generated header that no caller's key
    canonicalises to is sent as generated. *)
Theorem Do_custom_headers `{GoLib} (bc : BrowserClient) (req : Request)
    (options : list RequestOptions) (w : World) :
  let opts := mergeOptions bc options in
  let hb := SetContext (headerBuilder bc) (IsNavigate opts) (Referrer opts)
                       (Origin opts) in
  let custom := default ∅ (Headers opts) in
  let first := (prepareRequest bc req options w).1.1 in
  Do bc req options w
  = (let '(req', bc1, w1) := prepareRequest bc req options w in
     match Client_do checkRedirect maxRoundTrips [] req' bc1 w1 with
     | Some (Err err, bc, w) => (Err err, bc, w)
     | Some (Ok resp, bc, w) =>
         (Ok resp, updateHistory bc (URL_String (req_URL req')), w)
     | None =>
         (Err (errorString "net/http: round trip budget exhausted"), bc1, w1)
     end)
  ∧ (∀ k v, custom !! k = Some v →
       (∀ k' v', custom !! k' = Some v' →
          CanonicalMIMEHeaderKey k' = CanonicalMIMEHeaderKey k → k' = k) →
       req_Header first !! CanonicalMIMEHeaderKey k = Some [v])
  ∧ (∀ key, (∀ k v, custom !! k = Some v → CanonicalMIMEHeaderKey k ≠ key) →
       req_Header first !! key = req_Header (BuildHeaders hb req w).1 !! key).
Proof.
  cbv zeta. split; [apply Do_prepare|].
  rewrite prepareRequest_Header. cbv zeta. split.
  - intros k v Hk Huniq. apply applyCustom_agree.
    + intros k' v' Hin Hc. apply range_elem_of, elem_of_map_to_list in Hin.
      rewrite (Huniq k' v' Hin Hc) in Hin. congruence.
    + left. by apply range_elem_of, elem_of_map_to_list.
  - intros key Hne. apply applyCustom_other. intros k v Hin.
    apply range_elem_of, elem_of_map_to_list in Hin. by apply (Hne k v).
Qed.

Lemma updateHistory_last (bc : BrowserClient) (url : string) :
  last (history (updateHistory bc url)) = Some url.
Proof.
  unfold updateHistory, set_history. cbn [history].
  destruct (10 <? _) eqn:Hlen; [|apply last_snoc].
  destruct (history bc) as [|x l]; [discriminate|].
  cbn [app drop]. apply last_snoc.
Qed.

Lemma Do_Ok_history `{GoLib} bc req options w resp bc' w' :
  Do bc req options w = (Ok resp, bc', w') →
  last (history bc') = Some (URL_String (req_URL req)).
Proof.
  rewrite Do_prepare. pose proof (prepareRequest_URL bc req options w) as Hurl.
  destruct (prepareRequest bc req options w) as [[req1 bc1] w1].
  cbn [fst snd] in Hurl.
  destruct (Client_do _ _ _ _ _ _) as [[[[resp2|err] bc2] w2]|];
    [|discriminate..].
  intros [= _ <- _]. rewrite Hurl. apply updateHistory_last.
Qed.

Lemma prepareRequest_Referer `{GoLib} bc req options w :
  (∀ k v, default ∅ (Headers (mergeOptions bc options)) !! k = Some v →
     CanonicalMIMEHeaderKey k ≠ "Referer") →
  req_Header (prepareRequest bc req options w).1.1 !! "Referer"
  = (if String.eqb (Referrer (mergeOptions bc options)) "" then None
     else Some [Referrer (mergeOptions bc options)]).
Proof.
  intros Hne. rewrite prepareRequest_Header. cbv zeta.
  rewrite applyCustom_other.
  - rewrite BuildHeaders_exact, generateHeaders_With.
    match goal with |- context [generateHeadersWith ?hb ?rq ?b ?r] =>
      destruct (generateHeadersWith_common hb rq b r)
        as (_ & _ & _ & _ & Href & _) end.
    exact Href.
  - intros k v Hin. apply range_elem_of, elem_of_map_to_list in Hin.
    by apply (Hne k v).
Qed.

(** X7. The automatic referrer. After a call of [Do] that returned a
    response, the address requested is the last entry of the history, and
    the next request made without a referrer of its own (no options, or
    options with an empty [Referrer]) and without a caller's [Referer]
    header leaves with that address in [Referer]. The address is the one
    of the request of the call, also when redirects were followed. *)
Theorem Do_auto_referrer `{GoLib} (bc : BrowserClient) (req : Request)
    (options : list RequestOptions) (w : World) (resp : Response)
    (bc' : BrowserClient) (w' : World) :
  Do bc req options w = (Ok resp, bc', w') →
  URL_String (req_URL req) ≠ "" →
  last (history bc') = Some (URL_String (req_URL req))
  ∧ ∀ (req2 : Request) (options2 : list RequestOptions) (w2 : World),
      (∀ opt, head options2 = Some opt →
         Referrer opt = ""
         ∧ ∀ k v, default ∅ (Headers opt) !! k = Some v →
                  CanonicalMIMEHeaderKey k ≠ "Referer") →
      req_Header (prepareRequest bc' req2 options2 w2).1.1 !! "Referer"
      = Some [URL_String (req_URL req)].
Proof.
  intros Hdo Hurl. pose proof (Do_Ok_history _ _ _ _ _ _ _ Hdo) as Hlast.
  split; [exact Hlast|]. intros req2 options2 w2 Hopt.
  assert (Href : Referrer (mergeOptions bc' options2)
                 = URL_String (req_URL req)).
  { unfold mergeOptions. rewrite Hlast.
    destruct options2 as [|opt rest]; [reflexivity|].
    destruct (Hopt opt eq_refl) as [-> _]. reflexivity. }
  rewrite prepareRequest_Referer.
  - rewrite Href. destruct (String.eqb_spec (URL_String (req_URL req)) "");
      [contradiction|reflexivity].
  - intros k v Hk. destruct options2 as [|opt rest].
    + unfold mergeOptions in Hk. rewrite Hlast in Hk. cbn in Hk.
      by rewrite lookup_empty in Hk.
    + destruct (Hopt opt eq_refl) as [Hr Hh]. apply (Hh k v).
      unfold mergeOptions in Hk. rewrite Hlast, Hr in Hk. cbn in Hk.
      destruct (Headers opt); [exact Hk|]. cbn. exact Hk.
Qed.

Lemma Do_auto_referrer_witness :
  let bc := newClient (exampleProfile chromeUA) exampleConfig in
  let req := mkRequest "GET" (mkURL "http://example.com/" "/") ∅ in
  let w := worldWith (λ _, O) quietNet in
  last (history (@Do exampleLib bc req [] w).1.2) = Some "http://example.com/".
Proof.
  cbv zeta.
  refine (proj1
    (@Do_auto_referrer exampleLib
       (newClient (exampleProfile chromeUA) exampleConfig)
       (mkRequest "GET" (mkURL "http://example.com/" "/") ∅) []
       (worldWith (λ _, O) quietNet)
       (okResponse 200)
       (@Do exampleLib (newClient (exampleProfile chromeUA) exampleConfig)
          (mkRequest "GET" (mkURL "http://example.com/" "/") ∅) []
          (worldWith (λ _, O) quietNet)).1.2
       (@Do exampleLib (newClient (exampleProfile chromeUA) exampleConfig)
          (mkRequest "GET" (mkURL "http://example.com/" "/") ∅) []
          (worldWith (λ _, O) quietNet)).2
       _ _)).
  - vm_compute. reflexivity.
  - discriminate.
Defined.

Lemma BuildHeaders_other_key `{GoLib} hb req w key :
  key ∉ allKeys → req_Header (BuildHeaders hb req w).1 !! key = None.
Proof.
  intros Hkey. rewrite BuildHeaders_exact, generateHeaders_With.
  destruct (generateHeadersWith _ _ _ _ !! key) eqn:Hl; [|reflexivity].
  exfalso. apply Hkey.
  apply (generateHeadersWith_keys hb req
           (detectBrowser (UserAgent (hb_profile hb))) (newRand w).1).
  by eexists.
Qed.

(** X8. [Post] writes [Content-Type] and [Content-Length] into the header
    collection of its request and hands it to [Do], which replaces the
    collection: the call behaves as [Do] on a request without headers,
    whatever the content type given, and the header collection of the
    request that leaves has neither key unless the caller's own headers
    supply it. *)
Theorem Post_drops_content_type `{GoLib} (bc : BrowserClient)
    (url contentType body : string) (options : list RequestOptions)
    (w : World) (u : URL) :
  http_NewRequest "POST" url = inl u →
  let custom := default ∅ (Headers (mergeOptions bc options)) in
  let h := Header_Set (Header_Set ∅ "Content-Type" contentType)
             "Content-Length" (itoa (Z.of_nat (String.length body))) in
  Post bc url contentType body options w
  = Do bc (mkRequest "POST" u ∅) options w
  ∧ ∀ key, key ∈ ["Content-Type"; "Content-Length"] →
      (∀ k v, custom !! k = Some v → CanonicalMIMEHeaderKey k ≠ key) →
      req_Header (prepareRequest bc (mkRequest "POST" u h) options w).1.1
        !! key = None.
Proof.
  intros Hu. cbv zeta. split.
  - unfold Post. rewrite Hu. reflexivity.
  - intros key Hkey Hne. rewrite prepareRequest_Header. cbv zeta.
    rewrite applyCustom_other.
    + apply BuildHeaders_other_key. intros Hin.
      apply elem_of_cons in Hkey as [->|Hkey];
        [|apply elem_of_cons in Hkey as [->|Hkey];
         [|by apply elem_of_nil in Hkey]];
        revert Hin; compute_done.
    + intros k v Hin. apply range_elem_of, elem_of_map_to_list in Hin.
      by apply (Hne k v).
Qed.

Lemma Post_drops_content_type_witness :
  let bc := newClient (exampleProfile chromeUA) exampleConfig in
  let w := worldWith (λ _, O) quietNet in
  @Post exampleLib bc "http://example.com/" "application/json" "{}" [] w
  = @Do exampleLib bc (mkRequest "POST" (mkURL "http://example.com/" "/") ∅)
        [] w.
Proof.
  cbv zeta.
  exact (proj1
    (@Post_drops_content_type exampleLib
       (newClient (exampleProfile chromeUA) exampleConfig)
       "http://example.com/" "application/json" "{}" []
       (worldWith (λ _, O) quietNet) (mkURL "http://example.com/" "/")
       eq_refl)).
Defined.

Lemma checkRedirect_hop_eq `{GoLib} req via prevReq bc w :
  last via = Some prevReq → (length via < 10)%nat →
  let hb := SetContext (headerBuilder bc) true
                       (URL_String (req_URL prevReq)) "" in
  let b := BuildHeaders hb req w in
  let copy (h : Header) (header : string) :=
    if negb (String.eqb (Header_Get (req_Header prevReq) header) "")
    then Header_Set h header (Header_Get (req_Header prevReq) header)
    else h in
  checkRedirect req via bc w
  = (None,
     mkRequest (Method b.1) (req_URL b.1)
       (copy (copy (req_Header b.1) "Authorization") "X-Requested-With"),
     set_headerBuilder bc hb, b.2).
Proof.
  intros Hlast Hlen. cbv zeta. unfold checkRedirect.
  destruct (Z.leb_spec 10 (Z.of_nat (length via))); [lia|].
  rewrite Hlast. by destruct (BuildHeaders _ _ _).
Qed.

(** X9. The redirect hook on a hop below the ceiling (the list of earlier
    requests is not empty and shorter than ten) lets the hop go on, leaves
    the header builder in the context of a navigation from the address of
    the previous request, and rebuilds the headers of the new request in
    that context: [Referer] is that address, [Authorization] and
    [X-Requested-With] are the non-empty values of the previous request and
    absent otherwise, and no other header of the previous request is
    carried over: every other key is as the header engine generated it. *)
Theorem checkRedirect_hop `{GoLib} (bc : BrowserClient) (req : Request)
    (via : list Request) (prevReq : Request) (w : World) :
  last via = Some prevReq → (length via < 10)%nat →
  let res := checkRedirect req via bc w in
  let hb := SetContext (headerBuilder bc) true
                       (URL_String (req_URL prevReq)) "" in
  let h := req_Header res.1.1.2 in
  res.1.1.1 = None
  ∧ headerBuilder res.1.2 = hb
  ∧ req_URL res.1.1.2 = req_URL req
  ∧ h !! "Referer"
    = (if String.eqb (URL_String (req_URL prevReq)) "" then None
       else Some [URL_String (req_URL prevReq)])
  ∧ (∀ key, key ∈ ["Authorization"; "X-Requested-With"] →
       h !! key
       = (if String.eqb (Header_Get (req_Header prevReq) key) "" then None
          else Some [Header_Get (req_Header prevReq) key]))
  ∧ (∀ key, key ∉ ["Authorization"; "X-Requested-With"] →
       h !! key = req_Header (BuildHeaders hb req w).1 !! key).
Proof.
  intros Hlast Hlen. cbv zeta.
  rewrite (checkRedirect_hop_eq req via prevReq bc w Hlast Hlen).
  cbv zeta. cbn [fst snd req_Header req_URL headerBuilder set_headerBuilder].
  set (hb := SetContext (headerBuilder bc) true
                        (URL_String (req_URL prevReq)) "").
  assert (Hkeep : ∀ key, key ≠ "Authorization" → key ≠ "X-Requested-With" →
    (if negb (String.eqb (Header_Get (req_Header prevReq) "X-Requested-With") "")
     then Header_Set
            (if negb (String.eqb (Header_Get (req_Header prevReq)
                                    "Authorization") "")
             then Header_Set (req_Header (BuildHeaders hb req w).1)
                    "Authorization"
                    (Header_Get (req_Header prevReq) "Authorization")
             else req_Header (BuildHeaders hb req w).1)
            "X-Requested-With"
            (Header_Get (req_Header prevReq) "X-Requested-With")
     else
       if negb (String.eqb (Header_Get (req_Header prevReq)
                              "Authorization") "")
       then Header_Set (req_Header (BuildHeaders hb req w).1) "Authorization"
              (Header_Get (req_Header prevReq) "Authorization")
       else req_Header (BuildHeaders hb req w).1) !! key
    = req_Header (BuildHeaders hb req w).1 !! key).
  { intros key H1 H2. unfold Header_Set.
    change (CanonicalMIMEHeaderKey "Authorization") with "Authorization".
    change (CanonicalMIMEHeaderKey "X-Requested-With") with "X-Requested-With".
    destruct (negb _), (negb _);
      rewrite ?lookup_insert_ne by done; reflexivity. }
  split; [reflexivity|]. split; [reflexivity|].
  split; [apply BuildHeaders_URL|]. split; [|split].
  - rewrite Hkeep by done.
    rewrite BuildHeaders_exact, generateHeaders_With.
    match goal with |- context [generateHeadersWith ?a ?rq ?b ?r] =>
      destruct (generateHeadersWith_common a rq b r)
        as (_ & _ & _ & _ & Href & _) end.
    exact Href.
  - intros key Hkey. unfold Header_Set.
    change (CanonicalMIMEHeaderKey "Authorization") with "Authorization".
    change (CanonicalMIMEHeaderKey "X-Requested-With") with "X-Requested-With".
    pose proof (BuildHeaders_other_key hb req w "Authorization"
                  ltac:(compute_done)) as HA.
    pose proof (BuildHeaders_other_key hb req w "X-Requested-With"
                  ltac:(compute_done)) as HX.
    apply elem_of_cons in Hkey as [->|Hkey];
      [|apply elem_of_cons in Hkey as [->|Hkey];
         [|by apply elem_of_nil in Hkey]].
    + destruct (String.eqb (Header_Get (req_Header prevReq)
                              "X-Requested-With") ""),
               (String.eqb (Header_Get (req_Header prevReq)
                              "Authorization") ""); cbn [negb];
        rewrite ?lookup_insert_ne by done; rewrite ?lookup_insert_eq;
        done.
    + destruct (String.eqb (Header_Get (req_Header prevReq)
                              "X-Requested-With") ""),
               (String.eqb (Header_Get (req_Header prevReq)
                              "Authorization") ""); cbn [negb];
        rewrite ?lookup_insert_eq; rewrite ?lookup_insert_ne by done; done.
  - intros key Hkey. apply Hkeep; intros ->; apply Hkey; compute_done.
Qed.

Lemma checkRedirect_hop_witness :
  let bc := newClient (exampleProfile chromeUA) exampleConfig in
  let prev := mkRequest "GET" (mkURL "http://example.com/a" "/a")
                        (<["Authorization" := ["Bearer t"]]> ∅) in
  let req := mkRequest "GET" (mkURL "http://example.com/b" "/b") ∅ in
  (@checkRedirect exampleLib req [prev] bc
     (worldWith (λ _, O) quietNet)).1.1.1 = None.
Proof.
  cbv zeta.
  refine (proj1
    (@checkRedirect_hop exampleLib
       (newClient (exampleProfile chromeUA) exampleConfig)
       (mkRequest "GET" (mkURL "http://example.com/b" "/b") ∅)
       [mkRequest "GET" (mkURL "http://example.com/a" "/a")
                  (<["Authorization" := ["Bearer t"]]> ∅)]
       (mkRequest "GET" (mkURL "http://example.com/a" "/a")
                  (<["Authorization" := ["Bearer t"]]> ∅))
       (worldWith (λ _, O) quietNet) _ _)).
  - reflexivity.
  - simpl. lia.
Defined.

Lemma StreamGet_eq `{GoLib} bc url config options w u :
  http_NewRequest "GET" url = inl u →
  let opts := mergeOptions bc options in
  let hb := SetContext (headerBuilder bc) (IsNavigate opts) (Referrer opts)
                       (Origin opts) in
  let b := BuildHeaders hb (mkRequest "GET" u ∅) w in
  StreamGet bc url config options w
  = match (roundTrip b.1 b.2).1 with
    | RoundTripError e =>
        (Some (Err (urlError (urlErrorOp "GET") (URL_String u) e)),
         set_headerBuilder bc hb, (roundTrip b.1 b.2).2)
    | RoundTripResponse resp =>
        (StreamResponse resp config, set_headerBuilder bc hb,
         (roundTrip b.1 b.2).2)
    end.
Proof.
  intros Hu. cbv zeta. unfold StreamGet. rewrite Hu.
  pose proof (BuildHeaders_URL
    (SetContext (headerBuilder bc) (IsNavigate (mergeOptions bc options))
       (Referrer (mergeOptions bc options)) (Origin (mergeOptions bc options)))
    (mkRequest "GET" u ∅) w) as Hurl.
  assert (Hm : Method (BuildHeaders
    (SetContext (headerBuilder bc) (IsNavigate (mergeOptions bc options))
       (Referrer (mergeOptions bc options)) (Origin (mergeOptions bc options)))
    (mkRequest "GET" u ∅) w).1 = "GET").
  { unfold BuildHeaders. destruct (generateHeaders _ _ _ _).
    by destruct (range _ _). }
  destruct (BuildHeaders _ _ _) as [req1 w1]. cbn [fst snd] in *.
  rewrite Client_do_S. cbv zeta. cbn [head default].
  destruct (roundTrip req1 w1) as [rt w2]. cbn [fst snd].
  destruct rt as [e|resp].
  - by rewrite Hm, Hurl.
  - unfold useLastResponse. by destruct (redirect resp) as [[m loc]|].
Qed.

(** X10. [StreamGet] on an address that parses makes exactly one round
    trip, with the request as [BuildHeaders] left it, and never sleeps nor
    touches the history. The response of that round trip is the one that is
    streamed, also when it is a redirect: the redirect is not followed. A
    transport error comes back wrapped with the operation and the address.
    The call always returns. *)
Theorem StreamGet_one_round_trip `{GoLib} (bc : BrowserClient) (url : string)
    (config : StreamConfig) (options : list RequestOptions) (w : World)
    (u : URL) :
  http_NewRequest "GET" url = inl u →
  let opts := mergeOptions bc options in
  let hb := SetContext (headerBuilder bc) (IsNavigate opts) (Referrer opts)
                       (Origin opts) in
  let req := (BuildHeaders hb (mkRequest "GET" u ∅) w).1 in
  let res := StreamGet bc url config options w in
  sent res.2 = S (sent w)
  ∧ slept res.2 = slept w
  ∧ history res.1.2 = history bc
  ∧ is_Some res.1.1
  ∧ match network w (sent w) req with
    | RoundTripResponse resp => res.1.1 = StreamResponse resp config
    | RoundTripError e =>
        res.1.1 = Some (Err (urlError (urlErrorOp "GET") (URL_String u) e))
    end.
Proof.
  intros Hu. cbv zeta. rewrite (StreamGet_eq bc url config options w u Hu).
  cbv zeta.
  match goal with |- context [BuildHeaders ?hb ?rq w] =>
    destruct (BuildHeaders_world hb rq w) as (Hnet & Hsent & Hslept);
    destruct (BuildHeaders hb rq w) as [req1 w1] end.
  cbn [fst snd] in *. unfold roundTrip. cbn [fst snd].
  rewrite Hnet, Hsent.
  destruct (network w (sent w) req1) as [e|resp]; cbn [fst snd sent slept];
    rewrite ?Hsent, ?Hslept; repeat split; try reflexivity.
  - by eexists.
  - apply StreamResponse_total.
Qed.

Lemma StreamGet_one_round_trip_witness :
  let bc := newClient (exampleProfile chromeUA) exampleConfig in
  let w := worldWith (λ _, O) (λ _ _, RoundTripResponse
                                 (redirectTo "http://example.com/next")) in
  sent (@StreamGet exampleLib bc "http://example.com/"
          (mkStreamConfig "" 0 0) [] w).2 = 1%nat.
Proof.
  cbv zeta.
  exact (proj1
    (@StreamGet_one_round_trip exampleLib
       (newClient (exampleProfile chromeUA) exampleConfig)
       "http://example.com/" (mkStreamConfig "" 0 0) []
       (worldWith (λ _, O) (λ _ _, RoundTripResponse
                              (redirectTo "http://example.com/next")))
       (mkURL "http://example.com/" "/") eq_refl)).
Defined.

(** X11. Of the options of a call, [StreamGet] reads [IsNavigate],
    [Referrer] and [Origin] of the first one only: the caller's [Headers]
    are not laid over the request, unlike in [Do], and the redirect
    settings and any further options are not read. *)
Theorem StreamGet_ignores_custom_headers `{GoLib} (bc : BrowserClient)
    (url : string) (config : StreamConfig) (opt opt' : RequestOptions)
    (rest rest' : list RequestOptions) (w : World) :
  IsNavigate opt = IsNavigate opt' →
  Referrer opt = Referrer opt' →
  Origin opt = Origin opt' →
  StreamGet bc url config (opt :: rest) w
  = StreamGet bc url config (opt' :: rest') w.
Proof.
  intros Hn Hr Ho. unfold StreamGet.
  destruct (http_NewRequest "GET" url) as [u|err]; [|reflexivity].
  assert (Hopts :
    IsNavigate (mergeOptions bc (opt :: rest))
    = IsNavigate (mergeOptions bc (opt' :: rest'))
    ∧ Referrer (mergeOptions bc (opt :: rest))
      = Referrer (mergeOptions bc (opt' :: rest'))
    ∧ Origin (mergeOptions bc (opt :: rest))
      = Origin (mergeOptions bc (opt' :: rest'))).
  { unfold mergeOptions. cbn [Referrer Origin IsNavigate].
    rewrite Hn, Hr, Ho.
    destruct (last (history bc)); [|done].
    by destruct (String.eqb _ _). }
  destruct Hopts as (-> & -> & ->). reflexivity.
Qed.

Lemma StreamGet_ignores_custom_headers_witness :
  let bc := newClient (exampleProfile chromeUA) exampleConfig in
  let w := worldWith (λ _, O) quietNet in
  @StreamGet exampleLib bc "http://example.com/" (mkStreamConfig "" 0 0)
    [mkRequestOptions (Some {["X-Api-Key" := "secret"]}) true "" "" true 10] w
  = @StreamGet exampleLib bc "http://example.com/" (mkStreamConfig "" 0 0)
    [mkRequestOptions None true "" "" false 0] w.
Proof.
  cbv zeta.
  exact (@StreamGet_ignores_custom_headers exampleLib
           (newClient (exampleProfile chromeUA) exampleConfig)
           "http://example.com/" (mkStreamConfig "" 0 0)
           (mkRequestOptions (Some {["X-Api-Key" := "secret"]}) true "" ""
                             true 10)
           (mkRequestOptions None true "" "" false 0) [] []
           (worldWith (λ _, O) quietNet) eq_refl eq_refl eq_refl).
Defined.

(** ** Retries *)

Lemma backoffAt_S (i : nat) :
  (if 30 * second_ns <? backoffAt i * 2 then 30 * second_ns
   else backoffAt i * 2) = backoffAt (S i).
Proof.
  unfold backoffAt, second_ns. rewrite Nat2Z.inj_succ, Z.pow_succ_r by lia.
  assert (0 < 2 ^ Z.of_nat i) by (apply Z.pow_pos_nonneg; lia).
  destruct (Z.ltb_spec (30 * 1000000000)
              (Z.min (2 ^ Z.of_nat i * 1000000000) (30 * 1000000000) * 2)); lia.
Qed.

Lemma Get_sent_error `{GoLib} bc url options w err :
  http_NewRequest "GET" url = inr err →
  Get bc url options w = (Err err, bc, w).
Proof. intros Hu. unfold Get. by rewrite Hu. Qed.

(** The sleeps of the loop from iteration [i] on. *)
Lemma retryLoop_schedule `{GoLib} url maxRetries options n (i : nat) lastErr
    bc w :
  Z.of_nat i + Z.of_nat n = maxRetries + 1 →
  let res := retryLoop url maxRetries options n (Z.of_nat i) lastErr
                       (backoffAt i) bc w in
  ∃ k : nat,
    (k ≤ n - 1)%nat
    ∧ slept res.2 = rev (backoffAt <$> seq i k) ++ slept w
    ∧ (∀ e, res.1.1 = Err e → k = (n - 1)%nat).
Proof.
  revert i lastErr bc w. induction n as [|n IH]; intros i lastErr bc w Hi.
  - exists O. by repeat split.
  - cbv zeta. rewrite retryLoop_S. cbv zeta.
    pose proof (Get_slept bc url options w) as Hget.
    destruct (Get bc url options w) as [[res bc1] w1]. cbn [snd] in Hget.
    assert (Hstep : ∀ err,
      ∃ k : nat,
        (k ≤ S n - 1)%nat
        ∧ slept (let '(backoff0, w0) :=
                   if Z.of_nat i <? maxRetries
                   then (if 30 * second_ns <? backoffAt i * 2
                         then 30 * second_ns else backoffAt i * 2,
                         time_Sleep (backoffAt i) w1)
                   else (backoffAt i, w1) in
                 retryLoop url maxRetries options n (Z.of_nat i + 1) err
                           backoff0 bc1 w0).2
          = rev (backoffAt <$> seq i k) ++ slept w
        ∧ (∀ e,
             (let '(backoff0, w0) :=
                if Z.of_nat i <? maxRetries
                then (if 30 * second_ns <? backoffAt i * 2
                      then 30 * second_ns else backoffAt i * 2,
                      time_Sleep (backoffAt i) w1)
                else (backoffAt i, w1) in
              retryLoop url maxRetries options n (Z.of_nat i + 1) err
                        backoff0 bc1 w0).1.1 = Err e → k = (S n - 1)%nat)).
    { intros err. destruct (Z.ltb_spec (Z.of_nat i) maxRetries) as [Hlt|Hge].
      - rewrite backoffAt_S.
        replace (Z.of_nat i + 1) with (Z.of_nat (S i)) by lia.
        destruct (IH (S i) err bc1 (time_Sleep (backoffAt i) w1)
                    ltac:(lia)) as (k & Hk & Hs & He).
        exists (S k). split; [lia|]. split.
        + cbv zeta in Hs. rewrite Hs. unfold time_Sleep. cbn [slept].
          rewrite Hget. cbn [seq fmap list_fmap rev].
          change (list_fmap nat Z backoffAt (seq (S i) k))
            with (backoffAt <$> seq (S i) k).
          by rewrite <- app_assoc.
        + intros e Hres. cbv zeta in He. rewrite (He e Hres). lia.
      - assert (n = O) as -> by lia. exists O. cbn [retryLoop snd fst].
        by repeat split. }
    destruct res as [resp|err]; [|apply Hstep].
    destruct (StatusCode resp <? 500); [|apply Hstep].
    exists O. cbn [fst snd]. split; [lia|]. split; [by rewrite Hget|].
    discriminate.
Qed.

(** X12. [GetWithRetry] returns a response only with a status below 500,
    and otherwise the error built after the last attempt. Between its
    attempts it sleeps 1, 2, 4, 8, 16 and then 30 seconds each time: the
    sleeps it adds are the first [k] values of [backoffAt], for some [k] of
    at most [maxRetries], and all [maxRetries] of them when it returns an
    error. *)
Theorem GetWithRetry_backoff `{GoLib} (bc : BrowserClient) (url : string)
    (maxRetries : Z) (options : list RequestOptions) (w : World) :
  let res := GetWithRetry bc url maxRetries options w in
  match res.1.1 with
  | Ok resp => StatusCode resp < 500
  | Err e =>
      ∃ err, e = Errorf_w ("failed after " +:+ itoa maxRetries +:+ " retries: ")
                          err
  end
  ∧ ∃ k : nat,
      (k ≤ Z.to_nat maxRetries)%nat
      ∧ slept res.2 = rev (backoffAt <$> seq 0 k) ++ slept w
      ∧ (∀ e, res.1.1 = Err e → k = Z.to_nat maxRetries).
Proof.
  cbv zeta. split; [apply retryLoop_result|]. unfold GetWithRetry.
  destruct (Z.le_gt_cases 0 (maxRetries + 1)) as [Hge|Hlt].
  - destruct (retryLoop_schedule url maxRetries options
                (Z.to_nat (maxRetries + 1)) O None bc w ltac:(lia))
      as (k & Hk & Hs & He).
    change (backoffAt 0) with (1 * second_ns) in *. cbn [Z.of_nat] in *.
    exists k. split; [lia|]. split; [exact Hs|].
    intros e Hres. rewrite (He e Hres). lia.
  - replace (Z.to_nat (maxRetries + 1)) with O by lia.
    exists O. cbn [retryLoop fst snd]. split; [lia|]. split; [done|].
    intros _ _. lia.
Qed.

(** X13. With a negative [maxRetries] the loop body of [GetWithRetry] never
    runs: no request is made, nothing is slept, and the error returned
    wraps nothing and prints the verb itself. *)
Theorem GetWithRetry_negative `{GoLib} (bc : BrowserClient) (url : string)
    (maxRetries : Z) (options : list RequestOptions) (w : World) :
  maxRetries < 0 →
  GetWithRetry bc url maxRetries options w
  = (Err (errorString ("failed after " +:+ itoa maxRetries
                         +:+ " retries: " +:+ "%!w(<nil>)")),
     bc, w).
Proof.
  intros Hneg. unfold GetWithRetry.
  replace (Z.to_nat (maxRetries + 1)) with O by lia.
  cbn [retryLoop]. unfold Errorf_w. by rewrite <- !append_assoc.
Qed.

Lemma GetWithRetry_negative_witness :
  (@GetWithRetry exampleLib (newClient (exampleProfile chromeUA) exampleConfig)
     "http://example.com/" (-1) [] (worldWith (λ _, O) quietNet)).1.1
  = Err (errorString "failed after -1 retries: %!w(<nil>)").
Proof.
  rewrite (@GetWithRetry_negative exampleLib
             (newClient (exampleProfile chromeUA) exampleConfig)
             "http://example.com/" (-1) [] (worldWith (λ _, O) quietNet)
             ltac:(lia)).
  reflexivity.
Defined.

Lemma retryLoop_unparseable `{GoLib} url maxRetries options n i lastErr
    backoff bc w err :
  http_NewRequest "GET" url = inr err →
  let res := retryLoop url maxRetries options n i lastErr backoff bc w in
  res.1.1 = Err (Errorf_w ("failed after " +:+ itoa maxRetries
                             +:+ " retries: ")
                          (match n with O => lastErr | S _ => Some err end))
  ∧ res.1.2 = bc
  ∧ sent res.2 = sent w.
Proof.
  intros Hu. revert i lastErr backoff w.
  induction n as [|n IH]; intros i lastErr backoff w; [done|].
  cbv zeta. rewrite retryLoop_S, (Get_sent_error bc url options w err Hu).
  cbv zeta.
  destruct (i <? maxRetries).
  - destruct (IH (i + 1) (Some err)
                (if 30 * second_ns <? backoff * 2 then 30 * second_ns
                 else backoff * 2) (time_Sleep backoff w))
      as (Hres & Hbc & Hsent).
    cbv zeta in Hres, Hbc, Hsent. rewrite Hres, Hbc, Hsent.
    by destruct n.
  - destruct (IH (i + 1) (Some err) backoff w) as (Hres & Hbc & Hsent).
    cbv zeta in Hres, Hbc, Hsent. rewrite Hres, Hbc, Hsent.
    by destruct n.
Qed.

(** X14. An address that does not parse is retried like any failure:
    [GetWithRetry] goes through all its iterations and sleeps the whole
    backoff schedule, [maxRetries] sleeps, though no request is ever sent;
    the error returned wraps the parse error. *)
Theorem GetWithRetry_unparseable `{GoLib} (bc : BrowserClient) (url : string)
    (maxRetries : Z) (options : list RequestOptions) (w : World)
    (err : error) :
  http_NewRequest "GET" url = inr err →
  0 ≤ maxRetries →
  let res := GetWithRetry bc url maxRetries options w in
  res.1.1 = Err (wrapError ("failed after " +:+ itoa maxRetries
                              +:+ " retries: " +:+ Error err) err)
  ∧ res.1.2 = bc
  ∧ sent res.2 = sent w
  ∧ slept res.2
    = rev (backoffAt <$> seq 0 (Z.to_nat maxRetries)) ++ slept w.
Proof.
  intros Hu Hge. cbv zeta. unfold GetWithRetry.
  destruct (retryLoop_unparseable url maxRetries options
              (Z.to_nat (maxRetries + 1)) 0 None (1 * second_ns) bc w err Hu)
    as (Hres & Hbc & Hsent).
  cbv zeta in Hres, Hbc, Hsent.
  destruct (retryLoop_schedule url maxRetries options
              (Z.to_nat (maxRetries + 1)) O None bc w ltac:(lia))
    as (k & Hk & Hs & He).
  change (backoffAt 0) with (1 * second_ns) in *. cbn [Z.of_nat] in *.
  rewrite (He _ Hres) in Hs.
  replace (Z.to_nat (maxRetries + 1) - 1)%nat with (Z.to_nat maxRetries)
    in Hs by lia.
  split; [|by repeat split].
  rewrite Hres. replace (Z.to_nat (maxRetries + 1)) with (S (Z.to_nat maxRetries))
    by lia.
  unfold Errorf_w. by rewrite <- !append_assoc.
Qed.

Lemma GetWithRetry_unparseable_witness :
  let res :=
    @GetWithRetry strictLib (newClient (exampleProfile chromeUA) exampleConfig)
      "http://exa mple.com/" 2 [] (worldWith (λ _, O) quietNet) in
  sent res.2 = O ∧ slept res.2 = [2 * second_ns; 1 * second_ns].
Proof.
  cbv zeta.
  pose proof (@GetWithRetry_unparseable strictLib
                (newClient (exampleProfile chromeUA) exampleConfig)
                "http://exa mple.com/" 2 [] (worldWith (λ _, O) quietNet)
                (errorString "parse: invalid character in host name")
                eq_refl ltac:(lia)) as (_ & _ & Hsent & Hslept).
  split; [exact Hsent|exact Hslept].
Defined.

(** ** The stream reader: bytes counted and bytes kept *)

Lemma readerSize_cons r rd :
  readerSize (r :: rd) = (String.length (data r) + readerSize rd)%nat.
Proof. reflexivity. Qed.

(** What [ReadString] hands out and what it leaves buffered are the bytes
    that were buffered and the bytes it read; after an error nothing is
    left buffered. *)
Lemma readStringFrom_count rd buf perr count :
  let '(line, err, b) := readStringFrom rd buf perr count in
  Z.of_nat (String.length line) + Z.of_nat (String.length (b_buf b))
  = Z.of_nat (String.length buf) + (countingBytesRead b - count)
  ∧ countingBytesRead b + Z.of_nat (readerSize (b_rd b))
    = count + Z.of_nat (readerSize rd)
  ∧ (err ≠ None → b_buf b = "").
Proof.
  revert buf perr count. induction rd as [|r rd IH]; intros buf perr count;
    rewrite readStringFrom_eq.
  - destruct (cut_line buf) as [[l rest]|] eqn:Hcut.
    + destruct (cut_line_Some _ _ _ Hcut) as (-> & _ & _).
      cbn [b_buf b_rd countingBytesRead]. rewrite length_append.
      split; [lia|]. split; [lia|done].
    + destruct perr as [e|]; cbn [b_buf b_rd countingBytesRead String.length];
        (split; [lia|]); (split; [lia|done]).
  - destruct (cut_line buf) as [[l rest]|] eqn:Hcut.
    + destruct (cut_line_Some _ _ _ Hcut) as (-> & _ & _).
      cbn [b_buf b_rd countingBytesRead]. rewrite length_append.
      split; [lia|]. split; [lia|done].
    + destruct perr as [e|].
      * cbn [b_buf b_rd countingBytesRead String.length].
        split; [lia|]. split; [lia|done].
      * specialize (IH (buf +:+ data r) (rerr r)
                       (count + Z.of_nat (String.length (data r)))).
        destruct (readStringFrom _ _ _ _) as [[line err] b].
        destruct IH as (H1 & H2 & H3). rewrite length_append in H1.
        rewrite readerSize_cons. split; [lia|]. split; [lia|exact H3].
Qed.

Lemma streamLoop_bytes config fuel b content x total :
  Z.of_nat (String.length content) + Z.of_nat (String.length (b_buf b))
  = countingBytesRead b →
  countingBytesRead b + Z.of_nat (readerSize (b_rd b)) = total →
  streamLoop config fuel b content = Some (Ok x) →
  Z.of_nat (String.length (Content x)) ≤ BytesRead x ≤ total
  ∧ (FoundContent x = false → MaxBytes config ≤ 0 →
     BytesRead x = Z.of_nat (String.length (Content x))).
Proof.
  revert b content. induction fuel as [|fuel IH]; intros b content Hc Ht;
    [discriminate|].
  rewrite streamLoop_S.
  destruct ((0 <? MaxBytes config) && (MaxBytes config <=? countingBytesRead b))
    eqn:Hceil.
  { apply andb_true_iff in Hceil as [H0%Z.ltb_lt _].
    intros [= <-]. cbn [Content BytesRead FoundContent]. split; lia. }
  unfold ReadString.
  pose proof (readStringFrom_count (b_rd b) (b_buf b) (b_err b)
                (countingBytesRead b)) as Hrs.
  destruct (readStringFrom _ _ _ _) as [[line err] b'].
  destruct Hrs as (H1 & H2 & H3).
  assert (Hcontent :
    String.length (if String.eqb line "" then content else content +:+ line)
    = (String.length content + String.length line)%nat).
  { destruct (String.eqb_spec line ""); [subst; simpl; lia|].
    apply length_append. }
  destruct (negb (String.eqb line "") && _ && _).
  { intros [= <-]. cbn [Content BytesRead FoundContent]. rewrite Hcontent.
    split; [lia|discriminate]. }
  destruct err as [e|].
  - destruct (is_EOF e); [|discriminate]. intros [= <-].
    cbn [Content BytesRead FoundContent]. rewrite Hcontent.
    rewrite H3 in H1 by done. cbn [String.length] in H1. split; lia.
  - apply IH; [|lia]. rewrite Hcontent. lia.
Qed.

(** X15. The byte counter of a result counts the bytes the decoded body
    has delivered, line kept or not: it is at least the length of the
    content returned and at most the size of the decoded body. When the
    reader went to the end of the stream (no stop-substring found, no byte
    ceiling configured) the two are equal. *)
Theorem StreamResponse_bytes `{GoLib} (resp : Response) (config : StreamConfig)
    (reader : Reader) (x : StreamResult) :
  getResponseReader resp = inl reader →
  StreamResponse resp config = Some (Ok x) →
  Z.of_nat (String.length (Content x)) ≤ BytesRead x
  ∧ BytesRead x ≤ Z.of_nat (readerSize reader)
  ∧ (FoundContent x = false → MaxBytes config ≤ 0 →
     BytesRead x = Z.of_nat (String.length (Content x))).
Proof.
  intros Hreader. unfold StreamResponse. rewrite Hreader. intros Hloop.
  apply (streamLoop_bytes _ _ _ _ _ (Z.of_nat (readerSize reader))) in Hloop;
    [|reflexivity|reflexivity].
  destruct Hloop as [[H1 H2] H3]. split; [exact H1|]. split; [exact H2|].
  intros Hf Hm. apply H3; [exact Hf|]. by destruct (BufferSize config <=? 0).
Qed.

Lemma StreamResponse_bytes_witness :
  let x := mkStreamResult 11 (ln "alpha") true in
  Z.of_nat (String.length (Content x)) ≤ BytesRead x
  ∧ BytesRead x ≤ 11.
Proof.
  cbv zeta.
  destruct (@StreamResponse_bytes exampleLib
              (plainBody (ln "alpha" +:+ "omega"))
              (mkStreamConfig "ph" 0 0)
              [mkReadResult (ln "alpha" +:+ "omega") None]
              (mkStreamResult 11 (ln "alpha") true)
              eq_refl eq_refl) as (H1 & H2 & _).
  split; [exact H1|exact H2].
Defined.

(** Without a byte ceiling the result is the one expected of the text. *)
Lemma StreamResponse_unlimited `{GoLib} resp config reader :
  getResponseReader resp = inl reader →
  MaxBytes config ≤ 0 →
  ∃ res, StreamResponse resp config = Some res
         ∧ outcome res = expected (StopOnContent config) (pending reader).1
                                  (pending reader).2.
Proof.
  intros Hreader Hmax. unfold StreamResponse. rewrite Hreader.
  set (config' := if BufferSize config <=? 0 then _ else config).
  assert (Hstop : StopOnContent config' = StopOnContent config)
    by (unfold config'; by destruct (BufferSize config <=? 0)).
  assert (Hmax' : MaxBytes config' = MaxBytes config)
    by (unfold config'; by destruct (BufferSize config <=? 0)).
  pose proof (pending_length reader) as Hlen.
  pose proof (streamLoop_spec config' (S (readerSize reader))
                (mkBufReader reader "" None 0) "") as Hloop.
  unfold remaining in Hloop. cbn [b_rd b_buf b_err] in Hloop.
  destruct (pending reader) as [text e]. cbn [fst snd] in *.
  change ("" +:+ text) with text in Hloop.
  destruct Hloop as (res & Hres & Hspec); [lia|].
  exists res. split; [exact Hres|]. rewrite Hstop in Hspec.
  destruct Hspec as [Ho|[H0 _]]; [|lia].
  rewrite Ho. by destruct (expected _ _ _) as [[? ?]|?].
Qed.

(** X16. Without a byte ceiling, what [StreamResponse] returns (the content
    and the flag, or the error) depends on the decoded body through its
    text before the first read error and that error only: neither the way
    the body arrives in reads nor the buffer size configured changes it. *)
Theorem StreamResponse_chunking `{GoLib} (resp1 resp2 : Response)
    (config1 config2 : StreamConfig) (reader1 reader2 : Reader) :
  getResponseReader resp1 = inl reader1 →
  getResponseReader resp2 = inl reader2 →
  pending reader1 = pending reader2 →
  StopOnContent config1 = StopOnContent config2 →
  MaxBytes config1 ≤ 0 → MaxBytes config2 ≤ 0 →
  ∃ res1 res2,
    StreamResponse resp1 config1 = Some res1
    ∧ StreamResponse resp2 config2 = Some res2
    ∧ outcome res1 = outcome res2.
Proof.
  intros Hr1 Hr2 Hp Hs Hm1 Hm2.
  destruct (StreamResponse_unlimited resp1 config1 reader1 Hr1 Hm1)
    as (res1 & Hres1 & Ho1).
  destruct (StreamResponse_unlimited resp2 config2 reader2 Hr2 Hm2)
    as (res2 & Hres2 & Ho2).
  exists res1, res2. split; [exact Hres1|]. split; [exact Hres2|].
  by rewrite Ho1, Ho2, Hp, Hs.
Qed.

Lemma StreamResponse_chunking_witness :
  ∃ res1 res2,
    @StreamResponse exampleLib (plainBody (ln "alpha" +:+ "omega"))
      (mkStreamConfig "ph" 0 0) = Some res1
    ∧ @StreamResponse exampleLib
        (mkResponse 200 ∅ [mkReadResult "al" None;
                           mkReadResult ("pha" +:+ ln "" +:+ "ome") None;
                           mkReadResult "ga" None] None)
        (mkStreamConfig "ph" 4 0) = Some res2
    ∧ outcome res1 = outcome res2.
Proof.
  apply (@StreamResponse_chunking exampleLib
           (plainBody (ln "alpha" +:+ "omega"))
           (mkResponse 200 ∅ [mkReadResult "al" None;
                              mkReadResult ("pha" +:+ ln "" +:+ "ome") None;
                              mkReadResult "ga" None] None)
           (mkStreamConfig "ph" 0 0) (mkStreamConfig "ph" 4 0)
           [mkReadResult (ln "alpha" +:+ "omega") None]
           [mkReadResult "al" None;
            mkReadResult ("pha" +:+ ln "" +:+ "ome") None;
            mkReadResult "ga" None]);
    first [reflexivity | by vm_compute].
Defined.

(** X17. For a stop-substring that is not empty and has no newline in it,
    and without a byte ceiling, [StreamResponse] returns a result with
    [FoundContent = true] exactly when the text of the decoded body before
    its first read error contains the substring; a read error that comes
    after the line that contains it is not reported. It returns an error
    only when the text does not contain the substring. *)
Theorem StreamResponse_found_iff_contains `{GoLib} (resp : Response)
    (config : StreamConfig) (reader : Reader) :
  getResponseReader resp = inl reader →
  MaxBytes config ≤ 0 →
  StopOnContent config ≠ "" →
  noNewline (StopOnContent config) = true →
  ((∃ x, StreamResponse resp config = Some (Ok x) ∧ FoundContent x = true)
   ↔ strings_Contains (pending reader).1 (StopOnContent config) = true)
  ∧ (∀ err, StreamResponse resp config = Some (Err err) →
       strings_Contains (pending reader).1 (StopOnContent config) = false
       ∧ err = (pending reader).2).
Proof.
  intros Hreader Hmax Hne Hno.
  destruct (StreamResponse_unlimited resp config reader Hreader Hmax)
    as (res & Hres & Ho).
  pose proof (found_iff_observed (StopOnContent config) (pending reader).1
                Hno Hne) as Hiff.
  rewrite Hres. unfold expected in Ho.
  destruct (throughFirstHit _ _) as [c|] eqn:Hhit.
  - assert (Hc : strings_Contains (pending reader).1 (StopOnContent config)
                 = true) by (apply Hiff; by eexists).
    destruct res as [x|err]; [|discriminate]. injection Ho as Hcx Hfx.
    split.
    + split; [done|]. intros _. by exists x.
    + intros err [=].
  - assert (Hc : strings_Contains (pending reader).1 (StopOnContent config)
                 = false).
    { destruct (strings_Contains _ _) eqn:Hc; [|done].
      destruct (proj2 Hiff eq_refl) as [? [=]]. }
    rewrite Hc. split.
    + split; [|discriminate]. intros (x & [= ->] & Hf).
      destruct (is_EOF _); [|discriminate]. injection Ho as _ Hfx. congruence.
    + intros err [= ->]. split; [done|].
      destruct (is_EOF _); [discriminate|]. by injection Ho.
Qed.

Lemma StreamResponse_found_iff_contains_witness :
  (∃ x, @StreamResponse exampleLib
          (mkResponse 200 ∅
             [mkReadResult (ln "alpha" +:+ "omega")
                           (Some (errorString "connection reset"))] None)
          (mkStreamConfig "ph" 0 0) = Some (Ok x)
        ∧ FoundContent x = true).
Proof.
  refine (proj2 (proj1
    (@StreamResponse_found_iff_contains exampleLib
       (mkResponse 200 ∅
          [mkReadResult (ln "alpha" +:+ "omega")
                        (Some (errorString "connection reset"))] None)
       (mkStreamConfig "ph" 0 0)
       [mkReadResult (ln "alpha" +:+ "omega")
                     (Some (errorString "connection reset"))]
       _ _ _ _)) _).
  - reflexivity.
  - cbn. lia.
  - discriminate.
  - reflexivity.
  - reflexivity.
Defined.

(** ** The TLS template and the protocols offered *)

Lemma firstContained_cases ua keys d :
  (firstContained ua keys d = d
   ∧ ∀ b, b ∈ keys → strings_Contains ua b = false)
  ∨ (firstContained ua keys d ∈ keys
     ∧ strings_Contains ua (firstContained ua keys d) = true).
Proof.
  induction keys as [|b keys IH].
  - left. split; [reflexivity|]. intros b Hb. by apply elem_of_nil in Hb.
  - cbn [firstContained]. destruct (strings_Contains ua b) eqn:Hb.
    + right. split; [by left|exact Hb].
    + destruct IH as [[Hd Hall]|[Hin Hc]].
      * left. split; [exact Hd|]. intros b' Hb'.
        apply elem_of_cons in Hb' as [->|Hb']; [exact Hb|by apply Hall].
      * right. split; [by right|exact Hc].
Qed.

Lemma templatesOf_nonempty fam :
  is_Some (browserFingerprints !! fam) →
  (0 < length (templatesOf fam))%nat ∧ HelloRandomized ∉ templatesOf fam.
Proof.
  intros [ts Hts]. unfold templatesOf. rewrite Hts. cbn [default].
  apply elem_of_map_to_list in Hts. rewrite browserFingerprints_entries in Hts.
  repeat (apply elem_of_cons in Hts as [[= -> ->]|Hts];
          [split; [simpl; lia|compute_done]|]).
  by apply elem_of_nil in Hts.
Qed.

Lemma selectFingerprint_in (ua : string) (w : World) :
  ∃ fam,
    is_Some (browserFingerprints !! fam)
    ∧ (selectFingerprint ua false w).1 ∈ templatesOf fam
    ∧ (strings_Contains ua fam = true
       ∨ (fam = "Chrome"
          ∧ ∀ b, is_Some (browserFingerprints !! b) →
                 strings_Contains ua b = false)).
Proof.
  unfold selectFingerprint. destruct (newRand w) as [r w1].
  pose proof (range_Permutation (map_to_list browserFingerprints) w1) as Hperm.
  destruct (range _ w1) as [entries w2]. cbn [fst] in Hperm.
  assert (Hkeys : ∀ b, b ∈ entries.*1 ↔ is_Some (browserFingerprints !! b)).
  { intros b. split.
    - intros Hb. apply list_elem_of_fmap in Hb as ([b' ts'] & -> & Hb).
      rewrite Hperm in Hb. apply elem_of_map_to_list in Hb. by eexists.
    - intros [ts Hts]. apply list_elem_of_fmap. exists (b, ts).
      split; [reflexivity|]. rewrite Hperm. by apply elem_of_map_to_list. }
  exists (firstContained ua entries.*1 "Chrome").
  assert (Hfam : is_Some (browserFingerprints
                            !! firstContained ua entries.*1 "Chrome")
                 ∧ (strings_Contains ua (firstContained ua entries.*1 "Chrome")
                    = true
                    ∨ (firstContained ua entries.*1 "Chrome" = "Chrome"
                       ∧ ∀ b, is_Some (browserFingerprints !! b) →
                              strings_Contains ua b = false))).
  { destruct (firstContained_cases ua entries.*1 "Chrome")
      as [[Hd Hall]|[Hin Hc]].
    - rewrite Hd. split; [by eexists|]. right. split; [reflexivity|].
      intros b Hb. by apply Hall, Hkeys.
    - split; [by apply Hkeys|by left]. }
  destruct Hfam as [Hsome Hor]. split; [exact Hsome|]. split; [|exact Hor].
  destruct (templatesOf_nonempty _ Hsome) as [Hlen _].
  pose proof (Intn_bound r (length (templatesOf
                (firstContained ua entries.*1 "Chrome"))) Hlen) as Hb.
  destruct (Intn r _) as [i r']. cbn [fst] in *.
  destruct (lookup_lt_is_Some_2 _ _ Hb) as [t Ht]. rewrite Ht.
  cbn [default]. by eapply list_elem_of_lookup_2.
Qed.

(** X18. Without randomisation [selectFingerprint] always returns a
    template of the table, never the randomised one: a template listed for
    a key of the table that the user agent contains, or for Chrome when it
    contains none. When the user agent contains exactly one key, the
    template is one of that family, whatever the iteration order of the
    table and the draw. *)
Theorem selectFingerprint_from_table (userAgent : string) (w : World) :
  let fp := (selectFingerprint userAgent false w).1 in
  (∃ fam,
     is_Some (browserFingerprints !! fam)
     ∧ fp ∈ templatesOf fam
     ∧ (strings_Contains userAgent fam = true
        ∨ (fam = "Chrome"
           ∧ ∀ b, is_Some (browserFingerprints !! b) →
                  strings_Contains userAgent b = false)))
  ∧ fp ≠ HelloRandomized
  ∧ (∀ fam,
       is_Some (browserFingerprints !! fam) →
       strings_Contains userAgent fam = true →
       (∀ b, is_Some (browserFingerprints !! b) →
             strings_Contains userAgent b = true → b = fam) →
       fp ∈ templatesOf fam).
Proof.
  cbv zeta. destruct (selectFingerprint_in userAgent w)
    as (fam & Hsome & Hin & Hor).
  split; [by exists fam|]. split.
  - intros Heq. rewrite Heq in Hin.
    destruct (templatesOf_nonempty fam Hsome) as [_ Hno]. exact (Hno Hin).
  - intros fam' Hsome' Hc Honly.
    by apply selectFingerprint_single_key.
Qed.

(** X19. A user agent of the Edge family, one that [detectBrowser] resolves
    to Edge, carries the token [Edg/]; unless it also contains the key
    [Edge] of the template table, [selectFingerprint] gives it a Chrome or a
    Safari template and never [HelloEdge_Auto]. *)
Theorem selectFingerprint_Edge_profile (userAgent : string) (w : World) :
  detectBrowser userAgent = "Edge" →
  strings_Contains userAgent "Edge" = false →
  let fp := (selectFingerprint userAgent false w).1 in
  fp ∈ templatesOf "Chrome" ++ templatesOf "Safari"
  ∧ fp ≠ HelloEdge_Auto.
Proof.
  intros Hdet Hno. cbv zeta.
  assert (Hff : strings_Contains userAgent "Firefox" = false).
  { unfold detectBrowser in Hdet.
    by destruct (strings_Contains userAgent "Firefox"). }
  destruct (selectFingerprint_in userAgent w) as (fam & [ts Hts] & Hin & Hor).
  assert (Hfam : fam = "Chrome" ∨ fam = "Safari").
  { apply elem_of_map_to_list in Hts.
    rewrite browserFingerprints_entries in Hts.
    repeat (apply elem_of_cons in Hts as [[= -> ->]|Hts];
            [first [by left | by right
                   | destruct Hor as [Hc|[[=] _]]; congruence]|]).
    by apply elem_of_nil in Hts. }
  assert (Hfp : (selectFingerprint userAgent false w).1
                ∈ templatesOf "Chrome" ++ templatesOf "Safari").
  { apply elem_of_app. destruct Hfam as [->| ->]; [by left|by right]. }
  split; [exact Hfp|]. intros Heq. rewrite Heq in Hfp. revert Hfp.
  compute_done.
Qed.

Lemma selectFingerprint_Edge_profile_witness :
  detectBrowser edgeUA = "Edge"
  ∧ (selectFingerprint edgeUA false (worldWith (λ _, O) quietNet)).1
    ≠ HelloEdge_Auto.
Proof.
  split; [reflexivity|].
  exact (proj2 (selectFingerprint_Edge_profile edgeUA
                  (worldWith (λ _, O) quietNet) eq_refl eq_refl)).
Defined.

Lemma getALPNProtocols_Safari (ua : string) (draw : Q) :
  detectBrowser ua = "Safari" →
  getALPNProtocols ua draw
  = if Qltb draw (3 # 10) then ["http/1.1"] else ["h2"; "http/1.1"].
Proof.
  intros Hdet. unfold getALPNProtocols.
  assert (Hs : strings_Contains ua "Safari"
               && negb (strings_Contains ua "Chrome") = true).
  { unfold detectBrowser in Hdet.
    destruct (strings_Contains ua "Firefox"); [discriminate|].
    destruct (strings_Contains ua "Safari"
              && negb (strings_Contains ua "Chrome")); [reflexivity|].
    by destruct (strings_Contains ua "Edg/"). }
  by rewrite Hs.
Qed.

(** X20. [getALPNProtocols] always offers [http/1.1], as the last
    protocol. A user agent that resolves to Chrome or to Edge is always
    offered [h2] as well, whatever the draw; one that resolves to Safari
    loses [h2] exactly when the draw is below 0.3. When [h2] is not
    offered, the draw was below 0.3 and the user agent resolves to Safari
    or to Firefox. *)
Theorem getALPNProtocols_h2 (userAgent : string) :
  (∀ draw, last (getALPNProtocols userAgent draw) = Some "http/1.1")
  ∧ (detectBrowser userAgent = "Chrome" ∨ detectBrowser userAgent = "Edge" →
     ∀ draw, getALPNProtocols userAgent draw = ["h2"; "http/1.1"])
  ∧ (detectBrowser userAgent = "Safari" →
     ∀ draw, getALPNProtocols userAgent draw
             = if Qltb draw (3 # 10) then ["http/1.1"]
               else ["h2"; "http/1.1"])
  ∧ (∀ draw, getALPNProtocols userAgent draw = ["http/1.1"] →
       Qltb draw (3 # 10) = true
       ∧ (detectBrowser userAgent = "Safari"
          ∨ detectBrowser userAgent = "Firefox")).
Proof.
  split; [|split; [|split]].
  - intros draw. unfold getALPNProtocols. by destruct (_ && _).
  - intros Hdet draw. unfold getALPNProtocols.
    assert (Hs : strings_Contains userAgent "Safari"
                 && negb (strings_Contains userAgent "Chrome") = false).
    { unfold detectBrowser in Hdet.
      destruct (strings_Contains userAgent "Firefox");
        [destruct Hdet; discriminate|].
      destruct (strings_Contains userAgent "Safari"
                && negb (strings_Contains userAgent "Chrome"));
        [destruct Hdet; discriminate|reflexivity]. }
    by rewrite Hs.
  - intros Hdet draw. by apply getALPNProtocols_Safari.
  - intros draw. unfold getALPNProtocols, detectBrowser.
    destruct (strings_Contains userAgent "Safari"
              && negb (strings_Contains userAgent "Chrome")); [|discriminate].
    destruct (Qltb draw (3 # 10)); [|discriminate]. intros _.
    split; [reflexivity|].
    destruct (strings_Contains userAgent "Firefox"); [by right|by left].
Qed.

(** ** Profiles *)

Lemma pick_elem {A} (table : list A) (d : A) (r : Rand) :
  (0 < length table)%nat → (pick table d r).1 ∈ table.
Proof.
  intros Hlen. unfold pick.
  pose proof (Intn_bound r (length table) Hlen) as Hb.
  destruct (Intn r (length table)) as [i r']. cbn [fst] in *.
  destruct (lookup_lt_is_Some_2 _ _ Hb) as [t Ht]. rewrite Ht.
  cbn [default]. by eapply list_elem_of_lookup_2.
Qed.

(** X21. Every field of a generated profile comes from its table, and
    the canvas noise is in [0, 1). The user agent is one
    of the eight of [userAgents], so a generated profile resolves to
    Chrome, Firefox or Safari and never to Edge. *)
Theorem generateBrowserProfile_fields (w : World) :
  let p := (generateBrowserProfile w).1 in
  (ViewportWidth p, ViewportHeight p) ∈ viewportSizes
  ∧ ColorDepth p ∈ colorDepths
  ∧ PixelRatio p ∈ pixelRatios
  ∧ Language p ∈ languages
  ∧ Platform p ∈ platforms
  ∧ Vendor p ∈ vendors
  ∧ TimezoneOffset p ∈ [-180; -120; -60; 0; 60; 120; 180]
  ∧ (0 <= CanvasNoise p)%Q ∧ (CanvasNoise p < 1)%Q
  ∧ UserAgent p ∈ userAgents
  ∧ detectBrowser (UserAgent p) ∈ ["Chrome"; "Firefox"; "Safari"].
Proof.
  cbv zeta. unfold generateBrowserProfile.
  destruct (newRand w) as [r0 w0].
  pose proof (pick_elem viewportSizes (0, 0) r0 ltac:(simpl; lia)) as Hv.
  destruct (pick viewportSizes (0, 0) r0) as [[vw vh] r1].
  pose proof (pick_elem colorDepths 0 r1 ltac:(simpl; lia)) as Hc.
  destruct (pick colorDepths 0 r1) as [cd r2].
  pose proof (pick_elem pixelRatios 0%Q r2 ltac:(simpl; lia)) as Hp.
  destruct (pick pixelRatios 0%Q r2) as [pr r3].
  pose proof (pick_elem languages "" r3 ltac:(simpl; lia)) as Hl.
  destruct (pick languages "" r3) as [lang r4].
  pose proof (pick_elem platforms "" r4 ltac:(simpl; lia)) as Hpl.
  destruct (pick platforms "" r4) as [plat r5].
  pose proof (pick_elem vendors "" r5 ltac:(simpl; lia)) as Hve.
  destruct (pick vendors "" r5) as [vend r6].
  pose proof (pick_elem [-180; -120; -60; 0; 60; 120; 180] 0 r6
                ltac:(simpl; lia)) as Htz.
  destruct (pick [-180; -120; -60; 0; 60; 120; 180] 0 r6) as [tz r7].
  destruct (time_Now w0) as [now w1].
  destruct (Int63 r7) as [n r8].
  pose proof (Float32_fst r8) as Hf.
  destruct (Float32 r8) as [noise r9].
  pose proof (pick_elem userAgents "" r9 ltac:(simpl; lia)) as Hua.
  destruct (pick userAgents "" r9) as [ua r10].
  cbn [fst snd ViewportWidth ViewportHeight ColorDepth PixelRatio Language
       Platform Vendor TimezoneOffset CanvasNoise UserAgent] in *.
  repeat (split; [assumption|]).
  assert (Hmod := Z.mod_pos_bound (src r8 (drawn r8)) (Z.pos float32Grid)
                    ltac:(lia)).
  split; [|split; [|split; [exact Hua|]]].
  - rewrite Hf. unfold Qle. cbn [Qnum Qden]. lia.
  - rewrite Hf. unfold Qlt. cbn [Qnum Qden]. lia.
  - unfold userAgents in Hua.
    repeat (apply elem_of_cons in Hua as [->|Hua]; [compute_done|]).
    by apply elem_of_nil in Hua.
Qed.

(** ** The profile cache, one lookup after the other *)

Lemma GetThreadProfile_ok (threadID : Z) (c : Cache) (w : World) :
  cacheOk c →
  let res := GetThreadProfile threadID c w in
  cacheOk res.1.2
  ∧ threadProfiles res.1.2 !! threadID = Some res.1.1
  ∧ threadProfiles c ⊆ threadProfiles res.1.2.
Proof.
  intros [Hvalid Hinj]. cbv zeta. unfold GetThreadProfile, Load.
  destruct (threadProfiles c !! threadID) as [p|] eqn:Hload.
  - cbn [fst snd]. by repeat split.
  - unfold allocProfile. destruct (generateBrowserProfile w) as [prof w1].
    unfold Store, cacheOk. cbn [fst snd heap threadProfiles].
    split; [split|split].
    + intros id p. rewrite length_app. cbn [length].
      destruct (decide (id = threadID)) as [->|Hne].
      * rewrite lookup_insert_eq. intros [= <-]. lia.
      * rewrite lookup_insert_ne by done. intros Hp%Hvalid. lia.
    + intros id1 id2 p.
      destruct (decide (id1 = threadID)) as [->|Hne1],
               (decide (id2 = threadID)) as [->|Hne2];
        rewrite ?lookup_insert_eq, ?lookup_insert_ne by done; try done.
      * intros [= <-] Hp%Hvalid. lia.
      * intros Hp%Hvalid [= <-]. lia.
      * apply Hinj.
    + by rewrite lookup_insert_eq.
    + by apply insert_subseteq.
Qed.

Lemma lookupAll_ok (ids : list Z) (c : Cache) (w : World) :
  cacheOk c →
  let res := lookupAll ids c w in
  cacheOk res.1.2
  ∧ Forall2 (λ threadID p, threadProfiles res.1.2 !! threadID = Some p)
            ids res.1.1
  ∧ threadProfiles c ⊆ threadProfiles res.1.2.
Proof.
  revert c w. induction ids as [|threadID ids IH]; intros c w Hok.
  - cbn. split; [exact Hok|]. split; [constructor|reflexivity].
  - cbv zeta. cbn [lookupAll].
    destruct (GetThreadProfile_ok threadID c w Hok) as (Hok1 & Hp & Hsub1).
    destruct (GetThreadProfile threadID c w) as [[p c1] w1].
    cbn [fst snd] in *.
    destruct (IH c1 w1 Hok1) as (Hok2 & Hall & Hsub2).
    destruct (lookupAll ids c1 w1) as [[ps c2] w2]. cbn [fst snd] in *.
    split; [exact Hok2|]. split.
    + constructor; [|exact Hall]. by eapply lookup_weaken.
    + by etransitivity.
Qed.

(** X22. Lookups of the profile cache made one after the other, from a
    cache that is well formed (the empty cache is), behave as a cache
    should: two lookups return the same pointer exactly when they are made
    for the same thread identifier, every pointer returned is a profile of
    the heap, and the cache stays well formed. *)
Theorem lookupAll_consistent (ids : list Z) (c : Cache) (w : World) :
  cacheOk c →
  let res := lookupAll ids c w in
  cacheOk res.1.2
  ∧ length res.1.1 = length ids
  ∧ (∀ i j id_i id_j p_i p_j,
       ids !! i = Some id_i → ids !! j = Some id_j →
       res.1.1 !! i = Some p_i → res.1.1 !! j = Some p_j →
       (id_i = id_j ↔ p_i = p_j))
  ∧ (∀ p, p ∈ res.1.1 → is_Some (heap res.1.2 !! p)).
Proof.
  intros Hok. cbv zeta.
  destruct (lookupAll_ok ids c w Hok) as (Hok' & Hall & _).
  split; [exact Hok'|]. split; [symmetry; by eapply Forall2_length|].
  destruct Hok' as [Hvalid Hinj]. split.
  - intros i j id_i id_j p_i p_j Hi Hj Hpi Hpj.
    pose proof (Forall2_lookup_lr _ _ _ _ _ _ Hall Hi Hpi) as Hli.
    pose proof (Forall2_lookup_lr _ _ _ _ _ _ Hall Hj Hpj) as Hlj.
    cbn beta in Hli, Hlj. split.
    + intros ->. congruence.
    + intros ->. by eapply Hinj.
  - intros p Hp. apply list_elem_of_lookup in Hp as [i Hi].
    destruct (Forall2_lookup_r _ _ _ _ _ Hall Hi) as (threadID & _ & Hl).
    apply lookup_lt_is_Some_2. by eapply Hvalid.
Qed.

Lemma lookupAll_consistent_witness :
  (lookupAll [7; 8; 7] emptyCache (worldWith (λ _, O) quietNet)).1.1
  = [0; 1; 0]%nat
  ∧ cacheOk (lookupAll [7; 8; 7] emptyCache (worldWith (λ _, O) quietNet)).1.2.
Proof.
  split; [reflexivity|].
  refine (proj1 (lookupAll_consistent [7; 8; 7] emptyCache
                   (worldWith (λ _, O) quietNet) _)).
  unfold cacheOk, emptyCache. cbn [threadProfiles heap].
  split; intros ? ?; [|intros ?]; rewrite lookup_empty; discriminate.
Defined.

(** ** Redirect hops of a Chrome profile *)

(** X23. On every redirect hop below the ceiling, a client whose profile
    resolves to Chrome presents the new request as a navigation started by
    the user from another site: [Sec-Fetch-Mode: navigate],
    [Sec-Fetch-Dest: document], [Sec-Fetch-User: ?1] and, the hook setting
    no origin, [Sec-Fetch-Site: cross-site] whatever the two addresses are,
    also when the redirect stays on the same site. No [Origin] header is
    sent. *)
Theorem Chrome_redirect_hop `{GoLib} (bc : BrowserClient) (req : Request)
    (via : list Request) (prevReq : Request) (w : World) :
  detectBrowser (UserAgent (hb_profile (headerBuilder bc))) = "Chrome" →
  last via = Some prevReq → (length via < 10)%nat →
  URL_String (req_URL prevReq) ≠ "" →
  let h := req_Header (checkRedirect req via bc w).1.1.2 in
  h !! "Sec-Fetch-Site" = Some ["cross-site"]
  ∧ h !! "Sec-Fetch-Mode" = Some ["navigate"]
  ∧ h !! "Sec-Fetch-Dest" = Some ["document"]
  ∧ h !! "Sec-Fetch-User" = Some ["?1"]
  ∧ h !! "Origin" = None.
Proof.
  intros Hfam Hlast Hlen Hurl. cbv zeta.
  rewrite (checkRedirect_hop_eq req via prevReq bc w Hlast Hlen).
  cbv zeta. cbn [fst snd req_Header].
  set (hb := SetContext (headerBuilder bc) true
                        (URL_String (req_URL prevReq)) "").
  assert (Hkeep : ∀ key, key ≠ "Authorization" → key ≠ "X-Requested-With" →
    (if negb (String.eqb (Header_Get (req_Header prevReq) "X-Requested-With") "")
     then Header_Set
            (if negb (String.eqb (Header_Get (req_Header prevReq)
                                    "Authorization") "")
             then Header_Set (req_Header (BuildHeaders hb req w).1)
                    "Authorization"
                    (Header_Get (req_Header prevReq) "Authorization")
             else req_Header (BuildHeaders hb req w).1)
            "X-Requested-With"
            (Header_Get (req_Header prevReq) "X-Requested-With")
     else
       if negb (String.eqb (Header_Get (req_Header prevReq)
                              "Authorization") "")
       then Header_Set (req_Header (BuildHeaders hb req w).1) "Authorization"
              (Header_Get (req_Header prevReq) "Authorization")
       else req_Header (BuildHeaders hb req w).1) !! key
    = req_Header (BuildHeaders hb req w).1 !! key).
  { intros key H1 H2. unfold Header_Set.
    change (CanonicalMIMEHeaderKey "Authorization") with "Authorization".
    change (CanonicalMIMEHeaderKey "X-Requested-With") with "X-Requested-With".
    destruct (negb _), (negb _);
      rewrite ?lookup_insert_ne by done; reflexivity. }
  rewrite !Hkeep by done.
  rewrite BuildHeaders_exact, generateHeaders_With.
  change (hb_profile hb) with (hb_profile (headerBuilder bc)).
  rewrite Hfam.
  destruct (generateHeadersWith_Chrome hb req (newRand w).1)
    as (_ & _ & _ & Hsite & Hmode & Hdest & Huser & _).
  destruct (generateHeadersWith_common hb req "Chrome" (newRand w).1)
    as (_ & _ & _ & _ & _ & Horigin).
  rewrite Hsite, Hmode, Hdest, Huser, Horigin.
  unfold getSecFetchSite, getSecFetchMode, getSecFetchDest, hb.
  cbn [SetContext referrer origin isNavigate].
  destruct (String.eqb_spec (URL_String (req_URL prevReq)) "");
    [contradiction|].
  by repeat split.
Qed.

Lemma Chrome_redirect_hop_witness :
  let bc := newClient (exampleProfile chromeUA) exampleConfig in
  let prev := mkRequest "GET" (mkURL "http://example.com/a" "/a") ∅ in
  let req := mkRequest "GET" (mkURL "http://example.com/b" "/b") ∅ in
  req_Header (@checkRedirect exampleLib req [prev] bc
                (worldWith (λ _, O) quietNet)).1.1.2 !! "Sec-Fetch-Site"
  = Some ["cross-site"].
Proof.
  cbv zeta.
  refine (proj1
    (@Chrome_redirect_hop exampleLib
       (newClient (exampleProfile chromeUA) exampleConfig)
       (mkRequest "GET" (mkURL "http://example.com/b" "/b") ∅)
       [mkRequest "GET" (mkURL "http://example.com/a" "/a") ∅]
       (mkRequest "GET" (mkURL "http://example.com/a" "/a") ∅)
       (worldWith (λ _, O) quietNet) _ _ _ _)).
  - reflexivity.
  - reflexivity.
  - simpl. lia.
  - discriminate.
Defined.

(** ** The legacy header function *)

Lemma setAll_other (h : Header) kvs key :
  (∀ k v, (k, v) ∈ kvs → CanonicalMIMEHeaderKey k ≠ key) →
  setAll h kvs !! key = h !! key.
Proof. apply applyCustom_other. Qed.

Lemma setAll_snoc (h : Header) kvs k v :
  setAll h (kvs ++ [(k, v)]) !! CanonicalMIMEHeaderKey k = Some [v].
Proof.
  unfold setAll. rewrite foldl_app. cbn [foldl]. unfold Header_Set.
  apply lookup_insert_eq.
Qed.

Ltac canonical_keys :=
  repeat match goal with
         | |- context [CanonicalMIMEHeaderKey ?k] =>
             let v := eval vm_compute in (CanonicalMIMEHeaderKey k) in
             change (CanonicalMIMEHeaderKey k) with v
         end.

Ltac lookup_inserts :=
  repeat first [ rewrite lookup_insert_eq | rewrite lookup_insert_ne by done ].

(** X24. The legacy [SetRequestHeaders] writes into the header collection
    the request already has: the headers it does not name are kept. It
    always sets [User-Agent] and [Accept-Language] from the profile,
    [Connection: keep-alive], [Pragma: no-cache] and
    [Upgrade-Insecure-Requests: 1], whatever the family; a user agent that
    contains [Chrome] gets the client hints of Chrome on Windows and
    [Sec-Fetch-Site: same-origin], whatever its platform. *)
Theorem SetRequestHeaders_spec (req : Request) (profile : BrowserProfile)
    (w : World) :
  let h := req_Header (SetRequestHeaders req profile w).1 in
  h !! "User-Agent" = Some [UserAgent profile]
  ∧ h !! "Accept-Language" = Some [Language profile]
  ∧ h !! "Connection" = Some ["keep-alive"]
  ∧ h !! "Pragma" = Some ["no-cache"]
  ∧ h !! "Upgrade-Insecure-Requests" = Some ["1"]
  ∧ (strings_Contains (UserAgent profile) "Chrome" = true →
     h !! "Sec-Ch-Ua-Platform" = Some [quoted "Windows"]
     ∧ h !! "Sec-Fetch-Site" = Some ["same-origin"]
     ∧ h !! "TE" = req_Header req !! "TE")
  ∧ (∀ key, key ∉ legacyKeys → h !! key = req_Header req !! key)
  ∧ Method (SetRequestHeaders req profile w).1 = Method req
  ∧ req_URL (SetRequestHeaders req profile w).1 = req_URL req.
Proof.
  cbv zeta. unfold SetRequestHeaders. destruct (newRand w) as [r w1].
  destruct (Intn r 2) as [d r1]. destruct (Intn r1 3) as [c r2].
  cbn [fst req_Header Method req_URL]. unfold setAll. cbn [foldl].
  unfold Header_Set. canonical_keys.
  generalize (req_Header req). intros h0.
  split; [|split; [|split; [|split; [|split; [|split; [|split]]]]]].
  - destruct (strings_Contains (UserAgent profile) "Chrome"),
      (strings_Contains (UserAgent profile) "Firefox"),
      (strings_Contains (UserAgent profile) "Safari"),
      (d =? 0)%nat, (c =? 0)%nat;
      by lookup_inserts.
  - destruct (strings_Contains (UserAgent profile) "Chrome"),
      (strings_Contains (UserAgent profile) "Firefox"),
      (strings_Contains (UserAgent profile) "Safari"),
      (d =? 0)%nat, (c =? 0)%nat;
      by lookup_inserts.
  - destruct (strings_Contains (UserAgent profile) "Chrome"),
      (strings_Contains (UserAgent profile) "Firefox"),
      (strings_Contains (UserAgent profile) "Safari"),
      (d =? 0)%nat, (c =? 0)%nat;
      by lookup_inserts.
  - by lookup_inserts.
  - by lookup_inserts.
  - intros ->. destruct (d =? 0)%nat, (c =? 0)%nat;
      repeat split; by lookup_inserts.
  - intros key Hkey.
    destruct (strings_Contains (UserAgent profile) "Chrome"),
      (strings_Contains (UserAgent profile) "Firefox"),
      (strings_Contains (UserAgent profile) "Safari"),
      (d =? 0)%nat, (c =? 0)%nat;
      repeat (rewrite lookup_insert_ne
                by (intros <-; apply Hkey; compute_done));
      reflexivity.
  - by split.
Qed.

(** ** Round trips *)

Lemma Client_do_sent `{GoLib} fuel reqs req bc w res bc' w' :
  (length reqs ≤ 9)%nat →
  Client_do checkRedirect fuel reqs req bc w = Some (res, bc', w') →
  (sent w < sent w')%nat ∧ (sent w' + length reqs ≤ sent w + 10)%nat
  ∧ network w' = network w.
Proof.
  revert reqs req bc w. induction fuel as [|fuel IH]; intros reqs req bc w Hlen;
    [discriminate|].
  rewrite Client_do_S. cbv zeta. unfold roundTrip.
  destruct (network w (sent w) req) as [e|resp].
  { intros [= <- <- <-]. cbn [sent network]. repeat split; try done; lia. }
  destruct (redirect resp) as [[method loc]|];
    [|intros [= <- <- <-]; cbn [sent network]; repeat split; try done; lia].
  match goal with |- context [checkRedirect ?a ?b ?c ?d] =>
    pose proof (checkRedirect_world a b c d) as (Hn & Hs & _);
    pose proof (checkRedirect_stop a b c d) as Hstop end.
  destruct (checkRedirect _ _ _ _) as [[[err next] bc1] w1].
  cbn [fst snd sent network] in Hn, Hs, Hstop.
  destruct err as [e|].
  - destruct e; intros [= <- <- <-]; rewrite Hs, Hn; repeat split; try done; lia.
  - intros Hdo.
    destruct (decide (10 ≤ length (reqs ++ [req]))%nat) as [Hge|Hlt];
      [specialize (Hstop Hge); discriminate|].
    rewrite length_app in Hlt. cbn [length] in Hlt.
    apply IH in Hdo as (H1 & H2 & H3);
      [|rewrite length_app; cbn [length]; lia].
    rewrite length_app in H2. cbn [length] in H2.
    rewrite Hs in H1, H2. rewrite H3, Hn. repeat split; try done; lia.
Qed.

Lemma Do_sent `{GoLib} bc req options w :
  (sent w < sent (Do bc req options w).2)%nat
  ∧ (sent (Do bc req options w).2 ≤ sent w + 10)%nat
  ∧ network (Do bc req options w).2 = network w.
Proof.
  destruct (Do_unfold bc req options w) as (bc0 & req0 & w0 & Hn & Hs & ->).
  destruct (Client_do_checkRedirect_total maxRoundTrips [] req0 bc0 w0)
    as [[[res bc'] w'] Hdo]; [simpl; unfold maxRoundTrips; lia
                             |unfold maxRoundTrips; lia|].
  rewrite Hdo.
  apply Client_do_sent in Hdo as (H1 & H2 & H3); [|simpl; lia].
  cbn [length] in H2. rewrite Hs in H1, H2. rewrite Hn in H3.
  destruct res; cbn [snd]; repeat split; try done; lia.
Qed.

Lemma Get_sent `{GoLib} bc url options w :
  (sent w ≤ sent (Get bc url options w).2)%nat
  ∧ (sent (Get bc url options w).2 ≤ sent w + 10)%nat
  ∧ network (Get bc url options w).2 = network w.
Proof.
  unfold Get. destruct (http_NewRequest "GET" url) as [u|err].
  - destruct (Do_sent bc (mkRequest "GET" u ∅) options w) as (H1 & H2 & H3).
    repeat split; try done; lia.
  - cbn [snd]. repeat split; try done; lia.
Qed.

Lemma retryLoop_sent `{GoLib} url maxRetries options n i lastErr backoff bc w :
  let w' := (retryLoop url maxRetries options n i lastErr backoff bc w).2 in
  (sent w ≤ sent w')%nat ∧ (sent w' ≤ sent w + 10 * n)%nat
  ∧ network w' = network w.
Proof.
  revert i lastErr backoff bc w.
  induction n as [|n IH]; intros i lastErr backoff bc w.
  - cbn. repeat split; try done; lia.
  - cbv zeta. rewrite retryLoop_S. cbv zeta.
    destruct (Get_sent bc url options w) as (G1 & G2 & G3).
    destruct (Get bc url options w) as [[res bc1] w1]. cbn [snd] in G1, G2, G3.
    assert (Hstep : ∀ err,
      let w' := (let '(backoff0, w0) :=
                   if i <? maxRetries
                   then (if 30 * second_ns <? backoff * 2 then 30 * second_ns
                         else backoff * 2, time_Sleep backoff w1)
                   else (backoff, w1) in
                 retryLoop url maxRetries options n (i + 1) err backoff0 bc1
                           w0).2 in
      (sent w ≤ sent w')%nat ∧ (sent w' ≤ sent w + 10 * S n)%nat
      ∧ network w' = network w).
    { intros err. cbv zeta. destruct (i <? maxRetries).
      - destruct (IH (i + 1) err
                    (if 30 * second_ns <? backoff * 2 then 30 * second_ns
                     else backoff * 2) bc1 (time_Sleep backoff w1))
          as (H1 & H2 & H3).
        cbv zeta in H1, H2, H3.
        change (sent (time_Sleep backoff w1)) with (sent w1) in H1, H2.
        change (network (time_Sleep backoff w1)) with (network w1) in H3.
        rewrite H3, G3. repeat split; try done; lia.
      - destruct (IH (i + 1) err backoff bc1 w1) as (H1 & H2 & H3).
        cbv zeta in H1, H2, H3. rewrite H3, G3. repeat split; try done; lia. }
    destruct res as [resp|err]; [|apply Hstep].
    destruct (StatusCode resp <? 500); [|apply Hstep].
    cbn [snd]. repeat split; try done; lia.
Qed.

(** X25. Whatever the network answers, a call of [Do] makes at least one
    and at most ten round trips, and a call of [GetWithRetry] at most ten
    for each of its [maxRetries + 1] attempts. *)
Theorem round_trip_bounds `{GoLib} (bc : BrowserClient) (req : Request)
    (url : string) (maxRetries : Z) (options : list RequestOptions)
    (w : World) :
  (sent w < sent (Do bc req options w).2)%nat
  ∧ (sent (Do bc req options w).2 ≤ sent w + 10)%nat
  ∧ (sent w ≤ sent (GetWithRetry bc url maxRetries options w).2)%nat
  ∧ (sent (GetWithRetry bc url maxRetries options w).2
     ≤ sent w + 10 * Z.to_nat (maxRetries + 1))%nat.
Proof.
  destruct (Do_sent bc req options w) as (H1 & H2 & _).
  destruct (retryLoop_sent url maxRetries options (Z.to_nat (maxRetries + 1))
              0 None (1 * second_ns) bc w) as (H3 & H4 & _).
  by repeat split.
Qed.

(** ** The navigation history *)

Lemma StreamGet_history `{GoLib} bc url config options w :
  history (StreamGet bc url config options w).1.2 = history bc.
Proof.
  destruct (http_NewRequest "GET" url) as [u|err] eqn:Hu.
  - rewrite (StreamGet_eq bc url config options w u Hu). cbv zeta.
    by destruct (roundTrip _ _).1.
  - unfold StreamGet. by rewrite Hu.
Qed.

Lemma StreamGet_world `{GoLib} bc url config options w :
  network (StreamGet bc url config options w).2 = network w
  ∧ (sent w ≤ sent (StreamGet bc url config options w).2)%nat.
Proof.
  destruct (http_NewRequest "GET" url) as [u|err] eqn:Hu.
  - rewrite (StreamGet_eq bc url config options w u Hu). cbv zeta.
    match goal with |- context [BuildHeaders ?hb ?rq w] =>
      destruct (BuildHeaders_world hb rq w) as (Hnet & Hsent & _);
      destruct (BuildHeaders hb rq w) as [req1 w1] end.
    cbn [fst snd] in *. unfold roundTrip. cbn [fst snd].
    destruct (network w1 (sent w1) req1); cbn [snd network sent];
      (split; [exact Hnet|lia]).
  - unfold StreamGet. rewrite Hu. cbn [snd]. split; [reflexivity|lia].
Qed.

(** A request that is answered at once is a call of [Do] that returns. *)
Lemma Do_answered `{GoLib} bc req options w :
  (∀ r, ∃ resp, network w (sent w) r = RoundTripResponse resp
                ∧ redirect resp = None) →
  ∃ resp, (Do bc req options w).1.1 = Ok resp.
Proof.
  intros Hans.
  destruct (Do_unfold bc req options w) as (bc0 & req0 & w0 & Hn & Hs & ->).
  unfold maxRoundTrips. rewrite Client_do_S. cbv zeta. unfold roundTrip.
  rewrite Hn, Hs. destruct (Hans req0) as (resp & -> & ->).
  by exists resp.
Qed.

Lemma runSession_history `{GoLib} calls bc w l :
  history bc = lastN 10 l →
  history (runSession bc calls w).1.2
  = lastN 10 (l ++ recorded (runSession bc calls w).1.1).
Proof.
  revert bc w l. induction calls as [|[req options|url config options] calls IH];
    intros bc w l Hl.
  - cbn. rewrite app_nil_r. exact Hl.
  - cbn [runSession]. pose proof (Do_history bc req options w) as Hh.
    destruct (Do bc req options w) as [[res bc1] w1]. cbn [fst snd] in Hh.
    specialize (IH bc1 w1).
    destruct (runSession bc1 calls w1) as [[rest bc2] w2]. cbn [fst snd] in *.
    destruct res as [resp|e].
    + rewrite (IH (l ++ [URL_String (req_URL req)])).
      * cbn. by rewrite <- app_assoc.
      * rewrite Hh. apply updateHistory_lastN, Hl.
    + cbn. apply IH. rewrite Hh. exact Hl.
  - cbn [runSession].
    pose proof (StreamGet_history bc url config options w) as Hh.
    destruct (StreamGet bc url config options w) as [[res bc1] w1].
    cbn [fst snd] in Hh. specialize (IH bc1 w1 l).
    destruct (runSession bc1 calls w1) as [[rest bc2] w2]. cbn [fst snd] in *.
    cbn. apply IH. by rewrite Hh.
Qed.

Lemma runSession_world `{GoLib} calls bc w :
  network (runSession bc calls w).2 = network w
  ∧ (sent w + length (recorded (runSession bc calls w).1.1)
     ≤ sent (runSession bc calls w).2)%nat.
Proof.
  revert bc w. induction calls as [|[req options|url config options] calls IH];
    intros bc w.
  - cbn. split; [reflexivity|lia].
  - cbn [runSession]. destruct (Do_sent bc req options w) as (H1 & _ & H3).
    destruct (Do bc req options w) as [[res bc1] w1]. cbn [fst snd] in *.
    destruct (IH bc1 w1) as [Hn Hs].
    destruct (runSession bc1 calls w1) as [[rest bc2] w2]. cbn [fst snd] in *.
    split; [congruence|]. unfold recorded in *. destruct res; cbn; lia.
  - cbn [runSession].
    destruct (StreamGet_world bc url config options w) as [H1 H2].
    destruct (StreamGet bc url config options w) as [[res bc1] w1].
    cbn [fst snd] in *. destruct (IH bc1 w1) as [Hn Hs].
    destruct (runSession bc1 calls w1) as [[rest bc2] w2]. cbn [fst snd] in *.
    split; [congruence|]. unfold recorded in *. cbn. lia.
Qed.

Lemma runSession_recorded `{GoLib} calls bc w :
  alwaysAnswers w →
  recorded (runSession bc calls w).1.1 = requestedThroughDo calls.
Proof.
  revert bc w. induction calls as [|[req options|url config options] calls IH];
    intros bc w Hans.
  - reflexivity.
  - cbn [runSession]. destruct (Do_sent bc req options w) as (_ & _ & Hn).
    destruct (Do_answered bc req options w) as [resp Hres];
      [intros r; apply Hans|].
    destruct (Do bc req options w) as [[res bc1] w1]. cbn [fst snd] in *.
    subst res. specialize (IH bc1 w1).
    destruct (runSession bc1 calls w1) as [[rest bc2] w2]. cbn [fst snd] in *.
    cbn. f_equal. apply IH. intros i r. rewrite Hn. apply Hans.
  - cbn [runSession].
    destruct (StreamGet_world bc url config options w) as [Hn _].
    destruct (StreamGet bc url config options w) as [[res bc1] w1].
    cbn [fst snd] in *. specialize (IH bc1 w1).
    destruct (runSession bc1 calls w1) as [[rest bc2] w2]. cbn [fst snd] in *.
    cbn. apply IH. intros i r. rewrite Hn. apply Hans.
Qed.

(** C7, as the code has it. The history records the requests made through
    [Do], and those only. In a session that starts with a new client, after
    any sequence of calls of [Do] and [StreamGet], the history holds
    exactly the last min(k, 10) addresses of the k calls of [Do] that
    returned a response, in request order (the oldest are evicted first),
    and so never more than 10 entries; each of these calls made at least
    one round trip; and on a network that answers every request, these are
    the addresses of all the calls of [Do]. *)
Theorem history_last_10 `{GoLib} (profile : BrowserProfile)
    (config : ClientConfig) (calls : list Call) (w : World) :
  let '(log, bc, w') := runSession (newClient profile config) calls w in
  let k := length (recorded log) in
  history bc = lastN (k `min` 10) (recorded log)
  ∧ history bc = drop (k - 10) (recorded log)
  ∧ length (history bc) = (k `min` 10)%nat
  ∧ (length (history bc) ≤ 10)%nat
  ∧ (sent w + k ≤ sent w')%nat
  ∧ (alwaysAnswers w → recorded log = requestedThroughDo calls).
Proof.
  pose proof (runSession_history calls (newClient profile config) w []
                eq_refl) as Hh.
  pose proof (runSession_world calls (newClient profile config) w)
    as [_ Hsent].
  pose proof (runSession_recorded calls (newClient profile config) w) as Hrec.
  destruct (runSession _ calls w) as [[log bc] w']. cbn [fst snd] in *.
  cbv zeta. cbn [app] in Hh.
  assert (Hmin : lastN (length (recorded log) `min` 10) (recorded log)
                 = lastN 10 (recorded log)).
  { unfold lastN. f_equal. lia. }
  rewrite Hmin, Hh. split; [reflexivity|]. split; [reflexivity|].
  split; [by rewrite lastN_length|]. split; [rewrite lastN_length; lia|].
  split; [exact Hsent|exact Hrec].
Qed.

(** C7, as stated, fails: a successful request made through [StreamGet] is
    not recorded. After a call of [Do] and a call of [StreamGet] that both
    return (two requests sent), the history holds the address of the first
    only, not the last two addresses requested. *)
Lemma StreamGet_not_in_history :
  let bc := newClient (exampleProfile chromeUA) exampleConfig in
  let calls :=
    [ CallDo (mkRequest "GET" (mkURL "http://example.com/a" "/a") ∅) [];
      CallStreamGet "http://example.com/b" (mkStreamConfig "" 0 0) [] ] in
  let '(log, bc', w') :=
    @runSession exampleLib bc calls (worldWith (λ _, O) quietNet) in
  successful log = ["http://example.com/a"; "http://example.com/b"]
  ∧ sent w' = 2%nat
  ∧ history bc' = ["http://example.com/a"]
  ∧ history bc' ≠ lastN (2 `min` 10) (successful log).
Proof. vm_compute. by repeat split. Qed.

(** After 15 calls of [Do] with a call of [StreamGet] after each, the
    history holds the last 10 addresses requested through [Do]. *)
Example history_after_15_mixed :
  let urls := (λ n, "http://example.com/" +:+ itoa (Z.of_nat n)) <$> seq 1 15 in
  let calls :=
    urls ≫= (λ u, [ CallDo (mkRequest "GET" (mkURL u "/") ∅) [];
                    CallStreamGet (u +:+ "/stream")
                                  (mkStreamConfig "" 0 0) [] ]) in
  history (@runSession exampleLib
             (newClient (exampleProfile chromeUA) exampleConfig)
             calls (worldWith (λ _, O) quietNet)).1.2
  = drop 5 urls.
Proof. vm_compute. reflexivity. Qed.
